(* ===== verification/_CoqProject ===== *)
-Q . S2P
Prelude.v
Geometry.v
Preprocess.v
Chain.v
ChainLoop.v
Hull.v
Canvas.v
TraceTyping.v
Demo.v
ConvexScript.v
Normalize.v
Pyplot.v
PltShow.v
Scripts.v
Fonts.v
