(* ===== verification/Prelude.v ===== *)
(** * A verification library for the NodeBox convex-hull example and its companions

    The repository (kantel/nodebox-pyobjc) is a set of NodeBox example
    scripts.  Five of them are under [src/examples]:
    - [geometry/Convex Hull/convexhull.py]: [convex_hull] (Andrew's
      monotone chain, lines 26-67) and the demo around it: [mark] (73-89),
      [createRandomPoints] (91-106), [displayHullPoints] (109-133), a
      fallback for [size] (11-15), and a script body that times them and
      prints the counts and times (135-159);
    - three matplotlib examples ([colormap_normalizations.py],
      [simple_axes_divider2.py], [membrane.py]) that open with the same
      "nodebox section" defining [tempimage] and [pltshow], and the class
      [MidpointNormalize] of [colormap_normalizations.py] (128-137);
    - [New Functions/Example fontfamilies 2.py], a filter of the
      fixed-pitch fonts.

    ** The program's parts and how they interact

    [convex_hull(points)] is a pipeline of stages that share no state:
    - Preprocessor, line 39: [points = sorted(set(points))], which removes
      duplicates and sorts lexicographically; [sorted] is Python's, and the
      order of a Python [set] is unspecified.
    - Degenerate case, lines 42-43: at most one point is returned as is.
    - Chain builder, lines 45-63: the orientation [cross] and two stack
      scans, over [points] for [lower] and over [reversed(points)] for
      [upper]; each pops while the turn is not counter-clockwise
      ([cross <= 0]), then pushes.
    - Assembler, line 67: [lower[:-1] + upper[:-1]].
    The demo draws through the NodeBox API: [createRandomPoints] draws
    random points with [mark]; [displayHullPoints] draws the hull returned
    by [convex_hull] as a closed path with a marker per vertex.  The
    matplotlib scripts draw their figures on the NodeBox canvas with
    [pltshow], which goes through a temporary PNG file.

    ** Files, in dependency order, and what they model
    - [Prelude] (this file): the scope [hull_scope], [l[:-1]] as
      [drop_last], consecutive pairs and triples of a list ([edges],
      [triples], [cyclic_edges], [cyclic_triples]), the state and error
      monad [StateErr] used by the scripts with [for] ([se_for]),
      [try]/[except] ([se_catch]) and its bind lemmas, Python's
      [while] run with fuel ([py_while]) and its termination by a variant,
      the tactics [invc] and [edge_cases], the hint databases [hull] and
      [hull_rw], generic lemmas.
    - [Geometry]: points as [Z * Z]; Python's tuple order ([lex_le],
      [lex_lt], with stdpp order instances); [cross] (lines 45-49); the
      reflection [neg]; orientation lemmas, closed by [nia].
    - [Preprocess]: [sorted] as the class [PySorted] (any sorted
      permutation; [merge_sorted] is an instance), [set] as [py_set], and
      [preprocess] (line 39); [same_points] with its [Proper] instance.
    - [Chain]: the [while] loop ([pop_while]), one [for] iteration
      ([scan_step]), the loop ([scan]) and the Python list after it
      ([build_chain]); the loop invariant [scan_inv]; the chain contract
      [monotone_chain].
    - [ChainLoop]: the same [lower] loop on the Python list itself, as
      written: the guard [while_cond] reading [lower[-2]], [lower[-1]],
      [lower.pop()], the [while] loop [while_loop] as [py_while], the
      [for] loop [for_loop] counting the pops, and [chain_loop].
    - [Hull]: [convex_hull] in a section over any [PySorted]; the
      abstract specification [is_convex_hull] and the refinement proof.
    - [Canvas]: the environment of the demo, not code of the repository:
      the [Script] monad ([StateErr] over the emitted NodeBox commands and
      the position in the random stream), the NodeBox calls as commands,
      [l[i]], [l[a:b]] and [for], and [exec_trace], what a trace draws.
    - [TraceTyping]: a typing judgment on command traces (transformation
      depth and path state), with a checker proved sound and complete.
    - [Demo]: [mark], [createRandomPoints] with its loop
      [random_points_loop], [displayHullPoints] with [display_vertex], as
      [Script] computations on rational coordinates, and the script body
      [main_body] (lines 138-149) over any hull function.
    - [ConvexScript]: the whole script convexhull.py, lines 11-15 and
      135-159 ([size_fallback], [convexhull_script]), on a state of
      [WIDTH], [HEIGHT], the drawing state of [Canvas], the clock's
      readings and the printed lines; NodeBox's [size], [time.time()],
      [round(x, 3)], ["%.3f"] and [print] as library calls.
    - [Normalize]: numpy's [np.interp] from its C code, and
      [MidpointNormalize] ([__init__], [__call__]) over rationals.
    - [Pyplot]: the part of matplotlib the scripts call, as a computation
      [PLT] on pyplot's store of numbered figures with a current figure;
      figure and axes handles are numbers into the store, so a call
      through a handle changes the figure every other handle sees.
      [subplots], [figure], [add_axes], [pcolor(mesh)], [colorbar], the
      [Divider] and its locators, [cla], [clf], [close('all')], and the
      pixel size [savefig] renders; the store's invariant [plt_inv].
    - [PltShow]: the nodebox section ([nodebox_section], [tempimage],
      [pltshow], [call_pltshow]) on a state of the script's globals, the
      canvas, the pyplot store and a file system ([gmap]); a script's runs
      as the step relation [reachable] and the invariant [layout_inv].
    - [Scripts]: the bodies of the three matplotlib scripts, call for
      call, against the numpy interface [Numpy] (a class; [np_shapes] is
      an instance), and each whole script: section, body, [pltshow(plt)].
    - [Fonts]: the loop [fixed_fonts] and the printed output
      [fontfamilies_script].

    ** What the theorems show
    - The hull (C1-C9): [convex_hull] refines [is_convex_hull] for every
      implementation of [sorted] (vertices are distinct input points,
      start at the minimum, contain the maximum, every input point is on or
      left of every edge, strictly counter-clockwise turns); it depends
      only on the set of points and has at most as many vertices; the
      preprocessor's output is canonical; each chain is a strictly convex
      subsequence that keeps its ends and supports all points; collinear
      input gives its two extreme points, and the degenerate branch
      returns no vertex exactly for no points and the point itself for a
      repeated point.
    - The demo (C10-C15): [displayHullPoints] raises exactly on the empty
      outline; what it draws (a red closed path through the vertices with
      a marker at each); on [convex_hull]'s result, a path along a polygon
      that meets [is_convex_hull] (C12); the cross [mark] draws and the
      colours it leaves; [createRandomPoints] reads two random numbers
      per point and keeps its points inside the inset margins.
    - The nodebox section (C16-C19): [pltshow] raises nothing and leaves
      no temporary file, in one call and along any run; pictures are
      stacked without overlap within the canvas height; their right edge
      passes the canvas exactly for figures wider than 780 pixels.
    - [MidpointNormalize] (C20-C23): two linear ramps onto [[0, 1]] when
      [vmin < midpoint < vmax], order preserving, [0.5] at the midpoint;
      the script's norm on data straddling 0; and, on data above 0, the
      out-of-order samples that leave the lower half of the colormap
      unused.
    - The font filter (C24-C25): the loop is a filter, and the printed
      counts.
    - Traces (C26): the traces of [mark], [createRandomPoints] and
      [displayHullPoints] are well typed from every depth and path state.
    - The matplotlib scripts run in NodeBox from any state whose pyplot
      store is well formed (C27-C29): colormap draws only the last of its
      five figures; each script draws one picture, ending at column 820
      of an 800-column canvas; the divider's four axes are placed inside
      [rect] without overlap.
    - The loops as Python runs them (C30-C31): the [while] loop on any
      list stops and is [pop_while] on the reversed stack; the loops
      compute [build_chain] with at most one pop per point.
    - Progress (C32): from every reachable state, any sequence of
      [pltshow] calls completes and draws one picture each.
    - The whole convexhull.py (C33-C34): the canvas size the fallback
      sets, the [IndexError] of an empty hull, the six printed lines; on
      a monotone clock the printed times are the rounded intervals
      between consecutive readings, in order, each non-negative and
      within half a millisecond of its interval.

    ** Modelling choices and bounds
    - The hull is over integer coordinates ([Z]), where the orientation
      test is exact; the spec (section 9) leaves rounding out of scope.
      The demo's coordinates are rationals: Python floats computed without
      rounding.  [Chain] writes every loop as a structural recursion or a
      [foldl] over the list the Python loop runs over.  [ChainLoop] runs
      the [while] loop as [py_while] with [len(lower) + 1] tests of its
      guard, and the scan with [len(points) + 1] per [while] loop: each
      test that passes pops one element, so the guard fails after at most
      [len(lower)] tests (C30), and [lower] never holds more than
      [len(points)] elements (C31).  Nothing is assumed of the fuel: the
      theorems show the loops finish within it.
    - The scripts' arrays are left abstract ([Numpy]); the theorems about
      the scripts hold for every instance and every starting state; the
      body of each script runs on the store the section empties, and is
      evaluated there ([nodebox_script_eval]).
    - A Python list used as a stack is a Rocq list whose head is the top:
      [lower] is [reverse] of the stack.
    - NodeBox: [endpath] closes the last subpath (autoclosepath is on by
      default) and the path is drawn with the colours current at
      [endpath]; [push] and [pop] save the transformation only.
      [image(path, x, y, width=w)] keeps the aspect ratio.  Libraries
      (NodeBox, pyplot, numpy, [tempfile], [os]) are modelled by their
      effect on the state the scripts read, stated where they are defined.

    ** Not modelled
    - In the script body of convexhull.py, [main_body] and
      [convexhull_script] take the hull function as a parameter: the
      body passes the float points of [createRandomPoints] to
      [convex_hull], which is modelled over integers only; the
      composition is proved for integer points instead (C12).
    - What an older NodeBox raises on [size(0, 0)] (the model raises
      before changing the canvas, so [se_catch] restarts from the state
      before the call), and the binary floats behind [round] and
      ["%.3f"]: the model rounds exact rationals, halves away from zero,
      and formats multiples of 0.001, which is what the script prints.
    - matplotlib's rendering and colour mapping, and the contents of the
      numpy arrays: [Pyplot] keeps what the scripts' layout and
      [savefig] depend on (figures, axes, sizes, locators), not pixels. *)

From stdpp Require Export base list sorting sets.
From Stdlib Require Export ZArith Lia.

Declare Scope hull_scope.
Delimit Scope hull_scope with hull.

Create HintDb hull.
Create Rewrite HintDb hull_rw.

(** ** The Python slice [l[:-1]] *)

(** [l[:-1]] is [l[0:len(l)-1]]; for an empty list it is empty. *)
Definition drop_last {A} (l : list A) : list A := take (length l - 1) l.

Notation "l '.[:-1]'" := (drop_last l) (at level 1, left associativity,
  format "l .[:-1]") : hull_scope.

Open Scope hull_scope.

(** ** Consecutive pairs and triples of a list *)

Fixpoint edges {A} (l : list A) : list (A * A) :=
  match l with
  | x :: ((y :: _) as r) => (x, y) :: edges r
  | _ => []
  end.

Fixpoint triples {A} (l : list A) : list (A * A * A) :=
  match l with
  | x :: ((y :: z :: _) as r) => (x, y, z) :: triples r
  | _ => []
  end.

(** The closed polygon through the vertices of [l], in order: its edges
    include the one from the last vertex back to the first, and its
    triples wrap around twice. *)
Definition cyclic_edges {A} (l : list A) : list (A * A) :=
  match l with
  | [] => []
  | x :: _ => edges (l ++ [x])
  end.

Definition cyclic_triples {A} (l : list A) : list (A * A * A) :=
  match l with
  | x :: y :: _ => triples (l ++ [x; y])
  | _ => []
  end.

(** ** A state and error monad

    [StateErr S E A]: a computation on a state [S] that returns an [A] or
    raises an [E].  The demo scripts run in it with stdpp's notation
    [x ← m; k] and [m ;; k]. *)

Definition StateErr (S E A : Type) : Type := S → E + (A * S).

#[export] Instance se_ret {S E} : MRet (StateErr S E) := λ A a s, inr (a, s).
#[export] Instance se_bind {S E} : MBind (StateErr S E) := λ A B f m s,
  match m s with inl e => inl e | inr (a, s') => f a s' end.
#[export] Instance se_throw {S E} : MThrow E (StateErr S E) := λ A e _, inl e.

Definition se_get {S E} : StateErr S E S := λ s, inr (s, s).

(** [for x in l: body(x)] *)
Fixpoint se_for {S E A} (l : list A) (body : A → StateErr S E unit) : StateErr S E unit :=
  match l with
  | [] => mret tt
  | x :: l => body x ;; se_for l body
  end.
Definition se_modify {S E} (f : S → S) : StateErr S E unit := λ s, inr (tt, f s).

(** [try: m except: h]: [h] runs on the exception [m] raises, from the
    state [m] started in (the calls the scripts guard raise before they
    change anything). *)
Definition se_catch {S E A} (m : StateErr S E A) (h : E → StateErr S E A) : StateErr S E A :=
  λ s, match m s with inl e => h e s | inr r => inr r end.

(** ** Python's [while] loop

    [while cond: body], run for at most [fuel] tests of the condition.
    It returns the final state and how many times the body ran, or
    [None] when the fuel runs out before the condition fails. *)
Fixpoint py_while {St} (fuel : nat) (cond : St → bool) (body : St → St) (s : St) :
    option (St * nat) :=
  match fuel with
  | O => None
  | S n => if cond s then '(s', k) ← py_while n cond body (body s); Some (s', S k)
           else Some (s, O)
  end.

(** ** Tactics *)

Ltac invc H := inversion H; subst; clear H.

(** Split a hypothesis [(a, b) ∈ edges (x :: y :: l)] into its cases. *)
Ltac edge_cases H :=
  simpl in H; rewrite ?elem_of_cons in H;
  destruct H as [H | H]; [injection H as -> -> | ].

(** ** Generic lemmas *)

Section ListLemmas.
Context {A : Type}.
Implicit Types (l k : list A) (x y z : A).

Lemma drop_last_snoc l x : (l ++ [x]).[:-1] = l.
Proof.
  unfold drop_last. rewrite length_app. simpl.
  apply take_app_length'. lia.
Qed.

Lemma drop_last_sublist l : l.[:-1] `sublist_of` l.
Proof. unfold drop_last. apply sublist_take. Qed.

Lemma elem_of_drop_last x l : x ∈ l.[:-1] → x ∈ l.
Proof. intros H. eapply elem_of_sublist; [exact H | apply drop_last_sublist]. Qed.

Lemma length_drop_last l : length l.[:-1] = length l - 1.
Proof. unfold drop_last. rewrite length_take. lia. Qed.

Lemma edges_cons2 x y l : edges (x :: y :: l) = (x, y) :: edges (y :: l).
Proof. reflexivity. Qed.

Lemma elem_of_edges x y l : (x, y) ∈ edges l → x ∈ l ∧ y ∈ l.
Proof.
  induction l as [|a [|b l] IH]; simpl; intros H; try by apply elem_of_nil in H.
  apply elem_of_cons in H as [[= -> ->] | H].
  - split; [left | right; left].
  - destruct (IH H) as [H1 H2]. split; by right.
Qed.

Lemma edges_app_single l x k :
  edges (l ++ x :: k) = edges (l ++ [x]) ++ edges (x :: k).
Proof.
  induction l as [|a l IH]; [done |]. destruct l as [|b l]; [done |].
  simpl in IH |- *. by rewrite IH.
Qed.

Lemma edges_snoc l x y : edges (l ++ [x; y]) = edges (l ++ [x]) ++ [(x, y)].
Proof. by rewrite edges_app_single. Qed.

Lemma edges_reverse l : edges (reverse l) = reverse (prod_swap <$> edges l).
Proof.
  induction l as [|a l IH]; [done |]. destruct l as [|b l]; [done |].
  rewrite edges_cons2, fmap_cons, !reverse_cons.
  rewrite reverse_cons in IH. rewrite <- app_assoc. simpl app.
  by rewrite edges_snoc, IH.
Qed.

Lemma elem_of_edges_reverse x y l :
  (x, y) ∈ edges (reverse l) ↔ (y, x) ∈ edges l.
Proof.
  rewrite edges_reverse, elem_of_reverse, list_elem_of_fmap.
  split; [intros [[a b] [[= -> ->] H]]; exact H | intros H; by exists (y, x)].
Qed.

Lemma triples_cons3 x y z l :
  triples (x :: y :: z :: l) = (x, y, z) :: triples (y :: z :: l).
Proof. reflexivity. Qed.

Lemma triples_app_pair l x y k :
  triples (l ++ x :: y :: k) = triples (l ++ [x; y]) ++ triples (x :: y :: k).
Proof.
  induction l as [|a l IH]; [done |]. destruct l as [|b l]; [done |].
  destruct l as [|c l]; [done |]. simpl in IH |- *. by rewrite IH.
Qed.

Lemma elem_of_edges_app_r e k l : e ∈ edges l → e ∈ edges (k ++ l).
Proof.
  induction k as [|a k IH]; [done |]. intros H. specialize (IH H).
  change ((a :: k) ++ l) with (a :: (k ++ l)).
  destruct (k ++ l) as [|y t]; [by apply elem_of_nil in IH | by right].
Qed.

Lemma elem_of_triples_app_r t k l : t ∈ triples l → t ∈ triples (k ++ l).
Proof.
  induction k as [|a k IH]; [done |]. intros H. specialize (IH H).
  change ((a :: k) ++ l) with (a :: (k ++ l)).
  destruct (k ++ l) as [|y [|z u]]; [by apply elem_of_nil in IH.. | by right].
Qed.

Lemma elem_of_edges_suffix e l k : l `suffix_of` k → e ∈ edges l → e ∈ edges k.
Proof. intros [k' ->]. apply elem_of_edges_app_r. Qed.

Lemma elem_of_triples_suffix t l k : l `suffix_of` k → t ∈ triples l → t ∈ triples k.
Proof. intros [k' ->]. apply elem_of_triples_app_r. Qed.

Lemma triples_snoc l x y z :
  triples (l ++ [x; y; z]) = triples (l ++ [x; y]) ++ [(x, y, z)].
Proof. by rewrite triples_app_pair. Qed.

Lemma triples_reverse l :
  triples (reverse l) = reverse ((λ '(x, y, z), (z, y, x)) <$> triples l).
Proof.
  induction l as [|a l IH]; [done |]. destruct l as [|b l]; [done |].
  destruct l as [|c l]; [done |].
  rewrite triples_cons3, fmap_cons, !reverse_cons.
  rewrite !reverse_cons in IH. rewrite <- IH, <- !app_assoc. apply triples_snoc.
Qed.

Lemma elem_of_triples_reverse x y z l :
  (x, y, z) ∈ triples (reverse l) ↔ (z, y, x) ∈ triples l.
Proof.
  rewrite triples_reverse, elem_of_reverse, list_elem_of_fmap.
  split; [intros [[[a b] c] [[= -> -> ->] H]]; exact H | intros H; by exists (z, y, x)].
Qed.

Lemma fmap_edges {B} (f : A → B) l : edges (f <$> l) = prod_map f f <$> edges l.
Proof.
  induction l as [|a l IH]; [done |]. destruct l as [|b l]; [done |].
  rewrite fmap_cons. simpl in IH |- *. by rewrite IH.
Qed.

Lemma StronglySorted_snoc (R : relation A) l x :
  StronglySorted R (l ++ [x]) ↔ StronglySorted R l ∧ ∀ y, y ∈ l → R y x.
Proof.
  rewrite StronglySorted_app. split.
  - intros (H & Hl & _). split; [done |]. intros y Hy. apply H; [done | by left].
  - intros [Hl H]. split_and!; [| done | repeat constructor].
    intros y z Hy ->%list_elem_of_singleton. by apply H.
Qed.

Lemma mjoin_cons (x : list A) (l : list (list A)) : mjoin (x :: l) = x ++ mjoin l.
Proof. done. Qed.

Lemma fmap_cyclic_edges {B} (f : A → B) l :
  cyclic_edges (f <$> l) = prod_map f f <$> cyclic_edges l.
Proof.
  destruct l as [|a l]; [done |]. cbn [cyclic_edges fmap list_fmap].
  by rewrite <- fmap_edges, fmap_app.
Qed.

Lemma fmap_triples {B} (f : A → B) l :
  triples (f <$> l) = (λ '(x, y, z), (f x, f y, f z)) <$> triples l.
Proof.
  induction l as [|a l IH]; [done |]. destruct l as [|b l]; [done |].
  destruct l as [|c l]; [done |]. rewrite fmap_cons. simpl in IH |- *. by rewrite IH.
Qed.

Lemma sublist_reverse l k : l `sublist_of` k → reverse l `sublist_of` reverse k.
Proof.
  induction 1; rewrite ?reverse_cons; [done | by apply sublist_app | by apply sublist_inserts_r].
Qed.

Lemma NoDup_inner x l y : NoDup (x :: l ++ [y]) → NoDup l.
Proof. intros [_ [? _]%NoDup_app]%NoDup_cons. done. Qed.

Lemma suffix_reverse_sublist l k : l `suffix_of` k → reverse l `sublist_of` reverse k.
Proof. intros [k' ->]. rewrite reverse_app. by apply sublist_inserts_r. Qed.

Lemma fmap_head {B} (f : A → B) l : head (f <$> l) = f <$> head l.
Proof. by destruct l. Qed.

Lemma sublist_fmap {B} (f : A → B) l k : l `sublist_of` k → (f <$> l) `sublist_of` (f <$> k).
Proof. induction 1; simpl; by constructor. Qed.

Lemma elem_of_triples_snoc t l z :
  t ∈ triples (l ++ [z]) → t ∈ triples l ∨ ∃ k x y, l = k ++ [x; y] ∧ t = (x, y, z).
Proof.
  induction l as [|a l IH]; [by intros ?%elem_of_nil |].
  destruct l as [|b l]; [by intros ?%elem_of_nil |].
  destruct l as [|c l].
  - intros [-> | ?%elem_of_nil]%elem_of_cons; [| done]. right. by exists [], a, b.
  - simpl. rewrite elem_of_cons. intros [-> | Ht]; [left; by left |].
    destruct (IH Ht) as [Ht' | (k & x & y & Hk & ->)]; [left; by right |].
    right. exists (a :: k), x, y. by rewrite Hk.
Qed.

Lemma app_snoc2_inv k x y l z : k ++ [x; y] = l ++ [z] → y = z ∧ last l = Some x.
Proof.
  replace (k ++ [x; y]) with ((k ++ [x]) ++ [y]) by (by rewrite <- app_assoc).
  intros [<- [= ->]]%app_inj_tail.
  split; [done | apply last_snoc].
Qed.

Lemma last_cons_cases x a l : last (a :: l) = Some x → (x = a ∧ l = []) ∨ x ∈ l.
Proof.
  destruct l as [|b l]; [intros [= ->]; by left |].
  rewrite last_cons_cons. intros ?%last_Some_elem_of. by right.
Qed.

Lemma head_app_cases x l y : head (l ++ [y]) = Some x → (x = y ∧ l = []) ∨ x ∈ l.
Proof. destruct l as [|b l]; intros [= ->]; [by left | right; by left]. Qed.

(** The closed polygon through [lo :: M ++ hi :: N] turns at the vertices
    of the chain [lo :: M ++ [hi]], at those of the chain [hi :: N ++ [lo]],
    and at the two joints [hi] and [lo]. *)
Lemma elem_of_cyclic_triples_join (lo hi : A) M N t :
  t ∈ cyclic_triples (lo :: M ++ hi :: N) →
  t ∈ triples (lo :: M ++ [hi]) ∨ t ∈ triples (hi :: N ++ [lo]) ∨
  (∃ x n1, t = (x, hi, n1) ∧ last (lo :: M) = Some x ∧ head (N ++ [lo]) = Some n1) ∨
  (∃ u y, t = (u, lo, y) ∧ last (hi :: N) = Some u ∧ head (M ++ [hi]) = Some y).
Proof.
  assert (∃ y, cyclic_triples (lo :: M ++ hi :: N) =
            triples ((lo :: M) ++ hi :: N ++ [lo; y]) ∧ head (M ++ [hi]) = Some y)
    as (y & -> & Hy).
  { destruct M as [|m M]; eexists; split; [done | done | | done].
    simpl. by rewrite <- app_assoc. }
  assert (∃ n1 rest, N ++ [lo; y] = n1 :: rest ∧ head (N ++ [lo]) = Some n1)
    as (n1 & rest & Hrest & Hn1) by (destruct N; by eexists _, _).
  rewrite Hrest, triples_app_pair, elem_of_app.
  intros [Ht | Ht].
  - replace ((lo :: M) ++ [hi; n1]) with ((lo :: M ++ [hi]) ++ [n1]) in Ht
      by (simpl; by rewrite <- app_assoc).
    apply elem_of_triples_snoc in Ht as [Ht | (k & x & y' & Hk & ->)]; [by left |].
    rewrite app_comm_cons in Hk. symmetry in Hk. apply app_snoc2_inv in Hk as [-> Hx].
    right; right; left. by exists x, n1.
  - rewrite <- Hrest in Ht.
    replace (hi :: N ++ [lo; y]) with ((hi :: N ++ [lo]) ++ [y]) in Ht
      by (simpl; by rewrite <- app_assoc).
    apply elem_of_triples_snoc in Ht as [Ht | (k & u & y' & Hk & ->)]; [right; by left |].
    rewrite app_comm_cons in Hk. symmetry in Hk. apply app_snoc2_inv in Hk as [-> Hu].
    right; right; right. by exists u, y.
Qed.

Lemma elem_of_cyclic_edges_join (lo hi : A) M N e :
  e ∈ cyclic_edges (lo :: M ++ hi :: N) →
  e ∈ edges (lo :: M ++ [hi]) ∨ e ∈ edges (hi :: N ++ [lo]).
Proof.
  change (cyclic_edges (lo :: M ++ hi :: N)) with (edges ((lo :: M ++ hi :: N) ++ [lo])).
  replace ((lo :: M ++ hi :: N) ++ [lo]) with ((lo :: M) ++ hi :: (N ++ [lo]))
    by (simpl; by rewrite <- app_assoc).
  rewrite edges_app_single, elem_of_app. done.
Qed.

(** A list with first element [a] and last element [b ≠ a]. *)
Lemma head_last_shape l a b :
  head l = Some a → last l = Some b → a ≠ b → ∃ M, l = a :: M ++ [b].
Proof.
  destruct l as [|x l]; [done |]. intros [= ->] Hb Hab.
  destruct l as [|y l]; [by injection Hb |]. rewrite last_cons_cons in Hb.
  apply last_Some in Hb as [M HM]. exists M. by rewrite HM.
Qed.

End ListLemmas.

#[export] Hint Resolve elem_of_drop_last drop_last_sublist : hull.
#[export] Hint Rewrite @drop_last_snoc @edges_cons2 @triples_cons3 : hull_rw.

(** ** Running a computation of the state and error monad *)

(** A step of a computation that returns: the rest runs from its result. *)
Lemma se_bind_run {S E A B} (m : StateErr S E A) (f : A → StateErr S E B) s a s' :
  m s = inr (a, s') → (m ≫= f) s = f a s'.
Proof. intros Hm. unfold mbind, se_bind. by rewrite Hm. Qed.

(** A step that raises: the rest does not run. *)
Lemma se_bind_fail {S E A B} (m : StateErr S E A) (f : A → StateErr S E B) s e :
  m s = inl e → (m ≫= f) s = inl e.
Proof. intros Hm. unfold mbind, se_bind. by rewrite Hm. Qed.

(** ** Termination of [py_while] by a variant *)

Section PyWhile.
Context {St : Type} (cond : St → bool) (body : St → St) (variant : St → nat).
Hypothesis variant_decreases : ∀ s, cond s = true → variant (body s) < variant s.

(** A loop whose body decreases a variant stops within [variant s + 1]
    tests of its condition, in a state where the condition fails, having
    run its body at most [variant s - variant s'] times. *)
Lemma py_while_terminates fuel s :
  variant s < fuel →
  ∃ s' k, py_while fuel cond body s = Some (s', k) ∧ cond s' = false ∧
    k + variant s' ≤ variant s.
Proof.
  revert s. induction fuel as [|fuel IH]; intros s Hs; [lia |]. simpl.
  destruct (cond s) eqn:Hc.
  - pose proof (variant_decreases s Hc).
    destruct (IH (body s)) as (s' & k & -> & Hc' & Hk); [lia |].
    exists s', (S k). simpl. split_and!; [done | done | lia].
  - exists s, 0. split_and!; [done | done | lia].
Qed.

(** When every iteration lowers the variant by exactly one, the number of
    iterations is the drop of the variant. *)
Lemma py_while_count fuel s s' k :
  (∀ s, cond s = true → S (variant (body s)) = variant s) →
  py_while fuel cond body s = Some (s', k) → k + variant s' = variant s.
Proof.
  intros Hstep. revert s k. induction fuel as [|fuel IH]; intros s k; simpl; [done |].
  destruct (cond s) eqn:Hc; [| by intros [= <- <-]].
  destruct (py_while fuel cond body (body s)) as [[s1 k1]|] eqn:Hr; simpl; [| done].
  intros [= <- <-]. apply IH in Hr. rewrite <- (Hstep s Hc). lia.
Qed.

End PyWhile.
