(* ===== verification/Geometry.v ===== *)
(** * Points, the order of Python tuples, and the orientation predicate

    A point is the Python pair [(x, y)], here [Z * Z].  Python compares
    tuples lexicographically; [lex_le] and [lex_lt] are that order, with
    the stdpp instances that [merge_sort] and [StronglySorted_unique] need.
    [cross] is the local function [cross(o, a, b)] of [convex_hull]
    (convexhull.py, lines 48-49).  The lemmas below are the orientation
    facts that the proofs about the monotone chain combine.  Each one is a
    polynomial inequality over [Z], proved by [nia] through the tactic
    [geo]. *)

From S2P Require Import Prelude.

Open Scope Z_scope.

Abbreviation Point := (Z * Z)%type.

(** ** Lexicographic order of Python tuples *)

Definition lex_le (p q : Point) : Prop :=
  p.1 < q.1 ∨ (p.1 = q.1 ∧ p.2 ≤ q.2).

Definition lex_lt (p q : Point) : Prop :=
  p.1 < q.1 ∨ (p.1 = q.1 ∧ p.2 < q.2).

Notation "p ⪯ q" := (lex_le p q) (at level 70) : hull_scope.
Notation "p ≺ q" := (lex_lt p q) (at level 70) : hull_scope.

#[export] Instance lex_le_dec : RelDecision lex_le.
Proof. intros p q. unfold lex_le. apply _. Defined.

#[export] Instance lex_lt_dec : RelDecision lex_lt.
Proof. intros p q. unfold lex_lt. apply _. Defined.

#[export] Instance lex_le_trans : Transitive lex_le.
Proof. intros [] [] []; unfold lex_le; simpl; lia. Qed.

#[export] Instance lex_le_total : Total lex_le.
Proof. intros [] []; unfold lex_le; simpl; lia. Qed.

#[export] Instance lex_le_antisymm : AntiSymm (=) lex_le.
Proof. intros [] []; unfold lex_le; simpl; intros ??; f_equal; lia. Qed.

#[export] Instance lex_lt_trans : Transitive lex_lt.
Proof. intros [] [] []; unfold lex_lt; simpl; lia. Qed.

#[export] Instance lex_lt_irrefl : Irreflexive lex_lt.
Proof. intros [] H; unfold lex_lt in H; simpl in H; lia. Qed.

(** ** The orientation predicate, convexhull.py lines 48-49 *)

(** [(a[0] - o[0]) * (b[1] - o[1]) - (a[1] - o[1]) * (b[0] - o[0])] *)
Definition cross (o a b : Point) : Z :=
  (a.1 - o.1) * (b.2 - o.2) - (a.2 - o.2) * (b.1 - o.1).

(** Reflection through the origin: it reverses the lexicographic order and
    keeps orientations.  It maps the scan of [upper] onto a scan like the
    one of [lower]. *)
Definition neg (p : Point) : Point := (- p.1, - p.2).

(** Unfold everything about the given points and call [nia]. *)
Ltac geo :=
  repeat match goal with p : Point |- _ => destruct p end;
  unfold lex_lt, lex_le, cross, neg in *; simpl in *; nia.

(** Close a goal from a hypothesis [p ≺ p]. *)
Ltac lex_irrefl :=
  match goal with H : ?p ≺ ?p |- _ => by destruct (irreflexivity lex_lt p) end.

(** ** Order lemmas *)

Lemma lex_lt_le p q : p ≺ q → p ⪯ q.
Proof. geo. Qed.

Lemma lex_le_lt_ne p q : p ⪯ q → p ≠ q → p ≺ q.
Proof. destruct p, q; unfold lex_le, lex_lt; simpl; intros H Hne.
  destruct H as [H | [-> H]]; [by left | right; split; [done |]].
  destruct (Z.eq_dec z0 z2) as [->|]; [done | lia]. Qed.

Lemma lex_lt_ne p q : p ≺ q → p ≠ q.
Proof. intros H ->. by apply (irreflexivity lex_lt q). Qed.

Lemma lex_le_lt_trans p q r : p ⪯ q → q ≺ r → p ≺ r.
Proof. geo. Qed.

Lemma lex_lt_le_trans p q r : p ≺ q → q ⪯ r → p ≺ r.
Proof. geo. Qed.

Lemma lex_lt_asym p q : p ≺ q → ¬ q ⪯ p.
Proof. geo. Qed.

Lemma lex_lt_neg p q : neg p ≺ neg q ↔ q ≺ p.
Proof. split; geo. Qed.

Lemma neg_involutive p : neg (neg p) = p.
Proof. destruct p; unfold neg; simpl; f_equal; lia. Qed.

#[export] Instance neg_inj : Inj (=) (=) neg.
Proof. intros p q H. by rewrite <- (neg_involutive p), H, neg_involutive. Qed.

(** ** Algebra of [cross] *)

Lemma cross_cycle a b c : cross a b c = cross b c a.
Proof. unfold cross; lia. Qed.

Lemma cross_swap a b c : cross a c b = - cross a b c.
Proof. unfold cross; lia. Qed.

Lemma cross_same_l a b : cross a a b = 0.
Proof. unfold cross; lia. Qed.

Lemma cross_same_r a b : cross a b b = 0.
Proof. unfold cross; lia. Qed.

Lemma cross_same_o a b : cross a b a = 0.
Proof. unfold cross; lia. Qed.

Lemma cross_neg a b c : cross (neg a) (neg b) (neg c) = cross a b c.
Proof. unfold cross, neg; simpl; lia. Qed.

#[export] Hint Rewrite cross_same_l cross_same_r cross_same_o cross_neg
  neg_involutive : hull_rw.
#[export] Hint Resolve lex_lt_le lex_lt_ne lex_le_lt_trans lex_lt_le_trans : hull.

(** ** Orientation lemmas for lexicographically sorted points *)

(** A counter-clockwise turn [a b c] followed by a counter-clockwise turn
    [b c d] makes [a b d] counter-clockwise, when the points go left to
    right.  This extends the last edge's guarantee backwards along a
    convex chain. *)
Lemma ccw_extend a b c d :
  a ≺ b → b ≺ c → c ⪯ d → 0 < cross a b c → 0 < cross b c d → 0 < cross a b d.
Proof. intros; geo. Qed.

(** The same two turns make [a c d] counter-clockwise. *)
Lemma ccw_shift a b c d :
  a ≺ b → b ≺ c → c ≺ d → 0 < cross a b c → 0 < cross b c d → 0 < cross a c d.
Proof. intros; geo. Qed.

(** Seen from a point [t] left of all others, counter-clockwise order is
    transitive. *)
Lemma ccw_fan_trans t a b c :
  t ≺ a → t ≺ b → t ≺ c → 0 < cross t a b → 0 < cross t b c → 0 < cross t a c.
Proof. intros; geo. Qed.

(** The three cases of the new edge [b -> p] pushed by the scan, for a point
    [q] that lies on or left of the old edge [a -> b]: [q] before [b] when
    the turn [a b p] is kept ... *)
Lemma left_of_new_edge_before a b p q :
  a ≺ b → b ≺ p → q ⪯ b →
  0 ≤ cross a b q → 0 < cross a b p → 0 ≤ cross b p q.
Proof. intros; geo. Qed.

(** ... [q] between [b] and [p] when [b] is popped ([a b p] not a left
    turn) and [q] is on or left of [b -> p] ... *)
Lemma left_of_new_edge_after a b p q :
  a ≺ b → b ≺ p → b ⪯ q → q ≺ p →
  cross a b p ≤ 0 → 0 ≤ cross b p q → 0 ≤ cross a b q → 0 ≤ cross a p q.
Proof. intros; geo. Qed.

(** ... and [q] between [a] and [b] when [b] is popped. *)
Lemma left_of_new_edge_between a b p q :
  a ≺ b → b ≺ p → a ⪯ q → q ≺ b →
  cross a b p ≤ 0 → 0 ≤ cross a b q → 0 ≤ cross a p q.
Proof. intros; geo. Qed.

(** Where the two chains meet at the rightmost point [hi]: a point [l]
    strictly right of [lo -> hi] (a lower-chain vertex) and a point [u]
    strictly left of it (an upper-chain vertex) make a strict left turn at
    [hi]. *)
Lemma ccw_junction lo hi l u :
  lo ≺ hi → l ≺ hi → u ≺ hi → lo ≺ l → lo ≺ u →
  cross lo hi l < 0 → 0 < cross lo hi u → 0 < cross l hi u.
Proof. intros; geo. Qed.

(** ** Strictly increasing sequences of points

    The spec's CanonicalSequence: strictly increasing in the order of
    Python tuples, hence without duplicates. *)

Definition strictly_sorted (l : list Point) : Prop := StronglySorted lex_lt l.

Lemma strictly_sorted_NoDup l : strictly_sorted l → NoDup l.
Proof.
  induction 1 as [|x l _ IH Hx]; constructor; [| done].
  intros Hin. rewrite Forall_forall in Hx. by apply (lex_lt_ne x x); [apply Hx |].
Qed.

(** Two strictly increasing sequences with the same elements are equal. *)
Lemma strictly_sorted_unique l k :
  strictly_sorted l → strictly_sorted k → (∀ x, x ∈ l ↔ x ∈ k) → l = k.
Proof.
  intros Hl Hk Hlk. apply (StronglySorted_unique_strong lex_lt); [| done | done |].
  - intros x y _ _ Hxy Hyx. destruct (lex_lt_asym _ _ Hxy). by apply lex_lt_le.
  - apply NoDup_Permutation; auto using strictly_sorted_NoDup.
Qed.

Lemma strictly_sorted_snoc l p :
  strictly_sorted (l ++ [p]) ↔ strictly_sorted l ∧ ∀ q, q ∈ l → q ≺ p.
Proof.
  apply StronglySorted_snoc.
Qed.

(** A list strictly decreasing in the order of Python tuples: a stack of
    points pushed in increasing order, top first. *)
Definition descending (l : list Point) : Prop := StronglySorted (λ x y, y ≺ x) l.

Lemma descending_reverse l : descending (reverse l) ↔ strictly_sorted l.
Proof.
  unfold descending, strictly_sorted. induction l as [|a l IH].
  - split; constructor.
  - rewrite reverse_cons, StronglySorted_app, (StronglySorted_cons lex_lt), <- IH. split.
    + intros (H & Hl & _). split; [| done]. apply Forall_forall.
      intros y Hy. apply H; [by apply elem_of_reverse | by left].
    + intros [Ha Hl]. rewrite Forall_forall in Ha. split_and!; [| done | repeat constructor].
      intros x y Hx ->%list_elem_of_singleton. apply Ha, elem_of_reverse, Hx.
Qed.

(** Reflection maps a decreasing sequence to an increasing one. *)
Lemma strictly_sorted_neg k : strictly_sorted (neg <$> k) ↔ descending k.
Proof.
  unfold strictly_sorted, descending. induction k as [|a k IH]; [split; constructor |].
  rewrite fmap_cons, !StronglySorted_cons, IH, Forall_fmap.
  split; intros [Ha Hk]; split; try done; eapply Forall_impl; try exact Ha;
    intros y Hy; by apply lex_lt_neg.
Qed.

Lemma strictly_sorted_neg_reverse l :
  strictly_sorted l → strictly_sorted (neg <$> reverse l).
Proof. by rewrite strictly_sorted_neg, descending_reverse. Qed.

Lemma lex_not_lt_le p q : ¬ q ≺ p → p ⪯ q.
Proof. geo. Qed.

Lemma strictly_sorted_sublist l k : l `sublist_of` k → strictly_sorted k → strictly_sorted l.
Proof.
  unfold strictly_sorted. induction 1 as [|x l k Hsub IH|x l k _ IH]; [by intros | |].
  - rewrite !StronglySorted_cons. intros [Hx Hk]. split; [| by apply IH].
    rewrite Forall_forall in Hx |- *. intros y Hy. apply Hx. by eapply elem_of_sublist; [exact Hy |].
  - rewrite StronglySorted_cons. intros [_ Hk]. by apply IH.
Qed.

(** The first element of a strictly increasing list is its minimum. *)
Lemma strictly_sorted_head_min l x q :
  strictly_sorted l → head l = Some x → q ∈ l → x ⪯ q.
Proof.
  destruct l as [|y l]; [done |]. intros Hl [= ->] [-> | Hq]%elem_of_cons; [geo |].
  apply StronglySorted_cons in Hl as [Hx _]. rewrite Forall_forall in Hx.
  apply lex_lt_le, Hx, Hq.
Qed.

(** The last element of a strictly increasing list is its maximum. *)
Lemma strictly_sorted_last_max l x q :
  strictly_sorted l → last l = Some x → q ∈ l → q ⪯ x.
Proof.
  destruct (decide (l = [])) as [-> | Hne]; [done |].
  destruct (exists_last Hne) as (k & y & ->). rewrite last_snoc.
  intros [_ Hk]%strictly_sorted_snoc [= <-] [Hq | ->%list_elem_of_singleton]%elem_of_app;
    [by apply lex_lt_le, Hk | geo].
Qed.

#[export] Hint Resolve lex_not_lt_le : hull.

Lemma descending_cons a s : descending (a :: s) ↔ (∀ x, x ∈ s → x ≺ a) ∧ descending s.
Proof. unfold descending. by rewrite StronglySorted_cons, Forall_forall. Qed.

Lemma descending_cons2 a b s : descending (a :: b :: s) → b ≺ a ∧ descending (b :: s).
Proof. intros [H Hs]%descending_cons. split; [apply H; by left | done]. Qed.

(** The junction at the leftmost point [lo], where the upper chain ends and
    the lower chain starts again. *)
Lemma ccw_junction_low lo hi u l :
  lo ≺ hi → lo ≺ u → u ≺ hi → lo ≺ l → l ≺ hi →
  0 < cross lo hi u → cross lo hi l < 0 → 0 < cross u lo l.
Proof. intros; geo. Qed.

Lemma strictly_sorted_ends l :
  strictly_sorted l → (2 ≤ length l)%nat →
  ∃ lo hi, head l = Some lo ∧ last l = Some hi ∧ lo ≺ hi.
Proof.
  intros Hs Hlen. destruct l as [|lo l]; [simpl in Hlen; lia |].
  destruct (last (lo :: l)) as [hi |] eqn:Hhi; [| by apply last_None in Hhi].
  exists lo, hi. split_and!; [done | done |].
  destruct l as [|x l]; [simpl in Hlen; lia |].
  apply StronglySorted_cons in Hs as [Hx _]. rewrite Forall_forall in Hx. apply Hx.
  rewrite last_cons_cons in Hhi. by apply last_Some_elem_of.
Qed.

(** The inner elements of a strictly increasing [lo :: M ++ [hi]]. *)
Lemma strictly_sorted_inner lo M hi m :
  strictly_sorted (lo :: M ++ [hi]) → m ∈ M → lo ≺ m ∧ m ≺ hi.
Proof.
  intros [Hf Hs]%StronglySorted_cons Hm. rewrite Forall_forall in Hf.
  apply strictly_sorted_snoc in Hs as [_ Hl]. split; [apply Hf; set_solver | by apply Hl].
Qed.
