(* ===== verification/Preprocess.v ===== *)
(** * The preprocessor: [points = sorted(set(points))]

    convexhull.py line 39.  [set(points)] removes duplicates; the order in
    which a Python set yields its elements is unspecified.  [sorted] is
    Python's library sort: a stable sort whose contract is a sorted
    permutation of its argument.  The library sort is an interface, the
    class [PySorted], and [merge_sorted] (stdpp's merge sort, like Timsort
    a merge sort) is one instance of it.  The set is modelled by stdpp's
    [remove_dups], and theorem [preprocess_any_set_order] shows that the
    result does not depend on the order in which the set is enumerated.  *)

From S2P Require Import Prelude Geometry.

Open Scope Z_scope.

(** ** The contract of Python's [sorted] on a list of pairs *)

Class PySorted := {
  py_sorted : list Point → list Point;
  py_sorted_Permutation l : py_sorted l ≡ₚ l;
  py_sorted_Sorted l : Sorted lex_le (py_sorted l)
}.

#[export] Program Instance merge_sorted : PySorted := {|
  py_sorted := merge_sort lex_le
|}.
Next Obligation. intros l. apply merge_sort_Permutation. Qed.
Next Obligation. intros l. apply (Sorted_merge_sort lex_le). Qed.

(** [set(points)], enumerated in some order. *)
Definition py_set (points : list Point) : list Point := remove_dups points.

(** Lists with the same elements, whatever their order and multiplicity. *)
Definition same_points (l k : list Point) : Prop := ∀ x, x ∈ l ↔ x ∈ k.

#[export] Instance same_points_equiv : Equivalence same_points.
Proof.
  split; red; unfold same_points.
  - done.
  - intros l k Hlk x. by rewrite Hlk.
  - intros l k m H1 H2 x. by rewrite H1, H2.
Qed.

Section Preprocessor.
Context `{PySorted}.

(** [sorted(set(points))] *)
Definition preprocess (points : list Point) : list Point :=
  py_sorted (py_set points).

(** A non-decreasing list without duplicates is strictly increasing. *)
Lemma Sorted_NoDup_strictly_sorted l :
  Sorted lex_le l → NoDup l → strictly_sorted l.
Proof.
  intros Hs Hnd. apply Sorted_StronglySorted in Hs; [| apply _].
  induction Hs as [|x l _ IH Hx]; constructor.
  - apply IH. by apply NoDup_cons in Hnd as [].
  - apply NoDup_cons in Hnd as [Hx' _]. rewrite Forall_forall in Hx |- *.
    intros y Hy. apply lex_le_lt_ne; [by apply Hx | by intros ->].
Qed.

Lemma elem_of_py_sorted x l : x ∈ py_sorted l ↔ x ∈ l.
Proof. by rewrite py_sorted_Permutation. Qed.

Lemma elem_of_preprocess x points : x ∈ preprocess points ↔ x ∈ points.
Proof. unfold preprocess, py_set. by rewrite elem_of_py_sorted, elem_of_remove_dups. Qed.

Lemma preprocess_strictly_sorted points : strictly_sorted (preprocess points).
Proof.
  apply Sorted_NoDup_strictly_sorted; [apply py_sorted_Sorted |].
  unfold preprocess. rewrite py_sorted_Permutation. apply NoDup_remove_dups.
Qed.

Lemma py_set_sublist points : py_set points `sublist_of` points.
Proof.
  induction points as [|x l IH]; simpl; [done |].
  case_decide; [by apply sublist_cons | by apply sublist_skip].
Qed.

(** The result is determined by the input's elements: it is the one
    strictly increasing list that has them. *)
Lemma preprocess_canonical l points :
  strictly_sorted l → same_points l points → l = preprocess points.
Proof.
  intros Hl Hsame. apply strictly_sorted_unique; [done | apply preprocess_strictly_sorted |].
  intros x. rewrite elem_of_preprocess. apply Hsame.
Qed.

(** Sorting a strictly increasing list gives it back. *)
Lemma preprocess_strictly_sorted_id l : strictly_sorted l → preprocess l = l.
Proof. intros Hl. symmetry. by apply preprocess_canonical. Qed.

End Preprocessor.

#[export] Instance preprocess_proper `{PySorted} :
  Proper (same_points ==> eq) preprocess.
Proof.
  intros l k Hlk. apply preprocess_canonical; [apply preprocess_strictly_sorted |].
  intros x. rewrite elem_of_preprocess. apply Hlk.
Qed.

#[export] Hint Resolve preprocess_strictly_sorted : hull.

(** ** Properties of the preprocessor *)

Lemma preprocess_props `{PySorted} points :
  strictly_sorted (preprocess points) ∧
  (∀ x, x ∈ preprocess points ↔ x ∈ points) ∧
  (length (preprocess points) ≤ length points)%nat.
Proof.
  split_and!; [apply preprocess_strictly_sorted | intros x; apply elem_of_preprocess |].
  unfold preprocess. rewrite py_sorted_Permutation.
  apply sublist_length, py_set_sublist.
Qed.

(** C4. The CanonicalSequence of the spec (section 3): [sorted(set(points))]
    is strictly increasing in the order of Python tuples, has exactly the
    elements of [points], and is no longer than [points]. *)
Theorem preprocess_spec `{PySorted} points :
  strictly_sorted (preprocess points) ∧
  (∀ x, x ∈ preprocess points ↔ x ∈ points) ∧
  (length (preprocess points) ≤ length points)%nat.
Proof. apply preprocess_props. Qed.

(** C5. The order in which the Python set is enumerated, and the sort
    used, do not matter: sorting any duplicate-free enumeration [s] of the
    points with any implementation of [sorted] gives [preprocess points]. *)
Theorem preprocess_any_set_order (S1 S2 : PySorted) (s points : list Point) :
  NoDup s → same_points s points →
  @py_sorted S1 s = @preprocess S2 points.
Proof.
  intros Hnd Hsame. apply preprocess_canonical; [| intros x; by rewrite elem_of_py_sorted].
  apply Sorted_NoDup_strictly_sorted; [apply py_sorted_Sorted |].
  by rewrite py_sorted_Permutation.
Qed.

Example preprocess_any_set_order_witness :
  NoDup [(1, 2); (0, 5)] ∧ same_points [(1, 2); (0, 5)] [(0, 5); (1, 2); (0, 5)] ∧
  @py_sorted merge_sorted [(1, 2); (0, 5)] = @preprocess merge_sorted [(0, 5); (1, 2); (0, 5)].
Proof.
  assert (NoDup [(1, 2); (0, 5)]) as Hnd by (repeat constructor; set_solver).
  assert (same_points [(1, 2); (0, 5)] [(0, 5); (1, 2); (0, 5)]) as Hs
    by (intros x; set_solver).
  split_and!; [done | done |]. exact (preprocess_any_set_order _ _ _ _ Hnd Hs).
Defined.
