(* ===== verification/Chain.v ===== *)
(** * The chain builder: the monotone stack scan

    convexhull.py lines 51-63:
<<
    lower = []
    for p in points:
        while len(lower) >= 2 and cross(lower[-2], lower[-1], p) <= 0:
            lower.pop()
        lower.append(p)
>>
    and the same loop over [reversed(points)] for [upper].  The Python
    list is a stack.  [scan] keeps it as a Rocq list whose head is the
    top [lower[-1]]; the Python list is [build_chain pts = reverse (scan pts)].

    The main result, [chain_correct], holds for a strictly increasing
    input.  The chain is a subsequence of the input that keeps its first and
    last points.  Every consecutive triple of the chain turns strictly
    counter-clockwise.  Every input point lies on or left of every chain
    edge.  [build_chain_neg] transports the result to the decreasing input
    of the [upper] scan.  The proofs use the invariant [scan_inv] of the
    [for] loop and the invariant of the [while] loop in
    [pop_while_left_after]. *)

From S2P Require Import Prelude Geometry.

Open Scope Z_scope.

(** ** The model *)

(** [while len(lower) >= 2 and cross(lower[-2], lower[-1], p) <= 0:
    lower.pop()], on the stack [top :: below :: _] where [top] is
    [lower[-1]] and [below] is [lower[-2]]. *)
Fixpoint pop_while (p : Point) (st : list Point) : list Point :=
  match st with
  | top :: ((below :: _) as rest) =>
      if decide (cross below top p ≤ 0) then pop_while p rest else st
  | _ => st
  end.

(** One iteration of the [for] loop: the [while] loop, then
    [lower.append(p)]. *)
Definition scan_step (st : list Point) (p : Point) : list Point :=
  p :: pop_while p st.

(** [lower = []] followed by the [for] loop, as a stack. *)
Definition scan (pts : list Point) : list Point := foldl scan_step [] pts.

(** The Python list [lower] (or [upper]) after the loop. *)
Definition build_chain (pts : list Point) : list Point := reverse (scan pts).

(** ** The [while] loop *)

Lemma pop_while_cons2 p top below st :
  pop_while p (top :: below :: st) =
  if decide (cross below top p ≤ 0) then pop_while p (below :: st)
  else top :: below :: st.
Proof. reflexivity. Qed.

Lemma pop_while_suffix p st : pop_while p st `suffix_of` st.
Proof.
  induction st as [|a [|b st] IH]; [done | done |].
  simpl. case_decide; [| done]. etrans; [exact IH | by apply suffix_cons_r].
Qed.

Lemma pop_while_nonempty p a st : ∃ b s, pop_while p (a :: st) = b :: s.
Proof.
  revert a. induction st as [|b st IH]; intros a; [by eexists _, _ |].
  simpl. case_decide; [apply IH | by eexists _, _].
Qed.

(** The bottom of the stack is never popped. *)
Lemma pop_while_last p st : last (pop_while p st) = last st.
Proof.
  induction st as [|a [|b st] IH]; [done | done |].
  rewrite pop_while_cons2. case_decide; [| done]. rewrite IH. done.
Qed.

(** When the loop stops with two or more elements, the top two and [p]
    make a strict left turn. *)
Lemma pop_while_stop p st top below s :
  pop_while p st = top :: below :: s → 0 < cross below top p.
Proof.
  induction st as [|a [|b st] IH]; [done | done |].
  simpl. case_decide as Hc; [exact IH |]. intros [= -> -> ->]. lia.
Qed.

(** Reflection through the origin commutes with the loops, since it keeps
    [cross]. *)
Lemma pop_while_neg p st : pop_while (neg p) (neg <$> st) = neg <$> pop_while p st.
Proof.
  induction st as [|a [|b st] IH]; [done | done |].
  rewrite !fmap_cons, !pop_while_cons2, cross_neg.
  case_decide; [exact IH | by rewrite !fmap_cons].
Qed.

Lemma scan_neg pts : scan (neg <$> pts) = neg <$> scan pts.
Proof.
  unfold scan. change (@nil Point) with (neg <$> @nil Point) at 1.
  generalize (@nil Point) as st.
  induction pts as [|p pts IH]; intros st; [done |].
  cbn [fmap list_fmap foldl]. rewrite <- IH. unfold scan_step.
  by rewrite pop_while_neg.
Qed.

Lemma build_chain_neg pts : build_chain (neg <$> pts) = neg <$> build_chain pts.
Proof. unfold build_chain. by rewrite scan_neg, fmap_reverse. Qed.

(** ** The loop invariant *)

(** Every consecutive triple of the stack, read bottom to top, turns left. *)
Definition stack_convex (st : list Point) : Prop :=
  ∀ c b a, (c, b, a) ∈ triples st → 0 < cross a b c.

(** [q] lies on or left of every edge of the stack, read bottom to top. *)
Definition stack_supports (st : list Point) (q : Point) : Prop :=
  ∀ b a, (b, a) ∈ edges st → 0 ≤ cross a b q.

(** The invariant of the [for] loop after the points [P] were scanned. *)
Record scan_inv (P st : list Point) : Prop := {
  inv_sublist : reverse st `sublist_of` P;
  inv_top : last P = head st;
  inv_bottom : head P = last st;
  inv_convex : stack_convex st;
  inv_support : ∀ q, q ∈ P → stack_supports st q
}.

Lemma stack_convex_suffix s st : s `suffix_of` st → stack_convex st → stack_convex s.
Proof. intros Hs H c b a Ht. apply H. by eapply elem_of_triples_suffix. Qed.

Lemma stack_supports_suffix s st q :
  s `suffix_of` st → stack_supports st q → stack_supports s q.
Proof. intros Hs H b a He. apply H. by eapply elem_of_edges_suffix. Qed.

Lemma inv_descending P st : strictly_sorted P → scan_inv P st → descending st.
Proof.
  intros HP Hinv. rewrite <- (reverse_involutive st), descending_reverse.
  eapply strictly_sorted_sublist; [apply Hinv | done].
Qed.

Lemma descending_suffix s st : s `suffix_of` st → descending st → descending s.
Proof.
  intros [k ->]. unfold descending. induction k as [|x k IH]; [done |].
  intros Hs. apply IH. by apply StronglySorted_cons in Hs as [_ ?].
Qed.

(** The new point [p], right of every point of a convex stack whose top
    edge turns left towards [p], lies strictly left of every edge. *)
Lemma stack_supports_new p a s :
  descending (a :: s) → stack_convex (a :: s) → a ≺ p →
  (∀ b s', s = b :: s' → 0 < cross b a p) →
  stack_supports (a :: s) p.
Proof.
  revert a. induction s as [|b s IH]; intros a Hd Hc Hap Hstop y x He;
    [by apply elem_of_nil in He |].
  apply descending_cons2 in Hd as [Hba Hd].
  edge_cases He; [specialize (Hstop b s eq_refl); lia |].
  apply (IH b); [done | | by etrans | | done].
  - eapply stack_convex_suffix; [by apply suffix_cons_r | exact Hc].
  - intros c s' ->. apply descending_cons2 in Hd as [Hcb _].
    apply (ccw_extend c b a p); [done | done | by apply lex_lt_le | | by apply (Hstop b (c :: s'))].
    apply Hc. by left.
Qed.

(** The invariant of the [while] loop: every scanned point [q] from the
    top of the stack onwards lies on or left of the edge [top -> p].  It
    holds before the loop, when [top] is the last scanned point, and each
    pop keeps it. *)
Lemma pop_while_left_after (P : list Point) (p a : Point) (st : list Point) :
  (∀ q, q ∈ P → q ≺ p) → descending (a :: st) → (∀ x, x ∈ a :: st → x ≺ p) →
  (∀ q, q ∈ P → stack_supports (a :: st) q) →
  (∀ q, q ∈ P → a ⪯ q → 0 ≤ cross a p q) →
  ∀ a' s, pop_while p (a :: st) = a' :: s →
  ∀ q, q ∈ P → a' ⪯ q → 0 ≤ cross a' p q.
Proof.
  revert a. induction st as [|b st IH]; intros a HP Hd Hlt Hsup Hleft a' s Hpop;
    [simpl in Hpop; by injection Hpop as <- _ |].
  rewrite pop_while_cons2 in Hpop. case_decide as Hc; [| by injection Hpop as <- _].
  apply descending_cons2 in Hd as [Hba Hd].
  refine (IH b HP Hd _ _ _ a' s Hpop).
  - intros x Hx. apply Hlt. by right.
  - intros q Hq. eapply stack_supports_suffix; [by apply suffix_cons_r | by apply Hsup].
  - intros q Hq Hbq. assert (a ≺ p) as Hap by (apply Hlt; by left).
    assert (0 ≤ cross b a q) by (apply (Hsup q Hq a b); by left).
    destruct (decide (q ≺ a)) as [Hqa | Hqa].
    + by apply (left_of_new_edge_between b a p q).
    + apply (left_of_new_edge_after b a p q); auto with hull.
Qed.

(** The edge [top -> p] pushed by one iteration: every scanned point lies
    on or left of it. *)
Lemma scan_step_new_edge P p a st a' s :
  strictly_sorted P → (∀ q, q ∈ P → q ≺ p) → scan_inv P (a :: st) →
  pop_while p (a :: st) = a' :: s →
  ∀ q, q ∈ P → 0 ≤ cross a' p q.
Proof.
  intros HP Hlt Hinv Hpop q Hq.
  pose proof (inv_descending _ _ HP Hinv) as Hd.
  assert (∀ x, x ∈ a :: st → x ∈ P) as Hin.
  { intros x Hx. eapply elem_of_sublist; [| apply Hinv]. by apply elem_of_reverse. }
  assert (pop_while p (a :: st) `suffix_of` a :: st) as Hsuf by apply pop_while_suffix.
  rewrite Hpop in Hsuf.
  assert (a' ≺ p) as Hap by (apply Hlt, Hin; eapply elem_of_suffix; [by left | done]).
  destruct (decide (q ≺ a')) as [Hqa | Hqa%lex_not_lt_le].
  - destruct s as [|b s].
    + (* only the bottom is left: it is the first scanned point *)
      exfalso. pose proof (pop_while_last p (a :: st)) as Hl.
      rewrite Hpop, <- (inv_bottom _ _ Hinv) in Hl.
      pose proof (strictly_sorted_head_min _ _ _ HP (eq_sym Hl) Hq). geo.
    + apply (left_of_new_edge_before b a' p q); auto with hull.
      * apply (descending_cons2 a' b s). by eapply descending_suffix.
      * apply (inv_support _ _ Hinv q Hq a' b). eapply elem_of_edges_suffix; [done | by left].
      * by eapply pop_while_stop.
  - refine (pop_while_left_after P p a st Hlt Hd _ (inv_support _ _ Hinv) _ a' s Hpop q Hq Hqa).
    + intros x Hx. by apply Hlt, Hin.
    + intros q' Hq' Haq'. assert (q' ⪯ a) by (eapply strictly_sorted_last_max; [done | apply Hinv | done]).
      assert (q' = a) as -> by (by apply (anti_symm lex_le)). rewrite cross_same_o. lia.
Qed.

(** One iteration of the [for] loop keeps the invariant. *)
Lemma scan_step_inv P st p :
  strictly_sorted (P ++ [p]) → scan_inv P st → scan_inv (P ++ [p]) (scan_step st p).
Proof.
  intros [HP Hlt]%strictly_sorted_snoc Hinv. unfold scan_step.
  destruct st as [|a st].
  { pose proof (inv_top _ _ Hinv) as Ht. apply last_None in Ht as ->.
    split; [done | done | done | intros ??? []%elem_of_nil | intros q _ ?? []%elem_of_nil]. }
  pose proof (inv_descending _ _ HP Hinv) as Hd.
  assert (pop_while p (a :: st) `suffix_of` a :: st) as Hsuf by apply pop_while_suffix.
  destruct (pop_while_nonempty p a st) as (a' & s & Hpop). rewrite Hpop in Hsuf |- *.
  assert (a ∈ P) as HaP.
  { apply last_Some_elem_of. rewrite (inv_top _ _ Hinv). done. }
  assert (a' ≺ p) as Hap.
  { apply Hlt. eapply elem_of_sublist; [| apply Hinv].
    apply elem_of_reverse. eapply elem_of_suffix; [by left | done]. }
  pose proof (descending_suffix _ _ Hsuf Hd) as Hd'.
  pose proof (stack_convex_suffix _ _ Hsuf (inv_convex _ _ Hinv)) as Hc'.
  assert (∀ b s', s = b :: s' → 0 < cross b a' p) as Hstop.
  { intros b s' ->. by eapply pop_while_stop. }
  split.
  - rewrite reverse_cons. apply sublist_app; [| done].
    etrans; [by apply suffix_reverse_sublist | apply Hinv].
  - by rewrite last_snoc.
  - rewrite head_snoc, (inv_bottom _ _ Hinv), <- (pop_while_last p), Hpop.
    rewrite last_cons_cons. destruct (last (a' :: s)) eqn:E; [done |].
    by apply last_None in E.
  - intros c b0 a0 Ht. destruct s as [|b s]; [by apply elem_of_nil in Ht |].
    rewrite triples_cons3, elem_of_cons in Ht.
    destruct Ht as [[= -> -> ->] | Ht]; [by apply (Hstop b s) | by apply Hc'].
  - intros q [Hq | ->%list_elem_of_singleton]%elem_of_app y x He; edge_cases He.
    + eapply scan_step_new_edge; [exact HP | exact Hlt | exact Hinv | exact Hpop | done].
    + eapply stack_supports_suffix; [exact Hsuf | | exact He]. by apply Hinv.
    + rewrite cross_same_r. lia.
    + by apply (stack_supports_new p a' s).
Qed.

(** The invariant after the whole loop. *)
Lemma scan_inv_scan P : strictly_sorted P → scan_inv P (scan P).
Proof.
  induction P as [|p P IH] using rev_ind; intros HP.
  - split; [done | done | done | intros ??? []%elem_of_nil | intros ? []%elem_of_nil].
  - unfold scan. rewrite foldl_snoc. apply scan_step_inv; [done |].
    apply IH. by apply strictly_sorted_snoc in HP as [].
Qed.

(** ** The contract of the chain builder *)

(** What the assembler relies on: the chain [c] built from the points
    [pts] is a subsequence of [pts] with the same first and last point,
    turns strictly left at every vertex, and has every point of [pts] on
    or left of every edge. *)
Record monotone_chain (pts c : list Point) : Prop := {
  mc_sublist : c `sublist_of` pts;
  mc_head : head c = head pts;
  mc_last : last c = last pts;
  mc_convex : ∀ a b d, (a, b, d) ∈ triples c → 0 < cross a b d;
  mc_supports : ∀ q, q ∈ pts → ∀ a b, (a, b) ∈ edges c → 0 ≤ cross a b q
}.

Lemma monotone_chain_neg pts c :
  monotone_chain pts c → monotone_chain (neg <$> pts) (neg <$> c).
Proof.
  intros [Hsub Hh Hl Hc Hs]. split.
  - by apply sublist_fmap.
  - rewrite !fmap_head. by f_equal.
  - rewrite !fmap_last. by f_equal.
  - intros a b d. rewrite fmap_triples, list_elem_of_fmap.
    intros [[[a0 b0] d0] [[= -> -> ->] Ht]]. rewrite cross_neg. by apply Hc.
  - intros q. rewrite list_elem_of_fmap. intros [q0 [-> Hq]] a b.
    rewrite fmap_edges, list_elem_of_fmap. intros [[a0 b0] [[= -> ->] He]].
    rewrite cross_neg. by apply Hs.
Qed.

Lemma fmap_neg_involutive (l : list Point) : neg <$> (neg <$> l) = l.
Proof. induction l as [|x l IH]; [done |]. rewrite !fmap_cons, IH, neg_involutive. done. Qed.

(** ** Correctness of the scan *)

Lemma build_chain_lower pts :
  strictly_sorted pts → monotone_chain pts (build_chain pts).
Proof.
  intros Hs. pose proof (scan_inv_scan pts Hs) as Hinv. unfold build_chain. split.
  - apply Hinv.
  - rewrite head_reverse. symmetry. apply Hinv.
  - rewrite last_reverse. symmetry. apply Hinv.
  - intros a b d Ht. rewrite elem_of_triples_reverse in Ht. exact (inv_convex _ _ Hinv d b a Ht).
  - intros q Hq a b He. rewrite elem_of_edges_reverse in He. exact (inv_support _ _ Hinv q Hq b a He).
Qed.

(** C6. The scan over a strictly increasing list (the loop that builds
    [lower]) meets the chain contract: the Python list [lower] is a
    subsequence of the points with the same first and last point, turns
    strictly counter-clockwise at each of its vertices (collinear points
    are dropped), and has every point on or left of each of its edges. *)
Theorem build_chain_increasing pts :
  strictly_sorted pts → monotone_chain pts (build_chain pts).
Proof. apply build_chain_lower. Qed.

Lemma build_chain_upper pts :
  descending pts → monotone_chain pts (build_chain pts).
Proof.
  intros Hd. rewrite <- (fmap_neg_involutive pts), build_chain_neg.
  apply monotone_chain_neg, build_chain_lower. by apply strictly_sorted_neg.
Qed.

(** C7. The scan over a strictly decreasing list (the loop that builds
    [upper] over [reversed(points)]) meets the same contract: reflect the points
    through the origin, scan, and reflect back. *)
Theorem build_chain_decreasing pts :
  descending pts → monotone_chain pts (build_chain pts).
Proof. apply build_chain_upper. Qed.

(** ** Interior vertices of a chain *)

(** Along a strictly increasing convex chain [b :: rest], the turns seen
    from a point [c0] left of it stay counter-clockwise. *)
Lemma convex_fan_edges c0 b rest :
  c0 ≺ b → strictly_sorted (b :: rest) →
  (∀ x y z, (x, y, z) ∈ triples (b :: rest) → 0 < cross x y z) →
  (∀ c rest', rest = c :: rest' → 0 < cross c0 b c) →
  ∀ x y, (x, y) ∈ edges (b :: rest) → 0 < cross c0 x y.
Proof.
  revert b. induction rest as [|c rest IH]; intros b Hb Hs Ht Hfirst x y He;
    [by apply elem_of_nil in He |].
  apply StronglySorted_cons in Hs as [Hbc Hs]. apply Forall_cons_1 in Hbc as [Hbc _].
  edge_cases He; [by apply (Hfirst c rest) |].
  apply (IH c); [by etrans | done | | | done].
  - intros x' y' z' Ht'. apply Ht. destruct rest; [by apply elem_of_nil in Ht' | by right].
  - intros d rest' ->. apply StronglySorted_cons in Hs as [Hcd _].
    apply Forall_cons_1 in Hcd as [Hcd _].
    apply (ccw_shift c0 b c d); [done | done | done | by apply (Hfirst c (d :: rest')) | ].
    apply Ht. by left.
Qed.

(** Seen from [c0], the vertices of such a chain are in counter-clockwise
    order. *)
Lemma convex_fan c0 l :
  strictly_sorted l → (∀ x, x ∈ l → c0 ≺ x) →
  (∀ x y, (x, y) ∈ edges l → 0 < cross c0 x y) →
  ∀ x y, x ∈ l → y ∈ l → x ≺ y → 0 < cross c0 x y.
Proof.
  induction l as [|a l IH]; intros Hs Hc0 He x y Hx Hy Hxy; [by apply elem_of_nil in Hx |].
  apply StronglySorted_cons in Hs as [Ha Hs]. rewrite Forall_forall in Ha.
  assert (∀ x y, (x, y) ∈ edges l → 0 < cross c0 x y) as He'.
  { intros x' y' Hxy'. apply He. destruct l; [by apply elem_of_nil in Hxy' | by right]. }
  assert (∀ x, x ∈ l → c0 ≺ x) as Hc0' by (intros; apply Hc0; by right).
  apply elem_of_cons in Hx as [-> | Hx]; apply elem_of_cons in Hy as [-> | Hy].
  - by destruct (irreflexivity lex_lt a).
  - destruct l as [|b l]; [by apply elem_of_nil in Hy |].
    assert (0 < cross c0 a b) as Hab by (apply He; by left).
    apply elem_of_cons in Hy as [-> | Hy]; [done |].
    apply (ccw_fan_trans c0 a b y); [by apply Hc0; left | by apply Hc0'; left | by apply Hc0'; right | done |].
    apply IH; [done | done | done | by left | by right | ].
    apply StronglySorted_cons in Hs as [Hb _]. rewrite Forall_forall in Hb. by apply Hb.
  - destruct (lex_lt_asym _ _ Hxy). by apply lex_lt_le, Ha.
  - by apply IH.
Qed.

(** Every vertex of a chain other than its ends lies strictly on the left
    side of the path [lo -> x -> hi]: strictly right of the chord
    [lo -> hi].  This holds for both scan directions. *)
Lemma chain_interior_increasing pts c lo hi x :
  strictly_sorted pts → monotone_chain pts c → head c = Some lo → last c = Some hi →
  x ∈ c → x ≠ lo → x ≠ hi → 0 < cross lo x hi.
Proof.
  intros Hs Hc Hlo Hhi Hx Hxlo Hxhi.
  assert (strictly_sorted c) as Hcs by (eapply strictly_sorted_sublist; [apply Hc | done]).
  destruct c as [|c0 rest]; [done |]. injection Hlo as ->.
  apply elem_of_cons in Hx as [-> | Hx]; [done |].
  assert (hi ∈ rest) as Hhir.
  { pose proof (last_Some_elem_of _ _ Hhi) as Hh. apply elem_of_cons in Hh as [-> | ?]; [| done].
    destruct rest as [|r rest]; [by apply elem_of_nil in Hx |].
    apply StronglySorted_cons in Hcs as [Hr _]. rewrite Forall_forall in Hr.
    rewrite last_cons_cons in Hhi. apply last_Some_elem_of in Hhi.
    destruct (irreflexivity lex_lt lo). by apply Hr. }
  pose proof Hcs as Hcs'. apply StronglySorted_cons in Hcs' as [Hlt Hrest].
  rewrite Forall_forall in Hlt.
  apply (convex_fan lo rest); [done | done | | done | done |].
  - destruct rest as [|b rest]; [by apply elem_of_nil in Hx |].
    apply convex_fan_edges; [by apply Hlt; left | done | | ].
    + intros x' y' z' Ht. apply (mc_convex _ _ Hc).
      destruct rest; [by apply elem_of_nil in Ht | by right].
    + intros c' rest' ->. apply (mc_convex _ _ Hc). by left.
  - apply lex_le_lt_ne; [| done].
    eapply strictly_sorted_last_max; [exact Hrest | | exact Hx].
    destruct rest as [|r rest]; [by apply elem_of_nil in Hx | by rewrite last_cons_cons in Hhi].
Qed.

Lemma chain_interior_decreasing pts c lo hi x :
  descending pts → monotone_chain pts c → head c = Some lo → last c = Some hi →
  x ∈ c → x ≠ lo → x ≠ hi → 0 < cross lo x hi.
Proof.
  intros Hd Hc Hlo Hhi Hx Hxlo Hxhi. rewrite <- cross_neg.
  apply (chain_interior_increasing (neg <$> pts) (neg <$> c)).
  - by apply strictly_sorted_neg.
  - by apply monotone_chain_neg.
  - by rewrite fmap_head, Hlo.
  - by rewrite fmap_last, Hhi.
  - by apply list_elem_of_fmap_2.
  - by intros ?%(inj neg).
  - by intros ?%(inj neg).
Qed.

Example build_chain_increasing_witness :
  strictly_sorted [(0, 0); (1, 1); (2, 0); (3, 3)] ∧
  monotone_chain [(0, 0); (1, 1); (2, 0); (3, 3)] (build_chain [(0, 0); (1, 1); (2, 0); (3, 3)]).
Proof.
  assert (strictly_sorted [(0, 0); (1, 1); (2, 0); (3, 3)]) as Hs
    by (repeat constructor; unfold lex_lt; simpl; lia).
  split; [exact Hs | exact (build_chain_increasing _ Hs)].
Defined.

Example build_chain_decreasing_witness :
  descending [(3, 3); (2, 0); (1, 1); (0, 0)] ∧
  monotone_chain [(3, 3); (2, 0); (1, 1); (0, 0)] (build_chain [(3, 3); (2, 0); (1, 1); (0, 0)]).
Proof.
  assert (descending [(3, 3); (2, 0); (1, 1); (0, 0)]) as Hd
    by (repeat constructor; unfold lex_lt; simpl; lia).
  split; [exact Hd | exact (build_chain_decreasing _ Hd)].
Defined.
