(* ===== verification/ChainLoop.v ===== *)
(** * The chain loops as Python runs them

    [Chain] models the [lower] loop of convexhull.py (lines 52-56) on a
    stack whose head is [lower[-1]], with the [while] loop as structural
    recursion.  This file follows the code more literally: [lower] is the
    Python list, its guard [len(lower) >= 2 and cross(lower[-2],
    lower[-1], p) <= 0] reads [lower] by index from the end, [lower.pop()]
    drops the last element, [lower.append(p)] adds one, and the [while]
    loop is Python's [while], the fuel-bounded [py_while] of [Prelude],
    which counts how often its body runs.  The theorems show that the
    [while] loop always stops, that the Python loops compute exactly
    [build_chain], and that the whole scan pops at most once per point:
    the pops and the length of the chain add up to the number of points,
    the amortised bound that makes the algorithm linear after sorting.
    The [upper] loop (lines 59-63) is the same loop on [reversed(points)]. *)

From S2P Require Import Prelude Geometry Chain.

Open Scope Z_scope.

(** ** The loops *)

(** [len(lower) >= 2 and cross(lower[-2], lower[-1], p) <= 0]; Python's
    [and] does not index [lower] when the length test fails. *)
Definition while_cond (p : Point) (lower : list Point) : bool :=
  (2 <=? length lower)%nat &&
  match lower !! (length lower - 2)%nat, lower !! (length lower - 1)%nat with
  | Some o, Some a => bool_decide (cross o a p ≤ 0)
  | _, _ => false
  end.

(** [while ...: lower.pop()], with [fuel] tests of the guard:
    [lower.pop()] removes the last element, [drop_last]. *)
Definition while_loop (fuel : nat) (p : Point) (lower : list Point) : option (list Point * nat) :=
  py_while fuel (while_cond p) drop_last lower.

(** [for p in points: (while loop); lower.append(p)], from [lower]; it
    returns [lower] and the number of pops of all the [while] loops. *)
Fixpoint for_loop (fuel : nat) (points lower : list Point) : option (list Point * nat) :=
  match points with
  | [] => Some (lower, 0%nat)
  | p :: points =>
      '(lower, k) ← while_loop fuel p lower;
      '(lower, k') ← for_loop fuel points (lower ++ [p]);
      Some (lower, (k + k')%nat)
  end.

(** [lower = []] and the loop.  [lower] never holds more than
    [len(points)] elements, so [len(points) + 1] tests bound every
    [while] loop. *)
Definition chain_loop (points : list Point) : option (list Point * nat) :=
  for_loop (S (length points)) points [].

(** ** The guard and the pop on the stack *)

Lemma while_cond_reverse p st :
  while_cond p (reverse st) =
  match st with top :: below :: _ => bool_decide (cross below top p ≤ 0) | _ => false end.
Proof.
  destruct st as [|top [|below st]]; [done | done |]. unfold while_cond.
  rewrite !reverse_cons, <- app_assoc, length_app. simpl.
  replace (length (reverse st) + 2)%nat with (S (S (length (reverse st)))) by lia. simpl.
  rewrite Nat.sub_0_r, list_lookup_middle by done.
  rewrite lookup_app_r by lia.
  by replace (S (length (reverse st)) - length (reverse st))%nat with 1%nat by lia.
Qed.

Lemma drop_last_reverse (top : Point) st : (reverse (top :: st)).[:-1] = reverse st.
Proof. by rewrite reverse_cons, drop_last_snoc. Qed.

Lemma length_pop_while p st : (length (pop_while p st) ≤ length st)%nat.
Proof. apply suffix_length, pop_while_suffix. Qed.

(** The Python [while] loop on the list [reverse st] is [pop_while] on
    the stack [st], and pops the elements [pop_while] drops. *)
Lemma while_loop_reverse fuel p st :
  (length st < fuel)%nat →
  while_loop fuel p (reverse st) =
    Some (reverse (pop_while p st), (length st - length (pop_while p st))%nat).
Proof.
  unfold while_loop. revert st. induction fuel as [|fuel IH]; intros st Hst; [lia |].
  simpl. rewrite while_cond_reverse.
  destruct st as [|top [|below st]]; [by simpl | by simpl |].
  rewrite pop_while_cons2. case_bool_decide as Hc.
  2: { rewrite decide_False by done. simpl. do 2 f_equal. lia. }
  rewrite decide_True, drop_last_reverse, IH by (simpl in *; lia). simpl.
  pose proof (length_pop_while p (below :: st)). simpl in *. f_equal. f_equal. lia.
Qed.

(** The [for] loop from [reverse st] is the fold of [scan_step] from the
    stack [st]; pops and the final length add up to the elements pushed. *)
Lemma for_loop_reverse fuel ps st :
  (length st + length ps < fuel)%nat →
  ∃ k, for_loop fuel ps (reverse st) = Some (reverse (foldl scan_step st ps), k) ∧
    (k + length (foldl scan_step st ps) = length st + length ps)%nat.
Proof.
  revert st. induction ps as [|p ps IH]; intros st Hst; simpl.
  - exists 0%nat. split; [done | lia].
  - rewrite while_loop_reverse by lia. simpl.
    pose proof (length_pop_while p st).
    destruct (IH (p :: pop_while p st)) as (k' & Hfor & Hk); [simpl in *; lia |].
    rewrite reverse_cons in Hfor. unfold scan_step at 1. rewrite Hfor. simpl.
    eexists. split; [done |]. change (scan_step st p) with (p :: pop_while p st).
    cbn [length] in Hk. lia.
Qed.

(** The guard holds only on lists of two or more elements, and the pop
    then removes exactly one. *)
Lemma while_cond_length p lower :
  while_cond p lower = true → S (length lower.[:-1]) = length lower.
Proof.
  unfold while_cond. intros [Hl%Nat.leb_le _]%andb_prop. rewrite length_drop_last. lia.
Qed.

(** ** Properties *)

(** C30. The [while] loop on every list [lower], given [len(lower) + 1]
    tests of its guard, stops, and computes what [pop_while] computes on
    the stack [reverse lower] (whose head is [lower[-1]]): it pops while
    [lower[-2]], [lower[-1]], [p] do not turn strictly left, never below
    one element.  The guard is false where it stops, and the pops and
    the final length add up to [len(lower)]. *)
Theorem while_loop_terminates p lower :
  ∃ k, while_loop (S (length lower)) p lower = Some (reverse (pop_while p (reverse lower)), k) ∧
    while_cond p (reverse (pop_while p (reverse lower))) = false ∧
    (k + length (pop_while p (reverse lower)) = length lower)%nat.
Proof.
  destruct (py_while_terminates (while_cond p) drop_last length)
    with (fuel := S (length lower)) (s := lower) as (lower' & k & Hrun & Hc & _);
    [intros ??%while_cond_length; lia | lia |].
  pose proof (while_loop_reverse (S (length lower)) p (reverse lower)) as Hrev.
  rewrite reverse_involutive in Hrev. specialize (Hrev ltac:(rewrite length_reverse; lia)).
  unfold while_loop in Hrev. rewrite Hrun in Hrev. injection Hrev as -> _.
  eexists. split_and!; [unfold while_loop; exact Hrun | exact Hc |].
  apply (py_while_count (while_cond p) drop_last length) in Hrun; [| intros ??%while_cond_length; lia].
  rewrite length_reverse in Hrun. pose proof (length_pop_while p (reverse lower)).
  rewrite length_reverse in *. lia.
Qed.

(** C31. The Python loops compute the chain: [lower = []] followed by the
    [for] loop with its [while] loop, given [len(points) + 1] tests per
    [while] loop, returns exactly [build_chain points], and the pops of
    all the [while] loops and the length of the chain add up to the
    number of points: each point is appended once and popped at most
    once, so the scan does at most [len(points)] pops in all. *)
Theorem chain_loop_build_chain points :
  ∃ pops, chain_loop points = Some (build_chain points, pops) ∧
    (pops + length (build_chain points) = length points)%nat.
Proof.
  destruct (for_loop_reverse (S (length points)) points []) as (k & Hrun & Hk); [simpl; lia |].
  exists k. unfold chain_loop, build_chain, scan. rewrite length_reverse. done.
Qed.
