(* ===== verification/Hull.v ===== *)
(** * The hull engine: [convex_hull], convexhull.py lines 26-67

    [convex_hull] composes the stages: the preprocessor [preprocess], the
    degenerate case, the two scans of [Chain], and the assembler
    [lower[:-1] + upper[:-1]].  [is_convex_hull] is the abstract
    specification of the result (the spec's Hull, sections 3 and 8), and
    [convex_hull_refines] proves that [convex_hull] meets it for every
    implementation of Python's [sorted].  The Section [Polygon] proves the
    assembler's part once, from hypotheses on the two chains: the chains
    meet at the leftmost and rightmost points, and their interior vertices
    lie strictly on opposite sides of the line through these points. *)

From S2P Require Import Prelude Geometry Preprocess Chain.

Open Scope Z_scope.

(** ** The model *)

Section ConvexHull.
Context `{PySorted}.

Definition convex_hull (points : list Point) : list Point :=
  let pts := preprocess points in
  if decide (length pts ≤ 1)%nat then pts
  else
    let lower := build_chain pts in
    let upper := build_chain (reverse pts) in
    lower.[:-1] ++ upper.[:-1].

End ConvexHull.

(** ** The abstract specification *)

(** [h] is the convex hull of [points], as the spec describes it: its
    vertices are input points without repetition, it starts at the
    lexicographically smallest point and contains the largest one, every
    input point lies on or inside it (on or left of every edge of the
    closed polygon), and with three or more vertices it turns strictly
    counter-clockwise at every vertex. *)
Record is_convex_hull (points h : list Point) : Prop := {
  hull_subset : ∀ x, x ∈ h → x ∈ points;
  hull_nodup : NoDup h;
  hull_start : ∀ m, m ∈ points → (∀ q, q ∈ points → m ⪯ q) → head h = Some m;
  hull_max : ∀ m, m ∈ points → (∀ q, q ∈ points → q ⪯ m) → m ∈ h;
  hull_contains : ∀ q, q ∈ points → ∀ a b, (a, b) ∈ cyclic_edges h → 0 ≤ cross a b q;
  hull_convex : (3 ≤ length h)%nat → ∀ a b c, (a, b, c) ∈ cyclic_triples h → 0 < cross a b c
}.

(** ** The assembler *)

(** The polygon [lo :: M ++ hi :: N] closed by the two chains
    [lo :: M ++ [hi]] (lower) and [hi :: N ++ [lo]] (upper). *)
Section Polygon.
Variables (lo hi : Point) (M N : list Point).
Hypothesis Hlohi : lo ≺ hi.
Hypothesis HM : ∀ m, m ∈ M → lo ≺ m ∧ m ≺ hi ∧ cross lo hi m < 0.
Hypothesis HN : ∀ n, n ∈ N → lo ≺ n ∧ n ≺ hi ∧ 0 < cross lo hi n.

Lemma polygon_nodup : NoDup M → NoDup N → NoDup (lo :: M ++ hi :: N).
Proof.
  intros HMd HNd. constructor.
  - rewrite elem_of_app, elem_of_cons.
    intros [Hm | [<- | Hn]]; [apply HM in Hm as [? _] | | apply HN in Hn as [? _]]; lex_irrefl.
  - apply NoDup_app. split_and!; [done | | constructor; [| done]].
    + intros x Hx [-> | Hn]%elem_of_cons; apply HM in Hx as (? & ? & ?); [lex_irrefl |].
      apply HN in Hn as (? & ? & ?). lia.
    + intros Hn. apply HN in Hn as (_ & ? & _). lex_irrefl.
Qed.

(** The turn at [hi], from the last lower vertex [x] to the first upper
    vertex [n1] after [hi]. *)
Lemma polygon_junction_hi x n1 :
  x ∈ lo :: M → n1 ∈ lo :: N → ¬ (x = lo ∧ n1 = lo) → 0 < cross x hi n1.
Proof.
  intros [-> | Hx]%elem_of_cons [-> | Hn]%elem_of_cons Hne.
  - by destruct Hne.
  - by apply HN in Hn as (_ & _ & ?).
  - apply HM in Hx as (_ & _ & ?). rewrite (cross_cycle x), (cross_cycle hi), cross_swap. lia.
  - apply HM in Hx as (? & ? & ?). apply HN in Hn as (? & ? & ?).
    by apply (ccw_junction lo hi x n1).
Qed.

(** The turn at [lo], from the last upper vertex [u] to the first lower
    vertex [y] after [lo]. *)
Lemma polygon_junction_lo u y :
  u ∈ hi :: N → y ∈ hi :: M → ¬ (u = hi ∧ y = hi) → 0 < cross u lo y.
Proof.
  intros [-> | Hu]%elem_of_cons [-> | Hy]%elem_of_cons Hne.
  - by destruct Hne.
  - apply HM in Hy as (_ & _ & ?). rewrite (cross_cycle hi), cross_swap. lia.
  - apply HN in Hu as (_ & _ & ?). by rewrite (cross_cycle u).
  - apply HN in Hu as (? & ? & ?). apply HM in Hy as (? & ? & ?).
    by apply (ccw_junction_low lo hi u y).
Qed.

Hypothesis HLc : ∀ a b c, (a, b, c) ∈ triples (lo :: M ++ [hi]) → 0 < cross a b c.
Hypothesis HUc : ∀ a b c, (a, b, c) ∈ triples (hi :: N ++ [lo]) → 0 < cross a b c.

(** With three or more vertices, the polygon turns strictly left at every
    vertex. *)
Lemma polygon_convex :
  (3 ≤ length (lo :: M ++ hi :: N))%nat →
  ∀ a b c, (a, b, c) ∈ cyclic_triples (lo :: M ++ hi :: N) → 0 < cross a b c.
Proof.
  intros Hlen a b c Ht.
  assert (M = [] → N = [] → False) as Hne
    by (intros -> ->; simpl in Hlen; lia).
  apply elem_of_cyclic_triples_join in Ht
    as [Ht | [Ht | [(x & n1 & [= -> -> ->] & Hx & Hn1) | (u & y & [= -> -> ->] & Hu & Hy)]]].
  - by apply HLc.
  - by apply HUc.
  - apply last_cons_cases in Hx. apply head_app_cases in Hn1.
    apply polygon_junction_hi; [set_solver | set_solver |].
    intros [-> ->]. destruct Hx as [[_ ?] | Hx]; [| apply HM in Hx as [? _]; lex_irrefl].
    destruct Hn1 as [[_ ?] | Hn]; [by apply Hne | apply HN in Hn as [? _]; lex_irrefl].
  - apply last_cons_cases in Hu. apply head_app_cases in Hy.
    apply polygon_junction_lo; [set_solver | set_solver |].
    intros [-> ->]. destruct Hu as [[_ ?] | Hu]; [| apply HN in Hu as (_ & ? & _); lex_irrefl].
    destruct Hy as [[_ ?] | Hy]; [by apply Hne | apply HM in Hy as (_ & ? & _); lex_irrefl].
Qed.

End Polygon.

(** ** Scenarios of the spec (section 8), evaluated *)

Definition grid10 : list Point :=
  (λ i : nat, (Z.of_nat (i `div` 10), Z.of_nat (i `mod` 10))) <$> seq 0 100.

(** Known scenario (spec section 8): the 10 x 10 integer grid gives
    its four corners, counter-clockwise from [(0, 0)]. *)
Example convex_hull_grid :
  convex_hull grid10 = [(0, 0); (9, 0); (9, 9); (0, 9)].
Proof. vm_compute. reflexivity. Qed.

(** Square with an interior point: the four corners only,
    counter-clockwise from [(0, 0)]. *)
Example convex_hull_square :
  convex_hull [(0, 0); (0, 2); (2, 2); (2, 0); (1, 1)] = [(0, 0); (2, 0); (2, 2); (0, 2)].
Proof. vm_compute. reflexivity. Qed.

(** ** The two chains of a canonical sequence *)

(** For two or more points, [lower] runs from the leftmost point [lo] to
    the rightmost [hi] with its interior vertices strictly right of the
    line [lo -> hi]; [upper] runs back from [hi] to [lo] with its interior
    vertices strictly left of it. *)
Lemma hull_chains pts :
  strictly_sorted pts → (2 ≤ length pts)%nat →
  ∃ lo hi M N, head pts = Some lo ∧ last pts = Some hi ∧ lo ≺ hi ∧
    build_chain pts = lo :: M ++ [hi] ∧ build_chain (reverse pts) = hi :: N ++ [lo] ∧
    (∀ m, m ∈ M → lo ≺ m ∧ m ≺ hi ∧ cross lo hi m < 0) ∧
    (∀ n, n ∈ N → lo ≺ n ∧ n ≺ hi ∧ 0 < cross lo hi n).
Proof.
  intros Hs Hlen. destruct (strictly_sorted_ends pts Hs Hlen) as (lo & hi & Hlo & Hhi & Hlh).
  pose proof (build_chain_lower pts Hs) as HL.
  assert (descending (reverse pts)) as Hd by (by apply descending_reverse).
  pose proof (build_chain_upper _ Hd) as HU.
  destruct (head_last_shape (build_chain pts) lo hi) as [M HM].
  { by rewrite (mc_head _ _ HL). } { by rewrite (mc_last _ _ HL). } { by apply lex_lt_ne. }
  destruct (head_last_shape (build_chain (reverse pts)) hi lo) as [N HN].
  { by rewrite (mc_head _ _ HU), head_reverse. }
  { by rewrite (mc_last _ _ HU), last_reverse. }
  { by intros ?; apply (lex_lt_ne lo hi). }
  exists lo, hi, M, N. split_and!; [done | done | done | done | done | |].
  - assert (strictly_sorted (lo :: M ++ [hi])) as HsL
      by (rewrite <- HM; eapply strictly_sorted_sublist; [apply HL | done]).
    intros m Hm. destruct (strictly_sorted_inner _ _ _ _ HsL Hm) as [Hlm Hmh].
    split_and!; [done | done |].
    assert (0 < cross lo m hi); [| pose proof (cross_swap lo hi m); lia].
    apply (chain_interior_increasing pts (build_chain pts) lo hi m Hs HL);
      [by rewrite (mc_head _ _ HL) | by rewrite (mc_last _ _ HL) | rewrite HM; set_solver
      | intros ->; lex_irrefl | intros ->; lex_irrefl].
  - assert (strictly_sorted (lo :: reverse N ++ [hi])) as HsU.
    { replace (lo :: reverse N ++ [hi]) with (reverse (hi :: N ++ [lo]))
        by (rewrite reverse_cons, reverse_app; done).
      rewrite <- HN. eapply strictly_sorted_sublist; [| exact Hs].
      pose proof (sublist_reverse _ _ (mc_sublist _ _ HU)) as Hr.
      by rewrite reverse_involutive in Hr. }
    intros n Hn. destruct (strictly_sorted_inner _ _ _ n HsU) as [Hln Hnh];
      [by apply elem_of_reverse |].
    split_and!; [done | done |].
    assert (0 < cross hi n lo); [| pose proof (cross_cycle lo hi n); lia].
    apply (chain_interior_decreasing (reverse pts) (build_chain (reverse pts)) hi lo n Hd HU);
      [by rewrite (mc_head _ _ HU), head_reverse | by rewrite (mc_last _ _ HU), last_reverse
      | rewrite HN; set_solver | intros ->; lex_irrefl | intros ->; lex_irrefl].
Qed.

(** ** Refinement *)

Section HullCorrect.
Context `{PySorted}.

(** Zero or one point: the hull is the canonical sequence itself. *)
Lemma is_convex_hull_small points pts :
  (∀ x, x ∈ pts ↔ x ∈ points) → (length pts ≤ 1)%nat → is_convex_hull points pts.
Proof.
  intros Hel Hlen. destruct pts as [|x [|y l]]; [| | simpl in Hlen; lia].
  - split; try (intros ?; by rewrite <- Hel).
    + constructor.
    + intros m Hm. apply Hel in Hm. by apply elem_of_nil in Hm.
    + intros q _ a b He. by apply elem_of_nil in He.
    + simpl; lia.
  - assert (∀ q, q ∈ points → q = x) as Hx by (intros q Hq; apply Hel in Hq; set_solver).
    split.
    + intros q Hq. apply Hel, Hq.
    + by apply NoDup_singleton.
    + intros m Hm _. by rewrite (Hx m Hm).
    + intros m Hm _. rewrite (Hx m Hm). by left.
    + intros q _ a b [[= -> ->] | ?%elem_of_nil]%elem_of_cons; [| done].
      rewrite cross_same_l. lia.
    + simpl; lia.
Qed.

(** Two or more points: the assembled polygon. *)
Lemma is_convex_hull_large points pts :
  strictly_sorted pts → (∀ x, x ∈ pts ↔ x ∈ points) → (2 ≤ length pts)%nat →
  is_convex_hull points ((build_chain pts).[:-1] ++ (build_chain (reverse pts)).[:-1]).
Proof.
  intros Hs Hel Hlen.
  destruct (hull_chains pts Hs Hlen) as (lo & hi & M & N & Hlo & Hhi & Hlh & HL & HU & HM & HN).
  pose proof (build_chain_lower pts Hs) as CL.
  pose proof (build_chain_upper (reverse pts) (proj2 (descending_reverse pts) Hs)) as CU.
  rewrite HL in CL. rewrite HU in CU. rewrite HL, HU, !app_comm_cons, !drop_last_snoc.
  simpl app. split.
  - intros x Hx. apply Hel. assert (x ∈ lo :: M ++ [hi] ∨ x ∈ hi :: N ++ [lo]) as [Hx' | Hx']
      by set_solver; [| apply elem_of_reverse];
      (eapply elem_of_sublist; [exact Hx' | apply CL || apply CU]).
  - apply polygon_nodup; [done | done | done | |].
    + apply (NoDup_inner lo _ hi), strictly_sorted_NoDup.
      eapply strictly_sorted_sublist; [apply CL | done].
    + apply (NoDup_inner hi _ lo). rewrite <- (reverse_Permutation (hi :: N ++ [lo])). apply strictly_sorted_NoDup.
      eapply strictly_sorted_sublist; [| exact Hs].
      pose proof (sublist_reverse _ _ (mc_sublist _ _ CU)) as Hr.
      by rewrite reverse_involutive in Hr.
  - intros m Hm Hmin. change (Some lo = Some m). f_equal. apply (anti_symm lex_le).
    + eapply strictly_sorted_head_min; [done | done | by apply Hel].
    + apply Hmin, Hel. by apply head_Some_elem_of.
  - intros m Hm Hmax. assert (m = hi) as -> by (apply (anti_symm lex_le);
      [eapply strictly_sorted_last_max; [done | done | by apply Hel]
      | apply Hmax, Hel; by apply last_Some_elem_of]). set_solver.
  - intros q Hq a b [He | He]%elem_of_cyclic_edges_join.
    + apply (mc_supports _ _ CL); [by apply Hel | done].
    + apply (mc_supports _ _ CU); [by apply elem_of_reverse, Hel | done].
  - apply polygon_convex; [done | done | done | apply CL | apply CU].
Qed.

Lemma convex_hull_correct points : is_convex_hull points (convex_hull points).
Proof.
  unfold convex_hull. destruct (preprocess_props points) as (Hs & Hel & _).
  case_decide as Hlen; [by apply is_convex_hull_small |].
  apply is_convex_hull_large; [done | done | lia].
Qed.

(** C1. Refinement: for every implementation of Python's [sorted],
    [convex_hull(points)] is the convex hull of [points] in the sense of
    [is_convex_hull].  Its vertices are input points without repetition.
    It starts at the lexicographically smallest point and contains the
    largest.  Every input point is on or inside it.  With three or more
    vertices it turns strictly counter-clockwise at every vertex. *)
Theorem convex_hull_refines points : is_convex_hull points (convex_hull points).
Proof. apply convex_hull_correct. Qed.

End HullCorrect.

Section HullFacts.
Context `{PySorted}.

(** The result depends on the input only through the canonical sequence. *)
Lemma convex_hull_preprocess points :
  convex_hull points =
  let pts := preprocess points in
  if decide (length pts ≤ 1)%nat then pts
  else (build_chain pts).[:-1] ++ (build_chain (reverse pts)).[:-1].
Proof. reflexivity. Qed.

(** C2. Order invariance (spec section 8): the hull depends only on the
    set of input points, not on their order or multiplicity. *)
Theorem convex_hull_same_points points points' :
  same_points points points' → convex_hull points = convex_hull points'.
Proof. intros Hs. rewrite !convex_hull_preprocess. by rewrite (preprocess_proper _ _ Hs). Qed.

(** C3. Bounds: the hull has no more vertices than there are distinct
    input points, hence no more than input points. *)
Theorem convex_hull_length points :
  (length (convex_hull points) ≤ length (preprocess points) ≤ length points)%nat.
Proof.
  destruct (preprocess_props points) as (Hs & Hel & Hlen). split; [| done].
  rewrite convex_hull_preprocess. simpl. case_decide as Hsmall; [done |].
  pose proof (is_convex_hull_large points _ Hs Hel ltac:(lia)) as Hh.
  apply NoDup_incl_length; [apply NoDup_ListNoDup, (hull_nodup _ _ Hh) |].
  intros x Hx%list_elem_of_In. apply list_elem_of_In, Hel. by apply (hull_subset _ _ Hh).
Qed.

(** The canonical sequence is empty exactly when there are no points. *)
Lemma preprocess_nil points : preprocess points = [] ↔ points = [].
Proof.
  destruct (preprocess_props points) as (_ & Hel & _). split.
  - intros Hp. apply elem_of_nil_inv. intros x Hx%Hel. rewrite Hp in Hx. by apply elem_of_nil in Hx.
  - intros ->. apply elem_of_nil_inv. intros x Hx%Hel. by apply elem_of_nil in Hx.
Qed.

(** The points of a chain are points of the canonical sequence. *)
Lemma elem_of_build_chain pts x : strictly_sorted pts → x ∈ build_chain pts → x ∈ pts.
Proof.
  intros Hs Hx. eapply elem_of_sublist; [exact Hx | apply (mc_sublist _ _ (build_chain_lower pts Hs))].
Qed.

Lemma elem_of_build_chain_rev pts x : strictly_sorted pts → x ∈ build_chain (reverse pts) → x ∈ pts.
Proof.
  intros Hs Hx. apply elem_of_reverse. eapply elem_of_sublist; [exact Hx |].
  apply (mc_sublist _ _ (build_chain_upper _ (proj2 (descending_reverse pts) Hs))).
Qed.

(** C8. Collinear input: when all input points lie on one line and are
    not all equal, the hull is exactly the smallest point and the largest
    one, in that order.  Every other point, also the ones strictly
    between them, is dropped by the [<= 0] tie-break of both scans. *)
Theorem convex_hull_collinear points lo hi :
  (∀ p q r, p ∈ points → q ∈ points → r ∈ points → cross p q r = 0) →
  lo ∈ points → hi ∈ points → lo ≠ hi → (∀ q, q ∈ points → lo ⪯ q ∧ q ⪯ hi) →
  convex_hull points = [lo; hi].
Proof.
  intros Hcol Hlo Hhi Hne Hext. destruct (preprocess_props points) as (Hs & Hel & _).
  assert (2 ≤ length (preprocess points))%nat as Hlen.
  { apply Hel in Hlo, Hhi. destruct (preprocess points) as [|x [|y l]]; simpl; [set_solver | | lia].
    exfalso. apply Hne. set_solver. }
  destruct (hull_chains _ Hs Hlen) as (lo' & hi' & M & N & Hlo' & Hhi' & _ & HL & HU & HM & HN).
  assert (lo' = lo) as ->.
  { apply (anti_symm lex_le); [eapply strictly_sorted_head_min; [done | done | by apply Hel] |].
    apply (Hext lo'), Hel. by apply head_Some_elem_of. }
  assert (hi' = hi) as ->.
  { apply (anti_symm lex_le); [| eapply strictly_sorted_last_max; [done | done | by apply Hel]].
    apply (Hext hi'), Hel. by apply last_Some_elem_of. }
  assert (M = []) as ->.
  { destruct M as [|m M]; [done |]. destruct (HM m) as (_ & _ & Hc); [left |].
    rewrite (Hcol lo hi m) in Hc; [lia | done | done |].
    apply Hel, (elem_of_build_chain _ _ Hs). rewrite HL. set_solver. }
  assert (N = []) as ->.
  { destruct N as [|n N]; [done |]. destruct (HN n) as (_ & _ & Hc); [left |].
    rewrite (Hcol lo hi n) in Hc; [lia | done | done |].
    apply Hel, (elem_of_build_chain_rev _ _ Hs). rewrite HU. set_solver. }
  rewrite convex_hull_preprocess. simpl. rewrite decide_False by lia. rewrite HL, HU. done.
Qed.

(** C9. Degenerate inputs, the branch [len(points) <= 1] of line 42: the
    hull is empty exactly when there are no points, and points that are
    all equal to one point [p] give the single vertex [p]. *)
Theorem convex_hull_degenerate points :
  (convex_hull points = [] ↔ points = []) ∧
  ∀ p, p ∈ points → (∀ q, q ∈ points → q = p) → convex_hull points = [p].
Proof.
  destruct (preprocess_props points) as (Hs & Hel & _). split.
  - rewrite <- (preprocess_nil points), convex_hull_preprocess. simpl. case_decide as Hlen; [done |].
    destruct (hull_chains _ Hs ltac:(lia)) as (lo & hi & M & N & _ & _ & _ & HL & _).
    rewrite HL, app_comm_cons, drop_last_snoc. split; [done |].
    intros Hp. rewrite Hp in Hlen. simpl in Hlen. lia.
  - intros p Hp Hall. assert (preprocess points = [p]) as Hpp.
    { apply strictly_sorted_unique; [done | by repeat constructor |].
      intros x. rewrite Hel, list_elem_of_singleton. split; [apply Hall | by intros ->]. }
    rewrite convex_hull_preprocess. simpl. by rewrite Hpp.
Qed.

End HullFacts.

Example convex_hull_same_points_witness :
  same_points [(2, 0); (0, 0); (0, 2); (0, 0)] [(0, 2); (2, 0); (0, 0)] ∧
  convex_hull [(2, 0); (0, 0); (0, 2); (0, 0)] = convex_hull [(0, 2); (2, 0); (0, 0)].
Proof.
  assert (same_points [(2, 0); (0, 0); (0, 2); (0, 0)] [(0, 2); (2, 0); (0, 0)]) as Hs
    by (intros x; set_solver).
  split; [exact Hs | exact (convex_hull_same_points _ _ Hs)].
Defined.

Example convex_hull_collinear_witness :
  convex_hull [(0, 0); (2, 2); (1, 1); (2, 2)] = [(0, 0); (2, 2)].
Proof.
  apply (convex_hull_collinear _ (0, 0) (2, 2)); [| by left | by right; left | done |];
    intros; repeat match goal with
    | H : _ ∈ _ :: _ |- _ => apply elem_of_cons in H as [-> | H]
    | H : _ ∈ [] |- _ => apply elem_of_nil in H; contradiction
    end; first [reflexivity | split; apply (bool_decide_unpack _); reflexivity].
Defined.

Example convex_hull_degenerate_witness :
  (convex_hull [(3, 1); (3, 1)] = [] ↔ [(3, 1); (3, 1)] = ([] : list Point)) ∧
  convex_hull [(3, 1); (3, 1)] = [(3, 1)].
Proof.
  split; [apply (convex_hull_degenerate [(3, 1); (3, 1)]) |].
  apply (proj2 (convex_hull_degenerate [(3, 1); (3, 1)]) (3, 1)); [by left |].
  intros q Hq. repeat (apply elem_of_cons in Hq as [-> | Hq]; [done |]). by apply elem_of_nil in Hq.
Defined.
