(* ===== verification/Canvas.v ===== *)
(** * The NodeBox drawing calls and the Python built-ins the demo code uses

    The demo functions of convexhull.py ([mark], [createRandomPoints],
    [displayHullPoints]) call the NodeBox drawing API and index Python
    lists.  Neither NodeBox nor Python is code of this repository.  This
    file gives the small model of them that the demo models are written
    in:
    - [Script A]: a computation that emits NodeBox drawing commands
      ([cmd], oldest first) and may raise a Python exception ([py_error]),
      with stdpp's monad classes and notation ([x ← m; k], [m ;; k]);
    - [py_index], [py_slice], [py_for]: [l[i]] with negative indices and
      [IndexError], [l[a:b]] with Python's clamping, and a [for] loop;
    - [random], a read of the next value of a stream of random numbers,
      which the model keeps in the state;
    - [exec_trace]: what a command trace draws.  A path is built by
      [beginpath], [moveto], [lineto].  [endpath] closes its last subpath,
      since NodeBox's [autoclosepath] is on by default, and records it with
      the colours current at that moment.  [push] and [pop] save and
      restore the transformation only, which the model tracks as a depth. *)

From S2P Require Import Prelude.
From Stdlib Require Import QArith.

(** ** Commands and the script monad *)

Inductive py_error := IndexError.

Inductive color := Gray (v : Q) | RGBA (r g b a : Q).

Inductive cmd : Type :=
  | Push | Pop
  | Fill (c : color) | NoFill | Stroke (c : color) | StrokeWidth (w : Q)
  | BeginPath | MoveTo (x y : Q) | LineTo (x y : Q) | EndPath (draw : bool)
  | RectC (x y w h : Q) | OvalC (x y w h : Q) (draw : bool).

(** The state of a script: the commands emitted so far and the position in
    the stream of random numbers. *)
Record sstate := { trace : list cmd; rng : nat }.

Abbreviation Script := (StateErr sstate py_error).

Definition emit (c : cmd) : Script unit :=
  λ s, inr (tt, {| trace := trace s ++ [c]; rng := rng s |}).

(** [random()]: the next number of the stream [rs]. *)
Definition random (rs : nat → Q) : Script Q :=
  λ s, inr (rs (rng s), {| trace := trace s; rng := S (rng s) |}).

Definition run {A} (m : Script A) : py_error + (A * sstate) :=
  m {| trace := []; rng := 0 |}.

(** ** NodeBox calls *)

Definition push : Script unit := emit Push.
Definition pop : Script unit := emit Pop.
Definition fill (c : color) : Script unit := emit (Fill c).
Definition nofill : Script unit := emit NoFill.
Definition stroke (c : color) : Script unit := emit (Stroke c).
Definition strokewidth (w : Q) : Script unit := emit (StrokeWidth w).
Definition beginpath : Script unit := emit BeginPath.
Definition moveto (x y : Q) : Script unit := emit (MoveTo x y).
Definition lineto (x y : Q) : Script unit := emit (LineTo x y).
Definition endpath (draw : bool) : Script unit := emit (EndPath draw).
Definition rect (x y w h : Q) : Script unit := emit (RectC x y w h).
Definition oval (x y w h : Q) (draw : bool) : Script unit := emit (OvalC x y w h draw).

(** ** Python built-ins *)

(** [l[i]]: a negative index counts from the end; out of range raises. *)
Definition py_index {A} (l : list A) (i : Z) : Script A :=
  let n := Z.of_nat (length l) in
  let j := if decide (i < 0)%Z then (i + n)%Z else i in
  match (if decide (0 ≤ j)%Z then l !! Z.to_nat j else None) with
  | Some x => mret x
  | None => mthrow IndexError
  end.

(** Bounds of a slice: negative values count from the end, and both are
    clamped to [0, len(l)]. *)
Definition py_slice_bound (n : nat) (i : Z) : nat :=
  if decide (i < 0)%Z then Z.to_nat (i + Z.of_nat n) else Nat.min (Z.to_nat i) n.

(** [l[a:b]] *)
Definition py_slice {A} (l : list A) (a b : Z) : list A :=
  let i := py_slice_bound (length l) a in
  let j := py_slice_bound (length l) b in
  take (j - i) (drop i l).

(** [for x in l: body] *)
Fixpoint py_for {A} (l : list A) (body : A → Script unit) : Script unit :=
  match l with
  | [] => mret tt
  | x :: l => body x ;; py_for l body
  end.

(** ** What a trace draws *)

Record gstate := { g_fill : option color; g_stroke : option color; g_width : Q }.

(** A drawn object with the colours it was drawn with.  A path is a list
    of subpaths, each the list of its points. *)
Inductive grob :=
  | GPath (sps : list (list (Q * Q))) (g : gstate)
  | GRect (x y w h : Q) (g : gstate)
  | GOval (x y w h : Q) (g : gstate).

Record canvas := {
  cv_g : gstate;
  cv_depth : nat;
  cv_path : option (list (list (Q * Q)));
  cv_grobs : list grob
}.

Definition set_g (cv : canvas) (g : gstate) : canvas :=
  {| cv_g := g; cv_depth := cv_depth cv; cv_path := cv_path cv; cv_grobs := cv_grobs cv |}.
Definition set_path (cv : canvas) (p : option (list (list (Q * Q)))) : canvas :=
  {| cv_g := cv_g cv; cv_depth := cv_depth cv; cv_path := p; cv_grobs := cv_grobs cv |}.
Definition add_grob (cv : canvas) (o : grob) : canvas :=
  {| cv_g := cv_g cv; cv_depth := cv_depth cv; cv_path := cv_path cv;
     cv_grobs := cv_grobs cv ++ [o] |}.
Definition set_depth (cv : canvas) (d : nat) : canvas :=
  {| cv_g := cv_g cv; cv_depth := d; cv_path := cv_path cv; cv_grobs := cv_grobs cv |}.

(** [closepath()] on the last subpath: back to its first point. *)
Definition close_last (sps : list (list (Q * Q))) : list (list (Q * Q)) :=
  match reverse sps with
  | [] => []
  | sp :: rest => reverse rest ++ [sp ++ take 1 sp]
  end.

(** One command; [None] where NodeBox raises: [pop] without [push], path
    commands without a current path, [lineto] before any [moveto]. *)
Definition exec_cmd (cv : canvas) (c : cmd) : option canvas :=
  let g := cv_g cv in
  match c with
  | Push => Some (set_depth cv (S (cv_depth cv)))
  | Pop => match cv_depth cv with O => None | S d => Some (set_depth cv d) end
  | Fill k => Some (set_g cv {| g_fill := Some k; g_stroke := g_stroke g; g_width := g_width g |})
  | NoFill => Some (set_g cv {| g_fill := None; g_stroke := g_stroke g; g_width := g_width g |})
  | Stroke k => Some (set_g cv {| g_fill := g_fill g; g_stroke := Some k; g_width := g_width g |})
  | StrokeWidth w => Some (set_g cv {| g_fill := g_fill g; g_stroke := g_stroke g; g_width := w |})
  | BeginPath => Some (set_path cv (Some []))
  | MoveTo x y =>
      match cv_path cv with
      | Some sps => Some (set_path cv (Some (sps ++ [[(x, y)]])))
      | None => None
      end
  | LineTo x y =>
      match cv_path cv with
      | Some sps =>
          match reverse sps with
          | sp :: rest => Some (set_path cv (Some (reverse rest ++ [sp ++ [(x, y)]])))
          | [] => None
          end
      | None => None
      end
  | EndPath draw =>
      match cv_path cv with
      | Some sps =>
          let cv' := set_path cv None in
          Some (if draw then add_grob cv' (GPath (close_last sps) g) else cv')
      | None => None
      end
  | RectC x y w h => Some (add_grob cv (GRect x y w h g))
  | OvalC x y w h draw => Some (if draw then add_grob cv (GOval x y w h g) else cv)
  end.

Definition exec_trace (cv : canvas) (tr : list cmd) : option canvas :=
  foldl (λ ocv c, ocv ≫= λ cv, exec_cmd cv c) (Some cv) tr.

(** The segments drawn by a path. *)
Definition path_segments (sps : list (list (Q * Q))) : list ((Q * Q) * (Q * Q)) :=
  mjoin (edges <$> sps).

(** ** Lemmas on scripts *)

(** [m] returns [tt], keeps the random stream, and appends [out] to the
    trace, whatever the state. *)
Definition emits (m : Script unit) (out : list cmd) : Prop :=
  ∀ s, m s = inr (tt, {| trace := trace s ++ out; rng := rng s |}).

Lemma emits_emit c : emits (emit c) [c].
Proof. intros s. reflexivity. Qed.

Lemma emits_seq m1 m2 o1 o2 : emits m1 o1 → emits m2 o2 → emits (m1 ;; m2) (o1 ++ o2).
Proof.
  intros H1 H2 s. unfold mbind, se_bind. rewrite H1, H2. simpl.
  by rewrite app_assoc.
Qed.

Lemma emits_for {A} (l : list A) body f :
  (∀ x, emits (body x) (f x)) → emits (py_for l body) (mjoin (f <$> l)).
Proof.
  intros Hb. induction l as [|x l IH]; simpl.
  - intros s. destruct s. simpl. by rewrite app_nil_r.
  - apply emits_seq; [apply Hb | apply IH].
Qed.

Lemma exec_trace_app cv t1 t2 :
  exec_trace cv (t1 ++ t2) = exec_trace cv t1 ≫= λ cv', exec_trace cv' t2.
Proof.
  unfold exec_trace. rewrite foldl_app. generalize (foldl (λ ocv c, ocv ≫= λ cv, exec_cmd cv c) (Some cv) t1).
  intros [cv'|]; [done |]. clear. induction t2; simpl; auto.
Qed.

#[export] Hint Resolve emits_emit emits_seq : hull.

Lemma emits_bind {A} (m : Script A) x (k : A → Script unit) out :
  (∀ s, m s = inr (x, s)) → emits (k x) out → emits (y ← m; k y) out.
Proof. intros Hm Hk s. unfold mbind, se_bind. rewrite Hm. apply Hk. Qed.

Lemma py_index_0 {A} (x : A) l s : py_index (x :: l) 0 s = inr (x, s).
Proof. reflexivity. Qed.

Lemma py_index_last {A} (l : list A) x s : py_index (l ++ [x]) (-1) s = inr (x, s).
Proof.
  unfold py_index. rewrite length_app. simpl.
  replace (-1 + Z.of_nat (length l + 1))%Z with (Z.of_nat (length l)) by lia.
  rewrite decide_True by lia. rewrite Nat2Z.id, lookup_app_r, Nat.sub_diag by lia. done.
Qed.

Lemma py_index_nil {A} (i : Z) s : py_index (@nil A) i s = inl IndexError.
Proof. unfold py_index. case_decide; simpl; [case_decide |]; done. Qed.

(** [l[1:-1]] drops the first and the last element. *)
Lemma py_slice_inner {A} (x : A) l y : py_slice (x :: l ++ [y]) 1 (-1) = l.
Proof.
  unfold py_slice, py_slice_bound. simpl length. rewrite length_app. simpl.
  replace (-1 + Z.of_nat (S (length l + 1)))%Z with (Z.of_nat (S (length l))) by lia.
  rewrite Nat2Z.id. replace (S (length l) - 1)%nat with (length l) by lia.
  rewrite drop_0. apply take_app_length.
Qed.

Lemma emits_cons_seq c m out : emits m out → emits (emit c ;; m) (c :: out).
Proof. intros H. apply (emits_seq _ _ [c] out); [apply emits_emit | done]. Qed.

Lemma py_index_last_cons {A} (x : A) l s : py_index (x :: l) (-1) s = inr (default x (last l), s).
Proof.
  destruct (decide (l = [])) as [-> | Hne]; [done |].
  destruct (exists_last Hne) as (k & y & ->). rewrite last_snoc. simpl default.
  rewrite app_comm_cons. apply py_index_last.
Qed.

(** Run a chain of emitting commands and Python indexings. *)
Ltac emits_steps :=
  repeat first
    [ apply emits_cons_seq
    | eapply emits_bind; [first [apply py_index_0 | apply py_index_last_cons] |]
    | apply emits_emit ].
