(* ===== verification/TraceTyping.v ===== *)
(** * Well-formed NodeBox command traces

    [exec_cmd] of [Canvas] fails on three kinds of command: [pop] without
    a matching [push], [moveto] or [endpath] outside a path, and [lineto]
    before the path has a point.  This file gives the discipline that
    rules them out, as a typing judgment on traces in the style of a type
    system for a small language: [⦃ d, ps ⦄ t ⦃ d', ps' ⦄] says that the
    trace [t], run from transformation depth [d] and path state [ps],
    ends at depth [d'] and path state [ps'].  It is proved sound
    (a well-typed trace runs without failing, and ends in the state its
    type says), stable under extra depth (weakening), compositional, and
    decided by a checker [typecheck_trace] that is sound and complete. *)

From S2P Require Import Prelude Canvas.
From Stdlib Require Import QArith.

(** ** Path states *)

(** No current path; a path begun, without a point yet; a path with a
    current subpath. *)
Inductive pstate := NoPath | PathEmpty | PathOpen.

#[export] Instance pstate_eq_dec : EqDecision pstate.
Proof. solve_decision. Defined.

Definition cv_pstate (cv : canvas) : pstate :=
  match cv_path cv with
  | None => NoPath
  | Some [] => PathEmpty
  | Some (_ :: _) => PathOpen
  end.

(** The commands that only change the graphics state or add a grob. *)
Definition is_style (c : cmd) : bool :=
  match c with
  | Fill _ | NoFill | Stroke _ | StrokeWidth _ | RectC _ _ _ _ | OvalC _ _ _ _ _ => true
  | _ => false
  end.

(** ** The typing judgment *)

Reserved Notation "⦃ d , ps ⦄ t ⦃ d' , ps' ⦄" (at level 70, t at next level, format "⦃ d ,  ps ⦄  t  ⦃ d' ,  ps' ⦄").

Inductive trace_ok : nat → pstate → list cmd → nat → pstate → Prop :=
  | T_nil d ps : ⦃ d, ps ⦄ [] ⦃ d, ps ⦄
  | T_push d ps t d' ps' : ⦃ S d, ps ⦄ t ⦃ d', ps' ⦄ → ⦃ d, ps ⦄ Push :: t ⦃ d', ps' ⦄
  | T_pop d ps t d' ps' : ⦃ d, ps ⦄ t ⦃ d', ps' ⦄ → ⦃ S d, ps ⦄ Pop :: t ⦃ d', ps' ⦄
  | T_style c d ps t d' ps' : is_style c = true → ⦃ d, ps ⦄ t ⦃ d', ps' ⦄ → ⦃ d, ps ⦄ c :: t ⦃ d', ps' ⦄
  | T_begin d ps t d' ps' : ⦃ d, PathEmpty ⦄ t ⦃ d', ps' ⦄ → ⦃ d, ps ⦄ BeginPath :: t ⦃ d', ps' ⦄
  | T_moveto d ps x y t d' ps' :
      ps ≠ NoPath → ⦃ d, PathOpen ⦄ t ⦃ d', ps' ⦄ → ⦃ d, ps ⦄ MoveTo x y :: t ⦃ d', ps' ⦄
  | T_lineto d x y t d' ps' : ⦃ d, PathOpen ⦄ t ⦃ d', ps' ⦄ → ⦃ d, PathOpen ⦄ LineTo x y :: t ⦃ d', ps' ⦄
  | T_endpath d ps b t d' ps' :
      ps ≠ NoPath → ⦃ d, NoPath ⦄ t ⦃ d', ps' ⦄ → ⦃ d, ps ⦄ EndPath b :: t ⦃ d', ps' ⦄
where "⦃ d , ps ⦄ t ⦃ d' , ps' ⦄" := (trace_ok d ps t d' ps').

#[export] Hint Constructors trace_ok : hull.

(** ** The checker *)

Definition typecheck_cmd (d : nat) (ps : pstate) (c : cmd) : option (nat * pstate) :=
  match c with
  | Push => Some (S d, ps)
  | Pop => match d with O => None | S d => Some (d, ps) end
  | BeginPath => Some (d, PathEmpty)
  | MoveTo _ _ => if decide (ps = NoPath) then None else Some (d, PathOpen)
  | LineTo _ _ => if decide (ps = PathOpen) then Some (d, PathOpen) else None
  | EndPath _ => if decide (ps = NoPath) then None else Some (d, NoPath)
  | _ => Some (d, ps)
  end.

Fixpoint typecheck_trace (d : nat) (ps : pstate) (t : list cmd) : option (nat * pstate) :=
  match t with
  | [] => Some (d, ps)
  | c :: t => '(d1, ps1) ← typecheck_cmd d ps c; typecheck_trace d1 ps1 t
  end.

(** ** Properties of the judgment *)

Lemma exec_trace_cons cv c t : exec_trace cv (c :: t) = exec_cmd cv c ≫= λ cv', exec_trace cv' t.
Proof. apply (exec_trace_app cv [c] t). Qed.

Lemma cv_pstate_snoc cv (l : list (list (Q * Q))) x :
  cv_pstate (set_path cv (Some (l ++ [x]))) = PathOpen.
Proof. unfold cv_pstate. simpl. by destruct l. Qed.

Lemma cv_pstate_set_g cv g : cv_pstate (set_g cv g) = cv_pstate cv.
Proof. done. Qed.

Lemma cv_pstate_add_grob cv o : cv_pstate (add_grob cv o) = cv_pstate cv.
Proof. done. Qed.

(** One command accepted by the checker runs, and leaves the depth and
    path state the checker says. *)
Lemma exec_cmd_typed cv c d1 ps1 :
  typecheck_cmd (cv_depth cv) (cv_pstate cv) c = Some (d1, ps1) →
  ∃ cv', exec_cmd cv c = Some cv' ∧ cv_depth cv' = d1 ∧ cv_pstate cv' = ps1.
Proof.
  destruct cv as [g dep p gs]. destruct c; simpl; intros H.
  - injection H as <- <-. by eexists.
  - destruct dep as [|dep]; [done |]. injection H as <- <-. by eexists.
  - injection H as <- <-. by eexists.
  - injection H as <- <-. by eexists.
  - injection H as <- <-. by eexists.
  - injection H as <- <-. by eexists.
  - injection H as <- <-. by eexists.
  - unfold cv_pstate in H; simpl in H. destruct p as [sps|]; [| case_decide; congruence].
    case_decide as Hd; [destruct sps; simpl in Hd; congruence |]. injection H as <- <-. eexists. split; [done |].
    split; [done | apply cv_pstate_snoc].
  - unfold cv_pstate in H; simpl in H. destruct p as [[|sp sps]|]; case_decide; try done.
    injection H as <- <-. rewrite reverse_cons.
    destruct (reverse sps ++ [sp]) as [|sp' rest] eqn:E; [by destruct (reverse sps) |].
    eexists. split; [done |]. split; [done | apply cv_pstate_snoc].
  - unfold cv_pstate in H; simpl in H. destruct p as [sps|]; [| case_decide; congruence].
    case_decide as Hd; [destruct sps; simpl in Hd; congruence |]. injection H as <- <-.
    eexists. split; [done |]. by destruct draw.
  - injection H as <- <-. by eexists.
  - injection H as <- <-. eexists. split; [done |]. by destruct draw.
Qed.

Lemma typecheck_cmd_ok d ps c d1 ps1 t d' ps' :
  typecheck_cmd d ps c = Some (d1, ps1) → ⦃ d1, ps1 ⦄ t ⦃ d', ps' ⦄ →
  ⦃ d, ps ⦄ c :: t ⦃ d', ps' ⦄.
Proof.
  destruct c; simpl; intros H Ht; try (destruct d; [done |]); repeat case_decide;
    simplify_eq; eauto with hull.
  all: try (apply T_style; [done | by destruct d]).
  all: try (apply T_moveto || apply T_endpath); try done; try by destruct d.
Qed.

(** The checker is sound ... *)
Lemma typecheck_trace_sound d ps t d' ps' :
  typecheck_trace d ps t = Some (d', ps') → ⦃ d, ps ⦄ t ⦃ d', ps' ⦄.
Proof.
  revert d ps. induction t as [|c t IH]; intros d ps; simpl.
  - intros [= <- <-]. constructor.
  - destruct (typecheck_cmd d ps c) as [[d1 ps1]|] eqn:Hc; [| done].
    intros Ht. eapply typecheck_cmd_ok; [exact Hc | by apply IH].
Qed.

(** ... and complete. *)
Lemma typecheck_trace_complete d ps t d' ps' :
  ⦃ d, ps ⦄ t ⦃ d', ps' ⦄ → typecheck_trace d ps t = Some (d', ps').
Proof.
  induction 1 as [| | | c d ps t d' ps' Hc _ IH | | | |]; simpl;
    repeat case_decide; try done.
  destruct c; done.
Qed.

#[export] Instance trace_ok_dec d ps t d' ps' : Decision (⦃ d, ps ⦄ t ⦃ d', ps' ⦄).
Proof.
  refine (cast_if (decide (typecheck_trace d ps t = Some (d', ps'))));
    [by apply typecheck_trace_sound | by intros ?%typecheck_trace_complete].
Defined.

(** Sequencing two well-typed traces. *)
Lemma trace_ok_app d ps t1 d1 ps1 t2 d2 ps2 :
  ⦃ d, ps ⦄ t1 ⦃ d1, ps1 ⦄ → ⦃ d1, ps1 ⦄ t2 ⦃ d2, ps2 ⦄ → ⦃ d, ps ⦄ t1 ++ t2 ⦃ d2, ps2 ⦄.
Proof. induction 1; intros; simpl; eauto with hull. Qed.

(** Weakening: a trace stays well typed under more [push]es. *)
Lemma trace_ok_weaken k d ps t d' ps' :
  ⦃ d, ps ⦄ t ⦃ d', ps' ⦄ → ⦃ k + d, ps ⦄ t ⦃ k + d', ps' ⦄.
Proof.
  induction 1; rewrite ?Nat.add_succ_r in *; eauto with hull.
Qed.

(** Soundness: a well-typed trace runs from every canvas at the depth
    and in the path state of its type, without failing, and ends in the
    depth and path state of its type. *)
Lemma trace_ok_exec cv t d' ps' :
  ⦃ cv_depth cv, cv_pstate cv ⦄ t ⦃ d', ps' ⦄ →
  ∃ cv', exec_trace cv t = Some cv' ∧ cv_depth cv' = d' ∧ cv_pstate cv' = ps'.
Proof.
  intros Ht%typecheck_trace_complete. revert cv Ht. induction t as [|c t IH]; intros cv; simpl.
  - intros [= <- <-]. by exists cv.
  - destruct (typecheck_cmd _ _ c) as [[d1 ps1]|] eqn:Hc; [| done]. intros Ht.
    destruct (exec_cmd_typed cv c d1 ps1 Hc) as (cv1 & Hex & <- & <-).
    rewrite exec_trace_cons, Hex. by apply IH.
Qed.
