(* ===== verification/Demo.v ===== *)
(** * The demo functions of convexhull.py

    [mark] (lines 73-89), [createRandomPoints] (lines 91-106) and
    [displayHullPoints] (lines 109-133), in the [Script] monad of
    [Canvas].  Coordinates are rationals: the script computes them as
    Python floats, and rationals are exact where floats round.  The
    results proved here are about the commands each function emits, about
    what those commands draw ([exec_trace]), and about the one exception
    the code can raise: [outline[0]] on an empty outline. *)

From Stdlib Require Import String.
From S2P Require Import Prelude Geometry Preprocess Chain Hull Canvas TraceTyping.
From Stdlib Require Import QArith Lqa.

Open Scope Q_scope.

(** ** Settings, lines 19-23 *)

Definition noOfPoints : nat := 10000.
Definition inset : Q := 20.

(** ** [mark], lines 73-89 *)

Definition mark (point : Q * Q) (style : String.string) : Script unit :=
  push ;;
  fill (Gray 0) ;;
  strokewidth 1 ;;
  stroke (RGBA (1 # 2) 0 0 (1 # 2)) ;;
  (if String.eqb style "CROSS"%string then
     beginpath ;;
     moveto (point.1 - 2) point.2 ;;
     lineto (point.1 + 2) point.2 ;;
     moveto point.1 (point.2 - 2) ;;
     lineto point.1 (point.2 + 2) ;;
     endpath true
   else
     rect point.1 point.2 1 1) ;;
  pop.

(** ** [createRandomPoints], lines 91-106 *)

(** The body of [for i in xrange(count)], from the [count - n]-th point on. *)
Fixpoint random_points_loop (rs : nat → Q) (n : nat) (width height inset : Q)
    (points : list (Q * Q)) : Script (list (Q * Q)) :=
  match n with
  | O => mret points
  | S n =>
      r1 ← random rs ;
      let px := inset + r1 * (width - inset * 2) in
      r2 ← random rs ;
      let py := inset + r2 * (height - inset * 2) in
      let points := points ++ [(px, py)] in
      mark (px, py) "CROSS"%string ;;
      random_points_loop rs n width height inset points
  end.

Definition createRandomPoints (rs : nat → Q) (count : nat) (width height inset : Q)
    : Script (list (Q * Q)) :=
  let midx := (width - inset) / 2 in
  let midy := (height - inset) / 2 in
  strokewidth 1 ;;
  stroke (Gray 0) ;;
  random_points_loop rs count width height inset [].

(** ** [displayHullPoints], lines 109-133 *)

Definition red : color := RGBA 1 0 0 (1 # 2).
Definition blue : color := RGBA 0 0 1 (1 # 2).

(** One iteration of [for p in outline[1:-1]]. *)
Definition display_vertex (p : Q * Q) : Script unit :=
  strokewidth 1 ;;
  stroke blue ;;
  lineto p.1 p.2 ;;
  strokewidth 1 ;;
  stroke red ;;
  oval (p.1 - 4) (p.2 - 4) 8 8 true.

Definition displayHullPoints (outline : list (Q * Q)) : Script unit :=
  push ;;
  beginpath ;;
  nofill ;;
  beginpath ;;
  o ← py_index outline 0 ;
  moveto o.1 o.2 ;;
  strokewidth 1 ;;
  stroke red ;;
  o ← py_index outline 0 ;
  oval (o.1 - 4) (o.2 - 4) 8 8 true ;;
  py_for (py_slice outline 1 (-1)) display_vertex ;;
  strokewidth 1 ;;
  stroke blue ;;
  o ← py_index outline (-1) ;
  lineto o.1 o.2 ;;
  strokewidth 1 ;;
  stroke red ;;
  o ← py_index outline (-1) ;
  oval (o.1 - 4) (o.2 - 4) 8 8 true ;;
  endpath true ;;
  pop.

(** ** The commands [displayHullPoints] emits *)

Definition vertex_cmds (p : Q * Q) : list cmd :=
  [StrokeWidth 1; Stroke blue; LineTo p.1 p.2; StrokeWidth 1; Stroke red;
   OvalC (p.1 - 4) (p.2 - 4) 8 8 true].

Definition display_trace (o : Q * Q) (mid : list (Q * Q)) (ol : Q * Q) : list cmd :=
  [Push; BeginPath; NoFill; BeginPath; MoveTo o.1 o.2; StrokeWidth 1; Stroke red;
   OvalC (o.1 - 4) (o.2 - 4) 8 8 true] ++
  mjoin (vertex_cmds <$> mid) ++
  [StrokeWidth 1; Stroke blue; LineTo ol.1 ol.2; StrokeWidth 1; Stroke red;
   OvalC (ol.1 - 4) (ol.2 - 4) 8 8 true; EndPath true; Pop].

(** ** What the demo functions draw *)

(** The graphics state [mark] leaves behind: [push] and [pop] do not save
    colours, so its fill, stroke and width outlive it. *)
Definition mark_red : color := RGBA (1 # 2) 0 0 (1 # 2).
Definition g_mark : gstate := {| g_fill := Some (Gray 0); g_stroke := Some mark_red; g_width := 1 |}.

(** The commands of [mark(point, "CROSS")]. *)
Definition mark_cmds (p : Q * Q) : list cmd :=
  [Push; Fill (Gray 0); StrokeWidth 1; Stroke mark_red; BeginPath;
   MoveTo (p.1 - 2) p.2; LineTo (p.1 + 2) p.2; MoveTo p.1 (p.2 - 2); LineTo p.1 (p.2 + 2);
   EndPath true; Pop].

(** The cross [mark] draws: a horizontal and a vertical stroke through
    [p], the last one closed by [endpath]. *)
Definition cross_at (p : Q * Q) : grob :=
  GPath [[(p.1 - 2, p.2); (p.1 + 2, p.2)]; [(p.1, p.2 - 2); (p.1, p.2 + 2); (p.1, p.2 - 2)]] g_mark.

(** The points [createRandomPoints] draws from the stream [rs] from its
    [k]-th number on: two numbers per point. *)
Fixpoint gen_points (rs : nat → Q) (k n : nat) (width height inset : Q) : list (Q * Q) :=
  match n with
  | O => []
  | S n => (inset + rs k * (width - inset * 2), inset + rs (S k) * (height - inset * 2)) ::
           gen_points rs (S (S k)) n width height inset
  end.

Definition g_red : gstate := {| g_fill := None; g_stroke := Some red; g_width := 1 |}.

Definition oval_at (p : Q * Q) : grob := GOval (p.1 - 4) (p.2 - 4) 8 8 g_red.

(** An integer point as the float pair the script draws. *)
Definition pt_Q (p : Point) : Q * Q := (inject_Z p.1, inject_Z p.2).

(** ** The script body, lines 138-149 *)

(** [points = createRandomPoints(noOfPoints, WIDTH, HEIGHT, inset)],
    [outline = convex_hull(points)], [noofhullpoints = len(outline)],
    [displayHullPoints(outline)].  The points are floats, and [convex_hull]
    is modelled on integer points ([Hull]), so the hull is the parameter
    [hull]; the timing lines ([time.time()]) are not modelled. *)
Definition main_body (hull : list (Q * Q) → list (Q * Q)) (rs : nat → Q) (WIDTH HEIGHT : Q)
    : Script unit :=
  points ← createRandomPoints rs noOfPoints WIDTH HEIGHT inset;
  let outline := hull points in
  let noofhullpoints := length outline in
  displayHullPoints outline.

(** An empty canvas with NodeBox's default colours. *)
Definition blank_canvas : canvas :=
  {| cv_g := {| g_fill := Some (Gray 0); g_stroke := None; g_width := 1 |};
     cv_depth := 0; cv_path := None; cv_grobs := [] |}.

(** ** Properties of [displayHullPoints] *)

Lemma display_vertex_emits p : emits (display_vertex p) (vertex_cmds p).
Proof. unfold display_vertex, vertex_cmds. emits_steps. Qed.

Lemma display_emits o rest :
  emits (displayHullPoints (o :: rest))
    (display_trace o (py_slice (o :: rest) 1 (-1)) (default o (last rest))).
Proof.
  unfold displayHullPoints, display_trace. emits_steps.
  apply emits_seq; [apply emits_for, display_vertex_emits |]. emits_steps.
Qed.

(** C10. Error behaviour: [displayHullPoints(outline)] raises exactly on
    the empty outline, with [IndexError] at [outline[0]] (line 115),
    whatever the state; on every other outline it raises nothing and
    leaves the random stream as it was. *)
Theorem displayHullPoints_empty outline s :
  (outline = [] ↔ displayHullPoints outline s = inl IndexError) ∧
  (outline ≠ [] → ∃ t, displayHullPoints outline s = inr (tt, {| trace := trace s ++ t; rng := rng s |})).
Proof.
  destruct outline as [|o rest]; [split; [split; reflexivity | done] |].
  rewrite (display_emits o rest s). split; [split; discriminate |]. intros _. by eexists.
Qed.

(** ** What [displayHullPoints] draws *)



Lemma exec_vertex d sp gs x y :
  exec_trace {| cv_g := g_red; cv_depth := d; cv_path := Some [sp]; cv_grobs := gs |}
    (vertex_cmds (x, y)) =
  Some {| cv_g := g_red; cv_depth := d; cv_path := Some [sp ++ [(x, y)]];
          cv_grobs := gs ++ [oval_at (x, y)] |}.
Proof. reflexivity. Qed.

Lemma exec_vertices d sp gs mid :
  exec_trace {| cv_g := g_red; cv_depth := d; cv_path := Some [sp]; cv_grobs := gs |}
    (mjoin (vertex_cmds <$> mid)) =
  Some {| cv_g := g_red; cv_depth := d; cv_path := Some [sp ++ mid];
          cv_grobs := gs ++ (oval_at <$> mid) |}.
Proof.
  revert sp gs. induction mid as [|[x y] mid IH]; intros sp gs.
  - by rewrite !app_nil_r.
  - rewrite fmap_cons, mjoin_cons, exec_trace_app, exec_vertex. simpl.
    rewrite IH, <- !app_assoc. done.
Qed.

Lemma exec_display_prefix cv ox oy :
  exec_trace cv [Push; BeginPath; NoFill; BeginPath; MoveTo ox oy; StrokeWidth 1;
                 Stroke red; OvalC (ox - 4) (oy - 4) 8 8 true] =
  Some {| cv_g := g_red; cv_depth := S (cv_depth cv); cv_path := Some [[(ox, oy)]];
          cv_grobs := cv_grobs cv ++ [oval_at (ox, oy)] |}.
Proof. reflexivity. Qed.

Lemma exec_display_suffix d o sp gs lx ly :
  exec_trace {| cv_g := g_red; cv_depth := S d; cv_path := Some [o :: sp]; cv_grobs := gs |}
    [StrokeWidth 1; Stroke blue; LineTo lx ly; StrokeWidth 1; Stroke red;
     OvalC (lx - 4) (ly - 4) 8 8 true; EndPath true; Pop] =
  Some {| cv_g := g_red; cv_depth := d; cv_path := None;
          cv_grobs := gs ++ [oval_at (lx, ly); GPath [(o :: sp ++ [(lx, ly)]) ++ [o]] g_red] |}.
Proof.
  cbn. unfold set_depth, add_grob, set_path, set_g. simpl. by rewrite <- app_assoc.
Qed.

Lemma exec_display_trace cv o mid ol :
  exec_trace cv (display_trace o mid ol) =
  Some {| cv_g := g_red; cv_depth := cv_depth cv; cv_path := None;
          cv_grobs := cv_grobs cv ++ (oval_at <$> o :: mid ++ [ol]) ++
                      [GPath [(o :: mid ++ [ol]) ++ [o]] g_red] |}.
Proof.
  destruct o as [ox oy], ol as [lx ly]. unfold display_trace.
  rewrite exec_trace_app, exec_display_prefix. simpl (Some _ ≫= _).
  rewrite exec_trace_app, exec_vertices. simpl (Some _ ≫= _).
  rewrite exec_display_suffix. do 2 f_equal. rewrite fmap_cons, fmap_app. simpl. rewrite <- !app_assoc. done.
Qed.

Lemma display_draws outline cv s :
  (2 ≤ length outline)%nat →
  ∃ t, displayHullPoints outline s = inr (tt, {| trace := trace s ++ t; rng := rng s |}) ∧
    exec_trace cv t =
    Some {| cv_g := g_red; cv_depth := cv_depth cv; cv_path := None;
            cv_grobs := cv_grobs cv ++ (oval_at <$> outline) ++
                        [GPath [outline ++ take 1 outline] g_red] |}.
Proof.
  intros Hlen. destruct outline as [|o rest]; [simpl in Hlen; lia |].
  destruct (decide (rest = [])) as [-> | Hne]; [simpl in Hlen; lia |].
  destruct (exists_last Hne) as (mid & ol & ->).
  eexists. split; [apply display_emits |].
  rewrite py_slice_inner, last_snoc. apply exec_display_trace.
Qed.

(** C11. What [displayHullPoints] draws, for an outline of two or more
    points, from any canvas and script state: it raises nothing.  It adds
    one marker per vertex and one path through the vertices in order,
    closed back to the first vertex.  The path is drawn with the stroke
    current at [endpath], red: the blue [stroke] calls before each
    [lineto] have no effect on it.  The transformation depth is restored. *)
Theorem displayHullPoints_draws outline cv s :
  (2 ≤ length outline)%nat →
  ∃ t, displayHullPoints outline s = inr (tt, {| trace := trace s ++ t; rng := rng s |}) ∧
    exec_trace cv t =
    Some {| cv_g := g_red; cv_depth := cv_depth cv; cv_path := None;
            cv_grobs := cv_grobs cv ++ (oval_at <$> outline) ++
                        [GPath [outline ++ take 1 outline] g_red] |}.
Proof. apply display_draws. Qed.

(** The segments of the closed path through [outline] are the edges of
    the polygon [outline]. *)
Lemma path_segments_closed {A} (outline : list (A * A)) :
  mjoin (edges <$> [outline ++ take 1 outline]) = cyclic_edges outline.
Proof. destruct outline; simpl; by rewrite ?app_nil_r. Qed.

(** ** Displaying the hull *)


(** Two distinct points or more give a hull of two vertices or more. *)
Lemma convex_hull_two `{PySorted} points :
  (2 ≤ length (preprocess points))%nat → (2 ≤ length (convex_hull points))%nat.
Proof.
  intros Hlen. destruct (preprocess_props points) as (Hs & Hel & _).
  rewrite convex_hull_preprocess. simpl. rewrite decide_False by lia.
  pose proof (is_convex_hull_large points _ Hs Hel Hlen) as Hh.
  set (h := _ ++ _) in Hh |- *.
  destruct (strictly_sorted_ends _ Hs Hlen) as (lo & hi & Hlo & Hhi & Hlh).
  assert (head h = Some lo) as Hhead.
  { apply (hull_start _ _ Hh); [by apply Hel, head_Some_elem_of |].
    intros q Hq. eapply strictly_sorted_head_min; [done | done | by apply Hel]. }
  assert (hi ∈ h) as Hin.
  { apply (hull_max _ _ Hh); [by apply Hel, last_Some_elem_of |].
    intros q Hq. eapply strictly_sorted_last_max; [done | done | by apply Hel]. }
  destruct h as [|x [|y l]]; [done | | simpl; lia].
  injection Hhead as ->. apply list_elem_of_singleton in Hin as ->. by apply lex_lt_ne in Hlh.
Qed.

(** C12. The script's last step on its result: for two or more distinct
    integer points, [displayHullPoints(convex_hull(points))] raises
    nothing, draws a marker at every vertex of the polygon it is given,
    and a closed red path whose segments are exactly the edges of a
    polygon that is the convex hull of the points in the sense of
    [is_convex_hull]: its vertices are distinct input points, it turns
    counter-clockwise, and every input point lies on or left of each
    drawn segment. *)
Theorem display_convex_hull points cv s :
  (2 ≤ length (preprocess points))%nat →
  ∃ t cv', displayHullPoints (pt_Q <$> convex_hull points) s =
             inr (tt, {| trace := trace s ++ t; rng := rng s |}) ∧
    exec_trace cv t = Some cv' ∧
    ∃ h sps, is_convex_hull points h ∧
      (∀ v, v ∈ h → oval_at (pt_Q v) ∈ cv_grobs cv') ∧
      GPath sps g_red ∈ cv_grobs cv' ∧
      path_segments sps = prod_map pt_Q pt_Q <$> cyclic_edges h.
Proof.
  intros Hlen. pose proof (convex_hull_two points Hlen) as H2.
  destruct (display_draws (pt_Q <$> convex_hull points) cv s) as (t & Ht & Hex);
    [by rewrite length_fmap |].
  eexists _, _. split_and!; [exact Ht | exact Hex |].
  exists (convex_hull points), [(pt_Q <$> convex_hull points) ++ take 1 (pt_Q <$> convex_hull points)].
  split_and!; [apply convex_hull_correct | | |].
  - intros v Hv. cbn [cv_grobs]. rewrite !elem_of_app. right; left.
    apply list_elem_of_fmap. exists (pt_Q v). split; [done |]. by apply list_elem_of_fmap_2.
  - cbn [cv_grobs]. rewrite !elem_of_app. right; right. by left.
  - unfold path_segments. rewrite path_segments_closed. apply fmap_cyclic_edges.
Qed.

(** ** Properties of [mark] *)

Lemma mark_cross_emits p : emits (mark p "CROSS"%string) (mark_cmds p).
Proof.
  unfold mark, mark_cmds. simpl String.eqb. cbv iota. emits_steps.
  apply (emits_seq _ _ [BeginPath; MoveTo (p.1 - 2) p.2; LineTo (p.1 + 2) p.2;
                        MoveTo p.1 (p.2 - 2); LineTo p.1 (p.2 + 2); EndPath true] [Pop]);
    emits_steps.
Qed.

(** C13. [mark(p)] with the default style raises nothing and draws one
    grob, the cross through [p].  The transformation depth is restored,
    any open path is discarded, and the fill, stroke and width it set stay
    in force after it returns. *)
Theorem mark_cross_draws p cv s :
  ∃ t, mark p "CROSS"%string s = inr (tt, {| trace := trace s ++ t; rng := rng s |}) ∧
    exec_trace cv t =
    Some {| cv_g := g_mark; cv_depth := cv_depth cv; cv_path := None;
            cv_grobs := cv_grobs cv ++ [cross_at p] |}.
Proof.
  exists (mark_cmds p). split; [apply mark_cross_emits |].
  destruct p as [x y]. reflexivity.
Qed.

(** ** Properties of [createRandomPoints] *)

Lemma random_points_loop_run rs n width height inset pts s :
  random_points_loop rs n width height inset pts s =
  inr (pts ++ gen_points rs (rng s) n width height inset,
       {| trace := trace s ++ mjoin (mark_cmds <$> gen_points rs (rng s) n width height inset);
          rng := rng s + 2 * n |}).
Proof.
  revert pts s. induction n as [|n IH]; intros pts [tr k].
  - simpl. by rewrite !app_nil_r, Nat.add_0_r.
  - cbn [random_points_loop]. unfold mbind, se_bind. cbn [random trace rng]. rewrite mark_cross_emits, IH.
    cbn [gen_points trace rng]. rewrite fmap_cons, mjoin_cons, <- !app_assoc.
    do 3 f_equal. lia.
Qed.

Lemma createRandomPoints_result rs count width height inset s :
  createRandomPoints rs count width height inset s =
  inr (gen_points rs (rng s) count width height inset,
       {| trace := trace s ++ [StrokeWidth 1; Stroke (Gray 0)] ++
                   mjoin (mark_cmds <$> gen_points rs (rng s) count width height inset);
          rng := rng s + 2 * count |}).
Proof.
  destruct s as [tr k]. unfold createRandomPoints, mbind, se_bind.
  cbn [strokewidth stroke emit trace rng].
  rewrite random_points_loop_run. simpl. by rewrite <- !app_assoc.
Qed.

(** C14. [createRandomPoints(count, width, height, inset)] raises nothing,
    reads [2 * count] numbers of the random stream, returns [count] points
    built from them in order, two per point, and emits [strokewidth(1)],
    [stroke(0)] and then one cross mark per point in that order. *)
Theorem createRandomPoints_run rs count width height inset s :
  createRandomPoints rs count width height inset s =
  inr (gen_points rs (rng s) count width height inset,
       {| trace := trace s ++ [StrokeWidth 1; Stroke (Gray 0)] ++
                   mjoin (mark_cmds <$> gen_points rs (rng s) count width height inset);
          rng := rng s + 2 * count |}).
Proof. apply createRandomPoints_result. Qed.

Lemma scaled_in_range a r d : 0 <= r <= 1 → 0 <= d → a <= a + r * d <= a + d.
Proof. intros [Hr0 Hr1] Hd. split; nra. Qed.

Lemma gen_points_bounds rs k n width height inset p :
  (∀ i, 0 <= rs i < 1) → 0 <= width - inset * 2 → 0 <= height - inset * 2 →
  p ∈ gen_points rs k n width height inset →
  (inset <= p.1 <= width - inset) ∧ (inset <= p.2 <= height - inset).
Proof.
  intros Hrs Hw Hh. revert k. induction n as [|n IH]; intros k Hp; [by apply elem_of_nil in Hp |].
  apply elem_of_cons in Hp as [-> | Hp]; [| by apply (IH (S (S k)))]. simpl.
  destruct (Hrs k), (Hrs (S k)).
  pose proof (scaled_in_range inset (rs k) _ ltac:(lra) Hw).
  pose proof (scaled_in_range inset (rs (S k)) _ ltac:(lra) Hh). lra.
Qed.

Lemma length_gen_points rs k n width height inset :
  length (gen_points rs k n width height inset) = n.
Proof. revert k. induction n; intros k; simpl; auto. Qed.

(** C15. When [random()] returns numbers in [[0, 1)] and the canvas is at
    least [2 * inset] wide and high, [createRandomPoints(count, width,
    height, inset)] returns exactly [count] points, all inside the canvas
    less an [inset] margin on each side. *)
Theorem createRandomPoints_bounds rs count width height inset s :
  (∀ i, 0 <= rs i < 1) → 0 <= width - inset * 2 → 0 <= height - inset * 2 →
  ∃ pts s', createRandomPoints rs count width height inset s = inr (pts, s') ∧
    length pts = count ∧
    ∀ p, p ∈ pts → (inset <= p.1 <= width - inset) ∧ (inset <= p.2 <= height - inset).
Proof.
  intros Hrs Hw Hh. eexists _, _. split; [apply createRandomPoints_result |].
  split; [apply length_gen_points |]. intros p. by apply gen_points_bounds.
Qed.

(** ** Witnesses *)

Lemma displayHullPoints_draws_witness :
  (2 ≤ length [(0, 0); (1, 1)])%nat ∧
  ∃ t, displayHullPoints [(0, 0); (1, 1)] {| trace := []; rng := 0 |} =
         inr (tt, {| trace := [] ++ t; rng := 0 |}) ∧
    exec_trace blank_canvas t =
    Some {| cv_g := g_red; cv_depth := 0; cv_path := None;
            cv_grobs := [] ++ (oval_at <$> [(0, 0); (1, 1)]) ++
                        [GPath [[(0, 0); (1, 1)] ++ take 1 [(0, 0); (1, 1)]] g_red] |}.
Proof.
  split; [simpl; lia |].
  apply (displayHullPoints_draws [(0, 0); (1, 1)] blank_canvas {| trace := []; rng := 0 |}).
  simpl; lia.
Defined.

Lemma display_convex_hull_witness :
  (2 ≤ length (preprocess [(0, 0); (3, 1); (1, 2)]%Z))%nat ∧
  ∃ t cv', displayHullPoints (pt_Q <$> convex_hull [(0, 0); (3, 1); (1, 2)]%Z)
             {| trace := []; rng := 0 |} = inr (tt, {| trace := [] ++ t; rng := 0 |}) ∧
    exec_trace blank_canvas t = Some cv' ∧
    ∃ h sps, is_convex_hull [(0, 0); (3, 1); (1, 2)]%Z h ∧
      (∀ v, v ∈ h → oval_at (pt_Q v) ∈ cv_grobs cv') ∧
      GPath sps g_red ∈ cv_grobs cv' ∧
      path_segments sps = prod_map pt_Q pt_Q <$> cyclic_edges h.
Proof.
  split; [vm_compute; lia |].
  apply (display_convex_hull [(0, 0); (3, 1); (1, 2)]%Z blank_canvas {| trace := []; rng := 0 |}).
  vm_compute; lia.
Defined.

Lemma createRandomPoints_bounds_witness :
  (∀ i, 0 <= (λ _ : nat, 1 # 2) i < 1) ∧ 0 <= 800 - inset * 2 ∧ 0 <= 600 - inset * 2 ∧
  ∃ pts s', createRandomPoints (λ _, 1 # 2) 3 800 600 inset {| trace := []; rng := 0 |} =
              inr (pts, s') ∧
    length pts = 3%nat ∧
    ∀ p, p ∈ pts → (inset <= p.1 <= 800 - inset) ∧ (inset <= p.2 <= 600 - inset).
Proof.
  split_and!; [intros; unfold inset; lra | unfold inset; lra | unfold inset; lra |].
  apply (createRandomPoints_bounds (λ _, 1 # 2) 3 800 600 inset {| trace := []; rng := 0 |});
    [intros; lra | unfold inset; lra | unfold inset; lra].
Defined.

(** ** The traces are well typed *)

Lemma mark_cmds_typed p d ps : ⦃ d, ps ⦄ mark_cmds p ⦃ d, NoPath ⦄.
Proof. apply typecheck_trace_sound. reflexivity. Qed.

Lemma marks_typed pts d ps : ∃ ps', ⦃ d, ps ⦄ mjoin (mark_cmds <$> pts) ⦃ d, ps' ⦄.
Proof.
  revert ps. induction pts as [|p pts IH]; intros ps; [eexists; constructor |].
  destruct (IH NoPath) as [ps' Hps']. exists ps'. rewrite fmap_cons, mjoin_cons.
  eapply trace_ok_app; [apply mark_cmds_typed | exact Hps'].
Qed.

Lemma vertices_typed mid d : ⦃ d, PathOpen ⦄ mjoin (vertex_cmds <$> mid) ⦃ d, PathOpen ⦄.
Proof.
  induction mid as [|p mid IH]; [constructor |]. rewrite fmap_cons, mjoin_cons.
  eapply trace_ok_app; [| exact IH]. by apply typecheck_trace_sound.
Qed.

Lemma display_trace_typed o mid ol d ps : ⦃ d, ps ⦄ display_trace o mid ol ⦃ d, NoPath ⦄.
Proof.
  unfold display_trace. eapply trace_ok_app; [by apply typecheck_trace_sound |].
  eapply trace_ok_app; [apply vertices_typed | by apply typecheck_trace_sound].
Qed.

Lemma cv_pstate_NoPath cv : cv_pstate cv = NoPath → cv_path cv = None.
Proof. unfold cv_pstate. by destruct (cv_path cv) as [[]|]. Qed.

(** C26. The demo's command traces are well typed: [mark(p)] and
    [displayHullPoints] of a non-empty outline, run from any depth and
    path state, end at the same depth with no open path, and the trace
    of [createRandomPoints] ends at the depth it started from. *)
Theorem demo_traces_well_typed :
  (∀ p s, ∃ t, mark p "CROSS"%string s = inr (tt, {| trace := trace s ++ t; rng := rng s |}) ∧
     ∀ d ps, ⦃ d, ps ⦄ t ⦃ d, NoPath ⦄) ∧
  (∀ o rest s, ∃ t,
     displayHullPoints (o :: rest) s = inr (tt, {| trace := trace s ++ t; rng := rng s |}) ∧
     ∀ d ps, ⦃ d, ps ⦄ t ⦃ d, NoPath ⦄) ∧
  (∀ rs count width height inset s, ∃ pts s' t,
     createRandomPoints rs count width height inset s = inr (pts, s') ∧ trace s' = trace s ++ t ∧
     ∀ d ps, ∃ ps', ⦃ d, ps ⦄ t ⦃ d, ps' ⦄).
Proof.
  split_and!.
  - intros p s. exists (mark_cmds p). split; [apply mark_cross_emits | apply mark_cmds_typed].
  - intros o rest s. eexists. split; [apply display_emits | intros; apply display_trace_typed].
  - intros rs count width height inset s. do 3 eexists. split; [apply createRandomPoints_result |].
    split; [done |]. intros d ps. destruct (marks_typed (gen_points rs (rng s) count width height inset) d ps)
      as [ps' Hm]. exists ps'. do 2 (eapply typecheck_cmd_ok; [reflexivity |]). exact Hm.
Qed.

(** The trace of [createRandomPoints] is well typed from any state. *)
Lemma random_points_typed pts d ps :
  ∃ ps', ⦃ d, ps ⦄ [StrokeWidth 1; Stroke (Gray 0)] ++ mjoin (mark_cmds <$> pts) ⦃ d, ps' ⦄.
Proof.
  destruct (marks_typed pts d ps) as [ps' Hm]. exists ps'.
  do 2 (eapply typecheck_cmd_ok; [reflexivity |]). exact Hm.
Qed.


Lemma displayHullPoints_empty_witness :
  [(1, 2)] ≠ [] ∧
  ∃ t, displayHullPoints [(1, 2)] {| trace := []; rng := 0 |} =
         inr (tt, {| trace := [] ++ t; rng := 0 |}).
Proof.
  split; [done |].
  apply (proj2 (displayHullPoints_empty [(1, 2)] {| trace := []; rng := 0 |})). done.
Defined.
