(* ===== verification/ConvexScript.v ===== *)
(** * The whole script convexhull.py

    [Demo] models the functions of convexhull.py and the drawing part of
    its body ([main_body]).  This file models the script from its first
    statement to its last:
    - lines 11-15, [try: size(0, 0) except: size(800, 800)], which sizes
      the canvas to the main screen on NodeBox 1.9.13 and later and to
      800 x 800 on an older NodeBox, where [size(0, 0)] raises;
    - lines 135-159: the four readings of [time.time()] around
      [createRandomPoints], [convex_hull] and [displayHullPoints], and the
      six [print] statements, with [round(x, 3)] and ["%.3f"].
    The state [cstate] holds NodeBox's [WIDTH] and [HEIGHT], the state of
    the drawing scripts of [Canvas] (the emitted commands and the random
    stream), the position in the clock's readings, and the lines printed.
    The calls into [Canvas]'s [Script] monad are lifted into it.  NodeBox's
    [size], [time.time()], [round], ["%.3f"] and [print] are library calls,
    modelled by what they do to that state.  As in [main_body], the call
    [convex_hull(points)] on the script's float points is the parameter
    [hull]: [Hull] models [convex_hull] on integer points. *)

From S2P Require Import Prelude Canvas Demo.
From stdpp Require Import strings pretty.
From Stdlib Require Import QArith Qround Qabs Lqa.

(** ** State and library calls *)

(** What the script can raise: an error of the drawing functions, or the
    error of [size(0, 0)] on a NodeBox older than 1.9.13. *)
Inductive exc := ScriptError (e : py_error) | SizeError.

Record cstate := {
  cs_W : Q; cs_H : Q;
  cs_script : sstate;
  cs_tick : nat;
  cs_out : list string
}.

Abbreviation CS := (StateErr cstate exc).

(** The environment a run meets: whether [size(0, 0)] is supported, the
    main screen's size, the readings of [time.time()], and the stream
    [random()] reads. *)
Record env := {
  zero_size_ok : bool;
  screen : Q * Q;
  clock : nat → Q;
  rs : nat → Q
}.

Definition with_size (s : cstate) (w h : Q) : cstate :=
  {| cs_W := w; cs_H := h; cs_script := cs_script s; cs_tick := cs_tick s; cs_out := cs_out s |}.
Definition with_script (s : cstate) (sc : sstate) : cstate :=
  {| cs_W := cs_W s; cs_H := cs_H s; cs_script := sc; cs_tick := cs_tick s; cs_out := cs_out s |}.
Definition with_tick (s : cstate) (k : nat) : cstate :=
  {| cs_W := cs_W s; cs_H := cs_H s; cs_script := cs_script s; cs_tick := k; cs_out := cs_out s |}.
Definition with_out (s : cstate) (o : list string) : cstate :=
  {| cs_W := cs_W s; cs_H := cs_H s; cs_script := cs_script s; cs_tick := cs_tick s; cs_out := o |}.

Definition cs_gets {A} (f : cstate → A) : CS A := λ s, inr (f s, s).

(** NodeBox [size(w, h)]: sets [WIDTH] and [HEIGHT]; [size(0, 0)] means
    the main screen's size where supported, and raises elsewhere. *)
Definition nb_size (e : env) (w h : Q) : CS unit := λ s,
  if Qeq_bool w 0 && Qeq_bool h 0 then
    if zero_size_ok e then inr (tt, with_size s (screen e).1 (screen e).2) else inl SizeError
  else inr (tt, with_size s w h).

(** [time.time()]: the next reading of the clock. *)
Definition time_time (e : env) : CS Q := λ s,
  inr (clock e (cs_tick s), with_tick s (S (cs_tick s))).

(** A call of one of the script's drawing functions. *)
Definition lift_script {A} (m : Script A) : CS A := λ s,
  match m (cs_script s) with
  | inl err => inl (ScriptError err)
  | inr (a, sc) => inr (a, with_script s sc)
  end.

(** [print line] *)
Definition py_print (line : string) : CS unit := se_modify (λ s, with_out s (cs_out s ++ [line])).

(** Python 2's [round(x, 3)]: the nearest multiple of [0.001], halves
    rounded away from zero. *)
Definition py_round3 (x : Q) : Q :=
  let y := x * 1000 in
  let m := if Qle_bool 0 y then Qfloor (y + (1 # 2)) else (- Qfloor (- y + (1 # 2)))%Z in
  inject_Z m / 1000.

(** Three digits, with leading zeros. *)
Definition pad3 (n : Z) : string :=
  (if bool_decide (n < 10)%Z then "00" else if bool_decide (n < 100)%Z then "0" else String.EmptyString)
  +:+ pretty n.

(** ["%.3f" % x] for [x] a multiple of [0.001], which is what the script
    formats: sign, integer part, point, three decimals. *)
Definition fmt3 (x : Q) : string :=
  let m := Qfloor (x * 1000 + (1 # 2)) in
  (if bool_decide (m < 0)%Z then "-" else String.EmptyString) +:+
  pretty (Z.abs m / 1000)%Z +:+ "." +:+ pad3 (Z.abs m mod 1000)%Z.

(** ** The script *)

(** Lines 11-15. *)
Definition size_fallback (e : env) : CS unit :=
  se_catch (nb_size e 0 0) (λ _, nb_size e 800 800).

(** Lines 11-15 and 135-159; [convex_hull] is [hull]. *)
Definition convexhull_script (e : env) (hull : list (Q * Q) → list (Q * Q)) : CS unit :=
  size_fallback e;;
  t_start ← time_time e;
  WIDTH ← cs_gets cs_W;
  HEIGHT ← cs_gets cs_H;
  points ← lift_script (createRandomPoints (rs e) noOfPoints WIDTH HEIGHT inset);
  t_points ← time_time e;
  let outline := hull points in
  let noofhullpoints := length outline in
  t_hull ← time_time e;
  lift_script (displayHullPoints outline);;
  t_display ← time_time e;
  py_print String.EmptyString;;
  py_print ("#Total points: " +:+ pretty (length points));;
  py_print ("#Hull points: " +:+ pretty (length outline));;
  py_print ("Time creating and displaying points: " +:+ fmt3 (py_round3 (t_points - t_start))
            +:+ " sek.");;
  py_print ("Time calculating hull: " +:+ fmt3 (py_round3 (t_hull - t_points)) +:+ " sek.");;
  py_print ("Time displaying hull: " +:+ fmt3 (py_round3 (t_display - t_hull)) +:+ " sek.").

(** ** What a run leaves *)

(** The canvas size lines 11-15 set. *)
Definition fallback_size (e : env) : Q * Q := if zero_size_ok e then screen e else (800, 800).


(** ** Rounding *)



(** ** Running the script *)

Lemma size_fallback_run e s :
  size_fallback e s = inr (tt, with_size s (fallback_size e).1 (fallback_size e).2).
Proof. unfold size_fallback, se_catch, nb_size, fallback_size. simpl. by destruct (zero_size_ok e). Qed.

Lemma lift_script_run {A} (m : Script A) s a sc :
  m (cs_script s) = inr (a, sc) → lift_script m s = inr (a, with_script s sc).
Proof. intros Hm. unfold lift_script. by rewrite Hm. Qed.

Lemma lift_script_fail {A} (m : Script A) s err :
  m (cs_script s) = inl err → lift_script m s = inl (ScriptError err).
Proof. intros Hm. unfold lift_script. by rewrite Hm. Qed.

(** The points the script draws: [createRandomPoints] on the canvas
    size lines 11-15 set, from the script's random stream. *)
Definition script_points (e : env) (s : cstate) : list (Q * Q) :=
  gen_points (rs e) (rng (cs_script s)) noOfPoints (fallback_size e).1 (fallback_size e).2 inset.

Ltac cs_simpl := cbn [cs_W cs_H cs_script cs_tick cs_out with_size with_script with_tick with_out].

Ltac cs_step tac :=
  cs_simpl; lazymatch goal with
  | |- (?m ≫= ?f) ?s = _ => erewrite (se_bind_run m f s); [| tac]
  end.

(** A run whose hull is not empty: the canvas size, four readings of the
    clock, and the six printed lines. *)
Lemma convexhull_script_result e hull s o rest :
  hull (script_points e s) = o :: rest →
  ∃ sc, convexhull_script e hull s =
    inr (tt, {| cs_W := (fallback_size e).1; cs_H := (fallback_size e).2; cs_script := sc;
                cs_tick := S (S (S (S (cs_tick s))));
                cs_out := cs_out s ++
                  [String.EmptyString;
                   "#Total points: " +:+ pretty noOfPoints;
                   "#Hull points: " +:+ pretty (S (length rest));
                   "Time creating and displaying points: " +:+
                     fmt3 (py_round3 (clock e (S (cs_tick s)) - clock e (cs_tick s))) +:+ " sek.";
                   "Time calculating hull: " +:+
                     fmt3 (py_round3 (clock e (S (S (cs_tick s))) - clock e (S (cs_tick s)))) +:+ " sek.";
                   "Time displaying hull: " +:+
                     fmt3 (py_round3 (clock e (S (S (S (cs_tick s)))) - clock e (S (S (cs_tick s)))))
                     +:+ " sek."] |}).
Proof.
  intros Hh. unfold convexhull_script. eexists.
  cs_step ltac:(apply size_fallback_run).
  cs_step ltac:(reflexivity). cs_step ltac:(reflexivity). cs_step ltac:(reflexivity).
  cs_step ltac:(apply lift_script_run, createRandomPoints_result).
  cs_step ltac:(reflexivity). cs_step ltac:(reflexivity).
  cs_simpl. fold (script_points e s). rewrite Hh.
  cs_step ltac:(apply lift_script_run, display_emits).
  cs_step ltac:(reflexivity). unfold py_print, se_modify, mbind, se_bind. cs_simpl.
  rewrite <- !app_assoc. unfold script_points. rewrite length_gen_points. reflexivity.
Qed.

(** A run whose hull is empty raises [IndexError] in [displayHullPoints],
    after the points are drawn and before anything is printed. *)
Lemma convexhull_script_empty e hull s :
  hull (script_points e s) = [] → convexhull_script e hull s = inl (ScriptError IndexError).
Proof.
  intros Hh. unfold convexhull_script.
  cs_step ltac:(apply size_fallback_run).
  cs_step ltac:(reflexivity). cs_step ltac:(reflexivity). cs_step ltac:(reflexivity).
  cs_step ltac:(apply lift_script_run, createRandomPoints_result).
  cs_step ltac:(reflexivity). cs_step ltac:(reflexivity).
  cs_simpl. fold (script_points e s). rewrite Hh.
  apply se_bind_fail, lift_script_fail. reflexivity.
Qed.

Lemma pretty_noOfPoints : pretty noOfPoints = "10000".
Proof. vm_compute. reflexivity. Qed.

(** ** Properties *)

(** C33. convexhull.py from its first line to its last.  Lines 11-15 size
    the canvas to the main screen where [size(0, 0)] is supported and to
    800 x 800 where it raises, and [createRandomPoints] draws its 10000
    points on that canvas.  When [convex_hull] returns an empty outline,
    [displayHullPoints] raises [IndexError] and nothing is printed.
    Otherwise the run raises nothing, reads the clock four times, and
    prints a blank line, the number of points, the number of hull points,
    and the three intervals between the readings rounded by [round(x, 3)]
    and formatted by ["%.3f"]. *)
Theorem convexhull_script_output e hull s :
  (hull (script_points e s) = [] → convexhull_script e hull s = inl (ScriptError IndexError)) ∧
  (hull (script_points e s) ≠ [] →
   ∃ s', convexhull_script e hull s = inr (tt, s') ∧
     (cs_W s', cs_H s') = (if zero_size_ok e then screen e else (800, 800)) ∧
     cs_tick s' = (cs_tick s + 4)%nat ∧
     cs_out s' = cs_out s ++
       [String.EmptyString;
        "#Total points: 10000";
        "#Hull points: " +:+ pretty (length (hull (script_points e s)));
        "Time creating and displaying points: " +:+
          fmt3 (py_round3 (clock e (cs_tick s + 1) - clock e (cs_tick s))) +:+ " sek.";
        "Time calculating hull: " +:+
          fmt3 (py_round3 (clock e (cs_tick s + 2) - clock e (cs_tick s + 1))) +:+ " sek.";
        "Time displaying hull: " +:+
          fmt3 (py_round3 (clock e (cs_tick s + 3) - clock e (cs_tick s + 2))) +:+ " sek."]).
Proof.
  split; [apply convexhull_script_empty |].
  destruct (hull (script_points e s)) as [|o rest] eqn:Hh; [done |]. intros _.
  destruct (convexhull_script_result e hull s o rest Hh) as [sc Hrun].
  eexists. split; [exact Hrun |]. cbn [cs_W cs_H cs_tick cs_out].
  rewrite pretty_noOfPoints, !Nat.add_succ_r, !Nat.add_0_r. split_and!; [| lia | done].
  unfold fallback_size. destruct (zero_size_ok e); [by destruct (screen e) | done].
Qed.



(** ** Witnesses *)

(** A NodeBox that supports [size(0, 0)] on a 1440 x 900 screen, a clock
    that ticks one second per reading, and a hull function that never
    returns an empty outline. *)
Definition sample_env : env :=
  {| zero_size_ok := true; screen := (1440, 900); clock := λ n, inject_Z (Z.of_nat n);
     rs := λ _, 1 # 2 |}.

Definition sample_state : cstate :=
  {| cs_W := 0; cs_H := 0; cs_script := {| trace := []; rng := 0 |}; cs_tick := 0; cs_out := [] |}.


Lemma convexhull_script_output_witness :
  (λ pts : list (Q * Q), (0, 0) :: pts) (script_points sample_env sample_state) ≠ [] ∧
  ∃ s', convexhull_script sample_env (λ pts, (0, 0) :: pts) sample_state = inr (tt, s') ∧
    (cs_W s', cs_H s') = (1440, 900) ∧ cs_tick s' = 4%nat.
Proof.
  split; [done |].
  destruct (proj2 (convexhull_script_output sample_env (λ pts, (0, 0) :: pts) sample_state))
    as (s' & Hrun & Hsize & Htick & _); [done |].
  exists s'. split_and!; [exact Hrun | exact Hsize | exact Htick].
Defined.
