(* ===== verification/Normalize.v ===== *)
(** * [MidpointNormalize] of colormap_normalizations.py

    The class (lines 128-137) maps data values to [[0, 1]] with two
    linear ramps: [vmin] to [midpoint] onto [[0, 0.5]], [midpoint] to
    [vmax] onto [[0.5, 1]], by [np.interp(value, [vmin, midpoint, vmax],
    [0, 0.5, 1])].  numpy's [np.interp] is modelled from its C code
    ([arr_interp] with [binary_search_with_guess]): values above the last
    sample point give the last value, then values below the first give
    the first, a value at the last point or at a sample point gives that
    point's value, and the others the linear interpolation of their
    interval.  [Normalize.autoscale_None], which pyplot calls on the data
    before normalizing, sets [vmin] and [vmax] to the data's minimum and
    maximum where they are [None].  Values are rationals. *)

From S2P Require Import Prelude.
From Stdlib Require Import QArith Qminmax Lqa.

Open Scope Q_scope.

(** ** numpy's [np.interp] *)

(** [binary_search_with_guess] for [xp[0] <= x <= xp[-1]] on increasing
    sample points: the [j] with [xp[j] <= x < xp[j+1]], or the last index
    when [x] is the last point. *)
Fixpoint search_seg (x : Q) (xp : list Q) (j : nat) : nat :=
  match xp with
  | _ :: ((b :: _) as rest) => if Qlt_le_dec x b then j else search_seg x rest (S j)
  | _ => j
  end.

(** [np.interp] raises [ValueError] on no sample points or on [xp] and
    [fp] of different lengths. *)
Definition interp_valid (xp fp : list Q) : bool :=
  negb (length xp =? 0)%nat && (length xp =? length fp)%nat.

(** One value of [np.interp(x, xp, fp)], on valid sample points. *)
Definition interp_at (xp fp : list Q) (x : Q) : Q :=
  let n := length xp in
  let xs := λ i, default 0 (xp !! i) in
  let fs := λ i, default 0 (fp !! i) in
  if Qlt_le_dec (xs (n - 1)%nat) x then fs (n - 1)%nat
  else if Qlt_le_dec x (xs 0%nat) then fs 0%nat
  else
    let j := search_seg x xp 0 in
    if (j =? n - 1)%nat then fs j
    else if Qeq_bool (xs j) x then fs j
    else let slope := (fs (S j) - fs j) / (xs (S j) - xs j) in
         slope * (x - xs j) + fs j.

Definition np_interp (value xp fp : list Q) : option (list Q) :=
  if interp_valid xp fp then Some (interp_at xp fp <$> value) else None.

(** ** The class *)

(** The attributes: [vmin], [vmax] and [clip] of [colors.Normalize], and
    [midpoint]; [None] is Python's [None]. *)
Record MidpointNormalize := {
  vmin : option Q; vmax : option Q; midpoint : option Q; clip : bool
}.

(** [MidpointNormalize.__init__], lines 129-131. *)
Definition MidpointNormalize_init (vmin vmax midpoint : option Q) (clip : bool)
    : MidpointNormalize :=
  {| vmin := vmin; vmax := vmax; midpoint := midpoint; clip := clip |}.

(** [MidpointNormalize.__call__], lines 133-137: [None] where an
    attribute is still [None] (numpy cannot compare it) or where
    [np.interp] raises; [np.ma.masked_array] keeps the values. *)
Definition MidpointNormalize_call (self : MidpointNormalize) (value : list Q)
    : option (list Q) :=
  match vmin self, midpoint self, vmax self with
  | Some a, Some m, Some b =>
      let x := [a; m; b] in
      let y := [0; 1 # 2; 1] in
      np_interp value x y
  | _, _, _ => None
  end.

(** [Normalize.autoscale_None(A)] of matplotlib, on non-empty data. *)
Definition list_min (A : list Q) : Q := match A with [] => 0 | a :: l => foldr Qmin a l end.
Definition list_max (A : list Q) : Q := match A with [] => 0 | a :: l => foldr Qmax a l end.

Definition autoscale_None (A : list Q) (self : MidpointNormalize) : MidpointNormalize :=
  {| vmin := Some (default (list_min A) (vmin self));
     vmax := Some (default (list_max A) (vmax self));
     midpoint := midpoint self; clip := clip self |}.

(** Lines 141-143: [pcolormesh(X, Y, Z1, norm=MidpointNormalize(midpoint=0.))]
    normalizes the data [Z1] with the norm scaled to it. *)
Definition custom_norm_colors (Z1 : list Q) : option (list Q) :=
  let norm := MidpointNormalize_init None None (Some 0) false in
  MidpointNormalize_call (autoscale_None Z1 norm) Z1.

(** The two ramps the class is meant to compute. *)
Definition two_ramps (a m b v : Q) : Q :=
  if Qlt_le_dec b v then 1
  else if Qlt_le_dec v a then 0
  else if Qlt_le_dec v m then (v - a) / (m - a) * (1 # 2)
  else (1 # 2) + (v - m) / (b - m) * (1 # 2).

(** ** Ratios *)

Lemma ratio_bounds lo hi x : lo < hi → lo <= x <= hi → 0 <= (x - lo) / (hi - lo) <= 1.
Proof.
  intros Hlh [Hl Hh]. split.
  - apply Qle_shift_div_l; lra.
  - apply Qle_shift_div_r; lra.
Qed.

Lemma ratio_mono lo hi x y : lo < hi → x <= y → (x - lo) / (hi - lo) <= (y - lo) / (hi - lo).
Proof. intros Hlh Hxy. apply Qmult_le_r with (hi - lo); [lra |]. field_simplify; lra. Qed.

(** Add the bounds of every ratio of the goal whose point is in range,
    and the order of every two ratios over the same interval. *)
Ltac ratio_facts :=
  repeat match goal with
  | |- context [(?x - ?lo) / (?hi - ?lo)] =>
      lazymatch goal with
      | _ : 0 <= (x - lo) / (hi - lo) <= 1 |- _ => fail
      | _ => assert (0 <= (x - lo) / (hi - lo) <= 1) by (apply ratio_bounds; lra)
      end
  end;
  repeat match goal with
  | |- context [(?x - ?lo) / (?hi - ?lo)] =>
      match goal with
      | |- context [(?y - lo) / (hi - lo)] =>
          lazymatch goal with
          | _ : (x - lo) / (hi - lo) <= (y - lo) / (hi - lo) |- _ => fail
          | _ => assert ((x - lo) / (hi - lo) <= (y - lo) / (hi - lo)) by (apply ratio_mono; lra)
          end
      end
  end.

(** ** [np.interp] on three sample points *)

Section ThreePoints.
Variables a m b : Q.
Hypothesis Ham : a < m.
Hypothesis Hmb : m < b.

Lemma interp_at_two_ramps v : interp_at [a; m; b] [0; 1 # 2; 1] v == two_ramps a m b v.
Proof.
  unfold interp_at, two_ramps. cbn -[Qlt_le_dec Qeq_bool].
  destruct (Qlt_le_dec b v); [reflexivity |]. destruct (Qlt_le_dec v a); [reflexivity |].
  destruct (Qlt_le_dec v m); cbn -[Qlt_le_dec Qeq_bool].
  - destruct (Qeq_bool a v) eqn:E; [apply Qeq_bool_iff in E; rewrite <- E |]; field; lra.
  - destruct (Qlt_le_dec v b); cbn -[Qeq_bool].
    + destruct (Qeq_bool m v) eqn:E; [apply Qeq_bool_iff in E; rewrite <- E |]; field; lra.
    + assert (v == b) as -> by lra. field. lra.
Qed.

Lemma two_ramps_bounds v : 0 <= two_ramps a m b v <= 1.
Proof.
  unfold two_ramps.
  destruct (Qlt_le_dec b v), (Qlt_le_dec v a), (Qlt_le_dec v m); ratio_facts; lra.
Qed.

Lemma two_ramps_mono v w : v <= w → two_ramps a m b v <= two_ramps a m b w.
Proof.
  intros Hvw. unfold two_ramps.
  destruct (Qlt_le_dec b v), (Qlt_le_dec v a), (Qlt_le_dec v m),
    (Qlt_le_dec b w), (Qlt_le_dec w a), (Qlt_le_dec w m); ratio_facts; lra.
Qed.

Lemma two_ramps_points :
  two_ramps a m b a == 0 ∧ two_ramps a m b m == 1 # 2 ∧ two_ramps a m b b == 1.
Proof.
  unfold two_ramps. split_and!;
    repeat (destruct Qlt_le_dec; try lra); field; lra.
Qed.

#[local] Instance two_ramps_proper : Proper (Qeq ==> Qeq) (two_ramps a m b).
Proof. intros v w Hvw. apply Qle_antisym; apply two_ramps_mono; lra. Qed.

Lemma two_ramps_at_midpoint v : v == m → two_ramps a m b v == 1 # 2.
Proof. intros ->. apply two_ramps_points. Qed.

Lemma interp_at_two_ramps_list value :
  Forall2 (λ v r, r == two_ramps a m b v) value (interp_at [a; m; b] [0; 1 # 2; 1] <$> value).
Proof.
  apply Forall2_fmap_r, Forall_Forall2_diag, Forall_forall. intros v _.
  apply interp_at_two_ramps.
Qed.

End ThreePoints.

Lemma MidpointNormalize_call_three self a m b value :
  vmin self = Some a → midpoint self = Some m → vmax self = Some b →
  MidpointNormalize_call self value = Some (interp_at [a; m; b] [0; 1 # 2; 1] <$> value).
Proof. intros Ha Hm Hb. unfold MidpointNormalize_call. by rewrite Ha, Hm, Hb. Qed.

Lemma foldr_Qmin_le a l v : v ∈ a :: l → foldr Qmin a l <= v.
Proof.
  induction l as [|c l IH]; simpl.
  - intros ->%list_elem_of_singleton. lra.
  - intros [-> | [-> | Hv]%elem_of_cons]%elem_of_cons.
    + pose proof (IH (list_elem_of_here _ _)). pose proof (Q.le_min_r c (foldr Qmin a l)). lra.
    + apply Q.le_min_l.
    + pose proof (IH (list_elem_of_further _ _ _ Hv)). pose proof (Q.le_min_r c (foldr Qmin a l)). lra.
Qed.

Lemma foldr_Qmax_ge a l v : v ∈ a :: l → v <= foldr Qmax a l.
Proof.
  induction l as [|c l IH]; simpl.
  - intros ->%list_elem_of_singleton. lra.
  - intros [-> | [-> | Hv]%elem_of_cons]%elem_of_cons.
    + pose proof (IH (list_elem_of_here _ _)). pose proof (Q.le_max_r c (foldr Qmax a l)). lra.
    + apply Q.le_max_l.
    + pose proof (IH (list_elem_of_further _ _ _ Hv)). pose proof (Q.le_max_r c (foldr Qmax a l)). lra.
Qed.

Lemma list_min_max A v : v ∈ A → list_min A <= v <= list_max A.
Proof.
  destruct A as [|a l]; [by intros ?%elem_of_nil |]. intros Hv.
  split; [by apply foldr_Qmin_le | by apply foldr_Qmax_ge].
Qed.

(** Sample points out of order: with [0 < a <= v <= b], [np.interp] on
    [[a, 0, b]] finds [v] in the segment from [0] to [b]. *)
Lemma interp_at_above a b v :
  0 < a → a <= v → v <= b → interp_at [a; 0; b] [0; 1 # 2; 1] v == (1 # 2) + v / (2 * b).
Proof.
  intros Ha Hav Hvb. unfold interp_at. cbn [length lookup default list_lookup].
  simpl (_ - _)%nat. cbn.
  destruct (Qlt_le_dec b v) as [Hbv|_]; [lra |].
  destruct (Qlt_le_dec v a) as [Hva|_]; [lra |].
  destruct (Qlt_le_dec v 0) as [Hv0|_]; [lra |]. cbn.
  destruct (Qlt_le_dec v b) as [Hlt|Hge]; cbn.
  - destruct (Qeq_bool 0 v) eqn:E; [apply Qeq_bool_iff in E; lra |]. cbn. field. lra.
  - assert (v == b) as Hvb' by lra. rewrite Hvb'. field. lra.
Qed.

Lemma half_plus_ratio_bounds v b : 0 < v → v <= b → 1 # 2 < (1 # 2) + v / (2 * b) <= 1.
Proof.
  intros Hv Hvb. assert (0 < 2 * b) as Hb by lra. split.
  - assert (0 < v / (2 * b)); [| lra]. apply Qlt_shift_div_l; lra.
  - assert (v / (2 * b) <= 1 # 2); [| lra]. apply Qle_shift_div_r; lra.
Qed.

(** ** Properties of [MidpointNormalize] *)

(** C20. When [vmin < midpoint < vmax], [MidpointNormalize.__call__]
    raises nothing and maps each value to the two linear ramps: [0] at
    and below [vmin], [0.5] at [midpoint], [1] at and above [vmax], and
    linear on [[vmin, midpoint]] and on [[midpoint, vmax]]. *)
Theorem MidpointNormalize_call_spec self a m b value :
  vmin self = Some a → midpoint self = Some m → vmax self = Some b → a < m → m < b →
  ∃ l, MidpointNormalize_call self value = Some l ∧
    Forall2 (λ v r, r == two_ramps a m b v) value l.
Proof.
  intros Ha Hm Hb Ham Hmb. eexists. split; [by apply MidpointNormalize_call_three |].
  by apply interp_at_two_ramps_list.
Qed.

(** C21. When [vmin < midpoint < vmax], the normalized values lie in
    [[0, 1]], keep the order of the data, and a value equal to
    [midpoint] is mapped to [0.5]. *)
Theorem MidpointNormalize_call_order self a m b value l :
  vmin self = Some a → midpoint self = Some m → vmax self = Some b → a < m → m < b →
  MidpointNormalize_call self value = Some l →
  (∀ r, r ∈ l → 0 <= r <= 1) ∧
  (∀ i j v w r s, value !! i = Some v → value !! j = Some w → l !! i = Some r →
     l !! j = Some s → v <= w → r <= s) ∧
  (∀ i v r, value !! i = Some v → l !! i = Some r → v == m → r == 1 # 2).
Proof.
  intros Ha Hm Hb Ham Hmb Hcall.
  rewrite (MidpointNormalize_call_three self a m b value Ha Hm Hb) in Hcall.
  injection Hcall as <-. pose proof (interp_at_two_ramps a m b Ham Hmb) as Hi. split_and!.
  - intros r (v & -> & _)%list_elem_of_fmap. rewrite Hi. by apply two_ramps_bounds.
  - intros i j v w r s Hv Hw Hr Hs Hvw.
    rewrite list_lookup_fmap, Hv in Hr. rewrite list_lookup_fmap, Hw in Hs.
    injection Hr as <-. injection Hs as <-. rewrite !Hi. by apply two_ramps_mono.
  - intros i v r Hv Hr Hvm. rewrite list_lookup_fmap, Hv in Hr. injection Hr as <-.
    rewrite Hi. by apply two_ramps_at_midpoint.
Qed.

(** C22. The custom norm of the script, [MidpointNormalize(midpoint=0.)]
    scaled to data [Z1] whose minimum is negative and maximum positive,
    maps the data by the two ramps from [min(Z1)] through [0] to
    [max(Z1)], into [[0, 1]]. *)
Theorem custom_norm_colors_spec Z1 :
  list_min Z1 < 0 → 0 < list_max Z1 →
  ∃ l, custom_norm_colors Z1 = Some l ∧
    Forall2 (λ v r, r == two_ramps (list_min Z1) 0 (list_max Z1) v) Z1 l ∧
    ∀ r, r ∈ l → 0 <= r <= 1.
Proof.
  intros Hmin Hmax. eexists. split_and!.
  - by apply MidpointNormalize_call_three.
  - by apply interp_at_two_ramps_list.
  - intros r (v & -> & _)%list_elem_of_fmap. rewrite interp_at_two_ramps by done.
    by apply two_ramps_bounds.
Qed.

(** C23. On data that lies above the midpoint [0], the sample points
    [[vmin, 0, vmax]] are out of order and [np.interp] does not give the
    two ramps: every value [v] is mapped to [0.5 + v / (2 vmax)], above
    [0.5].  The lower half of the colormap is never used, and [vmin] is
    not mapped to [0]. *)
Theorem custom_norm_all_positive Z1 :
  0 < list_min Z1 →
  ∃ l, custom_norm_colors Z1 = Some l ∧
    Forall2 (λ v r, r == (1 # 2) + v / (2 * list_max Z1)) Z1 l ∧
    ∀ r, r ∈ l → 1 # 2 < r <= 1.
Proof.
  intros Hmin. eexists. split; [reflexivity |]. split.
  - apply Forall2_fmap_r, Forall_Forall2_diag, Forall_forall. intros v Hv.
    destruct (list_min_max Z1 v Hv). by apply interp_at_above.
  - intros r (v & -> & Hv)%list_elem_of_fmap. destruct (list_min_max Z1 v Hv).
    rewrite interp_at_above by done. apply half_plus_ratio_bounds; cbn; lra.
Qed.

(** ** Witnesses *)

Lemma MidpointNormalize_call_spec_witness :
  let self := MidpointNormalize_init (Some (-1)) (Some 2) (Some 0) false in
  vmin self = Some (-1) ∧ midpoint self = Some 0 ∧ vmax self = Some 2 ∧ -1 < 0 ∧ 0 < 2 ∧
  ∃ l, MidpointNormalize_call self [-1; 0; 1] = Some l ∧
    Forall2 (λ v r, r == two_ramps (-1) 0 2 v) [-1; 0; 1] l.
Proof.
  intros self. split_and!; [done | done | done | by vm_compute | by vm_compute |].
  apply (MidpointNormalize_call_spec self (-1) 0 2); [done | done | done | by vm_compute | by vm_compute].
Defined.

Lemma MidpointNormalize_call_order_witness :
  let self := MidpointNormalize_init (Some (-1)) (Some 2) (Some 0) false in
  let l := interp_at [-1; 0; 2] [0; 1 # 2; 1] <$> [-1; 0; 1] in
  vmin self = Some (-1) ∧ midpoint self = Some 0 ∧ vmax self = Some 2 ∧ -1 < 0 ∧ 0 < 2 ∧
  MidpointNormalize_call self [-1; 0; 1] = Some l ∧
  (∀ r, r ∈ l → 0 <= r <= 1) ∧
  (∀ i j v w r s, [-1; 0; 1] !! i = Some v → [-1; 0; 1] !! j = Some w → l !! i = Some r →
     l !! j = Some s → v <= w → r <= s) ∧
  (∀ i v r, [-1; 0; 1] !! i = Some v → l !! i = Some r → v == 0 → r == 1 # 2).
Proof.
  intros self l. split_and!; [done | done | done | by vm_compute | by vm_compute | done | ..];
    apply (MidpointNormalize_call_order self (-1) 0 2 [-1; 0; 1] l);
    solve [done | by vm_compute].
Defined.

Lemma custom_norm_colors_spec_witness :
  list_min [-1; 0; 2] < 0 ∧ 0 < list_max [-1; 0; 2] ∧
  ∃ l, custom_norm_colors [-1; 0; 2] = Some l ∧
    Forall2 (λ v r, r == two_ramps (list_min [-1; 0; 2]) 0 (list_max [-1; 0; 2]) v) [-1; 0; 2] l ∧
    ∀ r, r ∈ l → 0 <= r <= 1.
Proof.
  split_and!; [by vm_compute | by vm_compute |].
  apply custom_norm_colors_spec; by vm_compute.
Defined.

Lemma custom_norm_all_positive_witness :
  0 < list_min [1; 3 # 2; 2] ∧
  ∃ l, custom_norm_colors [1; 3 # 2; 2] = Some l ∧
    Forall2 (λ v r, r == (1 # 2) + v / (2 * list_max [1; 3 # 2; 2])) [1; 3 # 2; 2] l ∧
    ∀ r, r ∈ l → 1 # 2 < r <= 1.
Proof.
  split; [by vm_compute |]. apply custom_norm_all_positive. by vm_compute.
Defined.
