(* ===== verification/Pyplot.v ===== *)
(** * The pyplot state the matplotlib example scripts change

    matplotlib is a library the scripts call, not code of the repository.
    This file models the part of [matplotlib.pyplot] they use, by its
    effect on a store of figures: each figure has a number, a size in
    inches and a list of axes; an axes has a kind, the artists drawn in it
    and the properties set on it.  Python's [fig], [ax], [ax[0]] and the
    mappable a [pcolor] call returns are references into that store
    (figure number, axes index, artist index): [ax[0].pcolor(...)] changes
    the figure [fig] refers to.  [plt.subplots], [plt.figure] and
    [savefig] act on the current figure, created with the default size
    6.4 by 4.8 inches when there is none ([gcf]).  [savefig] at [dpi]
    writes a picture of [int(width * dpi)] by [int(height * dpi)] pixels.
    [Divider] and its locators are values, placed by [locate] as
    mpl_toolkits does with [aspect=False]: fixed sizes in inches, the
    scaled ones sharing the rest of the rectangle in proportion. *)

From S2P Require Import Prelude Normalize.
From stdpp Require Import strings.
From Stdlib Require Import QArith Qround Lqa.

(** ** Values *)

Inductive exc := IOError | OSError | IndexError | TypeError | AttributeError.

(** [Size.Scaled(a)] and [Size.Fixed(b)] of [mpl_toolkits.axes_grid1]. *)
Inductive axsize := Scaled (a : Q) | Fixed (b : Q).

(** A rectangle [(left, bottom, width, height)] in figure fractions. *)
Record rect := { r_left : Q; r_bottom : Q; r_width : Q; r_height : Q }.

(** [Divider(fig, rect, horiz, vert, aspect)]. *)
Record divider := {
  dv_fig : nat; dv_rect : rect; dv_horiz : list axsize; dv_vert : list axsize; dv_aspect : bool
}.

(** [divider.new_locator(nx, ny, nx1, ny1)]: the cells [nx <= i < nx1],
    [ny <= j < ny1]. *)
Record locator := { lc_divider : divider; lc_nx : nat; lc_ny : nat; lc_nx1 : nat; lc_ny1 : nat }.

(** The [norm=] argument of [pcolor] and [pcolormesh]. *)
Inductive norm :=
  | DefaultNorm (vmin : option Q)
  | LogNorm (vmin vmax : Q)
  | PowerNorm (gamma : Q)
  | SymLogNorm (linthresh linscale vmin vmax : Q)
  | MidpointNorm (n : MidpointNormalize)
  | BoundaryNorm (boundaries : list Q) (ncolors : nat).

Inductive mesh_kind := Pcolor | Pcolormesh.

Inductive artist :=
  | Mesh (kind : mesh_kind) (nm : norm) (cmap : string)
  | Line (linewidth : Q).

Inductive axes_prop :=
  | XLim (a b : Q) | YLim (a b : Q)
  | XTicks (l : list Q) | YTicks (l : list Q)
  | TickParams (labelbottom labelleft : bool)
  | Locator (l : locator).

(** A subplot at [(row, col)], an axes added with [add_axes(rect,
    label)], or the colorbar of a mappable, stolen from a parent axes. *)
Inductive axes_kind :=
  | Subplot (row col : nat)
  | Added (r : rect) (label : string)
  | ColorbarAxes (parent : nat) (mappable_axes mappable_artist : nat) (extend orientation : string).

Record axes := { ax_kind : axes_kind; ax_artists : list artist; ax_props : list axes_prop }.

Record figure := { fig_num : nat; fig_size : Q * Q; fig_axes : list axes }.

Record pyplot := { figures : list figure; cur : option nat }.

Abbreviation PLT := (StateErr pyplot exc).

(** An axes of a figure: the figure's number and the index of the axes. *)
Definition axh : Type := nat * nat.
(** A mappable: its axes and the index of the artist in it. *)
Definition mappable : Type := axh * nat.

(** What [plt.subplots] returns for the axes: one axes, or the array of
    them ([squeeze=True]). *)
Inductive axval := AxOne (h : axh) | AxArr (hs : list axh).

(** Rationals compared as written, as the script's constants are. *)
#[export] Instance Q_eq_dec : EqDecision Q.
Proof. intros [a b] [c d]. unfold Decision. decide equality; [apply Pos.eq_dec | apply Z.eq_dec]. Defined.
#[export] Instance axsize_eq_dec : EqDecision axsize.
Proof. solve_decision. Defined.
#[export] Instance rect_eq_dec : EqDecision rect.
Proof. solve_decision. Defined.
#[export] Instance axes_kind_eq_dec : EqDecision axes_kind.
Proof. solve_decision. Defined.

(** ** The store *)

Definition default_figsize : Q * Q := (32 # 5, 24 # 5).

Definition find_fig (p : pyplot) (num : nat) : option figure :=
  snd <$> list_find (λ f, fig_num f = num) (figures p).

Definition update_fig (num : nat) (g : figure → figure) (p : pyplot) : pyplot :=
  {| figures := (λ f, if decide (fig_num f = num) then g f else f) <$> figures p; cur := cur p |}.

Definition with_axes (f : figure) (axs : list axes) : figure :=
  {| fig_num := fig_num f; fig_size := fig_size f; fig_axes := axs |}.

(** The number [plt.figure()] gives a new figure: one more than the
    largest in use. *)
Definition next_num (p : pyplot) : nat := S (foldr max 0%nat (fig_num <$> figures p)).

Definition new_figure (num : nat) (size : Q * Q) : PLT nat := λ p,
  inr (num, {| figures := figures p ++ [{| fig_num := num; fig_size := size; fig_axes := [] |}];
               cur := Some num |}).

(** [plt.gcf()]: the current figure, a new one of the default size when
    there is none. *)
Definition gcf : PLT nat := λ p,
  match cur p with
  | Some n => inr (n, p)
  | None => new_figure (next_num p) default_figsize p
  end.

(** The figure a handle refers to; [IndexError] where it was closed. *)
Definition get_fig (num : nat) : PLT figure := λ p,
  match find_fig p num with Some f => inr (f, p) | None => inl IndexError end.

(** Add an axes to a figure; its handle. *)
Definition add_axes (num : nat) (a : axes) : PLT axh :=
  f ← get_fig num;
  se_modify (update_fig num (λ f, with_axes f (fig_axes f ++ [a])));;
  mret (num, length (fig_axes f)).

(** Change the axes a handle refers to; [IndexError] out of range. *)
Definition alter_axes (h : axh) (g : axes → axes) : PLT unit :=
  f ← get_fig h.1;
  if decide (h.2 < length (fig_axes f))%nat
  then se_modify (update_fig h.1 (λ f, with_axes f (alter g h.2 (fig_axes f))))
  else mthrow IndexError.

Definition empty_axes (k : axes_kind) : axes := {| ax_kind := k; ax_artists := []; ax_props := [] |}.

Definition add_artist (x : artist) (a : axes) : axes :=
  {| ax_kind := ax_kind a; ax_artists := ax_artists a ++ [x]; ax_props := ax_props a |}.
Definition add_prop (x : axes_prop) (a : axes) : axes :=
  {| ax_kind := ax_kind a; ax_artists := ax_artists a; ax_props := ax_props a ++ [x] |}.
Definition clear_axes (a : axes) : axes := empty_axes (ax_kind a).

(** ** The pyplot calls *)

(** [plt.figure(num, figsize)]: the figure [num], made current; created
    with [figsize] when there is none. *)
Definition plt_figure (num : nat) (figsize : Q * Q) : PLT nat := λ p,
  match find_fig p num with
  | Some _ => inr (num, {| figures := figures p; cur := Some num |})
  | None => new_figure num figsize p
  end.

(** [plt.subplots(nrows, ncols, figsize=figsize)]: a new figure with a
    grid of subplots, row by row. *)
Definition plt_subplots (nrows ncols : nat) (figsize : option (Q * Q)) : PLT (nat * axval) :=
  p ← se_get;
  num ← new_figure (next_num p) (default default_figsize figsize);
  hs ← mapM (λ i, add_axes num (empty_axes (Subplot (i `div` ncols) (i `mod` ncols))))
             (seq 0 (nrows * ncols)%nat);
  mret (num, match hs with [h] => AxOne h | _ => AxArr hs end).

(** [ax[i]] and [ax.flatten()] on what [plt.subplots] returns. *)
Definition ax_index (v : axval) (i : nat) : PLT axh :=
  match v with
  | AxArr hs => match hs !! i with Some h => mret h | None => mthrow IndexError end
  | AxOne _ => mthrow TypeError
  end.
Definition ax_flatten (v : axval) : axval := v.

(** A single axes, as [plt.subplots()] returns it; the array has no
    [plot] method. *)
Definition ax_one (v : axval) : PLT axh :=
  match v with AxOne h => mret h | AxArr _ => mthrow AttributeError end.

(** [l[i]] on a Python list of axes. *)
Definition list_index (l : list axh) (i : nat) : PLT axh :=
  match l !! i with Some h => mret h | None => mthrow IndexError end.

(** [fig.add_axes(rect, label=label)]: as matplotlib 2 does, the axes
    already added with the same rectangle and label, or a new one. *)
Definition fig_add_axes (num : nat) (r : rect) (label : string) : PLT axh :=
  f ← get_fig num;
  match list_find (λ a, ax_kind a = Added r label) (fig_axes f) with
  | Some (i, _) => mret (num, i)
  | None => add_axes num (empty_axes (Added r label))
  end.

(** [ax.pcolor(X, Y, Z, norm=nm, cmap=cmap)] and [ax.pcolormesh]: the
    mappable. *)
Definition ax_mesh (kind : mesh_kind) (h : axh) (nm : norm) (cmap : string) : PLT mappable :=
  f ← get_fig h.1;
  let n := default 0%nat (length ∘ ax_artists <$> fig_axes f !! h.2) in
  alter_axes h (add_artist (Mesh kind nm cmap));;
  mret (h, n).

(** [fig.colorbar(pcm, ax=ax, extend=..., orientation=...)]. *)
Definition fig_colorbar (num : nat) (m : mappable) (parent : axh) (extend orientation : string)
    : PLT axh :=
  add_axes num (empty_axes (ColorbarAxes parent.2 m.1.2 m.2 extend orientation)).

Definition ax_plot (h : axh) (linewidth : Q) : PLT unit := alter_axes h (add_artist (Line linewidth)).
Definition ax_set (h : axh) (x : axes_prop) : PLT unit := alter_axes h (add_prop x).

(** [plt.cla()]: clear the current axes of the current figure, made
    with one subplot when it has none. *)
Definition plt_cla : PLT unit :=
  num ← gcf;
  f ← get_fig num;
  match fig_axes f with
  | [] => add_axes num (empty_axes (Subplot 0 0));; mret tt
  | axs => alter_axes (num, length axs - 1)%nat clear_axes
  end.

(** [plt.clf()]: remove all axes of the current figure. *)
Definition plt_clf : PLT unit :=
  num ← gcf;
  se_modify (update_fig num (λ f, with_axes f [])).

(** [plt.close('all')]. *)
Definition plt_close_all : PLT unit := se_modify (λ _, {| figures := []; cur := None |}).

(** The size in pixels of a figure saved at [dpi]. *)
Definition fig_pixels (f : figure) (dpi : Z) : Z * Z :=
  (Qfloor ((fig_size f).1 * inject_Z dpi), Qfloor ((fig_size f).2 * inject_Z dpi)).

(** What [plt.savefig(path, dpi=dpi)] renders: the current figure. *)
Definition savefig_pixels (dpi : Z) : PLT (Z * Z) :=
  num ← gcf;
  f ← get_fig num;
  mret (fig_pixels f dpi).

(** [Divider.locate] with [aspect=False], in figure fractions: the
    scaled sizes share what the fixed ones leave of the rectangle. *)
Definition fixed_total (l : list axsize) : Q :=
  foldr (λ s acc, match s with Fixed b => b + acc | Scaled _ => acc end) 0 l.
Definition scaled_total (l : list axsize) : Q :=
  foldr (λ s acc, match s with Scaled a => a + acc | Fixed _ => acc end) 0 l.
Definition cell_sizes (l : list axsize) (total : Q) : list Q :=
  let k := (total - fixed_total l) / scaled_total l in
  (λ s, match s with Fixed b => b | Scaled a => a * k end) <$> l.
Definition offset (sizes : list Q) (i : nat) : Q := foldr Qplus 0 (take i sizes).

(** The rectangle, in figure fractions, a locator gives its axes in a
    figure of [figw] by [figh] inches. *)
Definition locate (lc : locator) (figw figh : Q) : rect :=
  let dv := lc_divider lc in
  let r := dv_rect dv in
  let ws := cell_sizes (dv_horiz dv) (r_width r * figw) in
  let hs := cell_sizes (dv_vert dv) (r_height r * figh) in
  {| r_left := r_left r + offset ws (lc_nx lc) / figw;
     r_bottom := r_bottom r + offset hs (lc_ny lc) / figh;
     r_width := (offset ws (lc_nx1 lc) - offset ws (lc_nx lc)) / figw;
     r_height := (offset hs (lc_ny1 lc) - offset hs (lc_ny lc)) / figh |}.

(** [divider.new_locator(nx=nx, ny=ny, nx1=nx1)]; [nx1] and [ny1]
    default to the next cell. *)
Definition new_locator (dv : divider) (nx ny : nat) (nx1 : option nat) : locator :=
  {| lc_divider := dv; lc_nx := nx; lc_ny := ny; lc_nx1 := default (S nx) nx1; lc_ny1 := S ny |}.

(** ** Well-formed stores *)

(** The current figure exists, and every figure is at least an inch
    wide and high. *)
Record plt_inv (p : pyplot) : Prop := {
  pi_cur : ∀ n, cur p = Some n → is_Some (find_fig p n);
  pi_size : Forall (λ f, 1 <= (fig_size f).1 ∧ 1 <= (fig_size f).2) (figures p)
}.

Lemma find_fig_elem p n f : find_fig p n = Some f → f ∈ figures p ∧ fig_num f = n.
Proof.
  unfold find_fig. destruct (list_find _ _) as [[i g]|] eqn:E; [| done]. simpl. intros [= <-].
  apply list_find_Some in E as (E & Hn & _). split; [by eapply list_elem_of_lookup_2 | done].
Qed.

Lemma next_num_fresh p f : f ∈ figures p → (fig_num f < next_num p)%nat.
Proof.
  unfold next_num. induction (figures p) as [|g l IH]; [by intros ?%elem_of_nil |].
  rewrite fmap_cons. cbn [foldr].
  intros [-> | Hf]%elem_of_cons; [pose proof (Nat.le_max_l (fig_num g) (foldr max 0%nat (fig_num <$> l))); lia |].
  specialize (IH Hf). pose proof (Nat.le_max_r (fig_num g) (foldr max 0%nat (fig_num <$> l))). lia.
Qed.

Lemma list_find_snoc_new {A} (P : A → Prop) `{∀ x, Decision (P x)} l g :
  Forall (λ x, ¬ P x) l → P g → list_find P (l ++ [g]) = Some (length l, g).
Proof.
  intros Hl Hg. apply list_find_Some. split_and!.
  - by rewrite lookup_app_r, Nat.sub_diag by lia.
  - done.
  - intros j y Hj Hlt. rewrite lookup_app_l in Hj by done.
    eapply Forall_lookup in Hl; [exact Hl | exact Hj].
Qed.

Lemma find_fig_snoc p g : (∀ f, f ∈ figures p → fig_num f ≠ fig_num g) →
  find_fig {| figures := figures p ++ [g]; cur := Some (fig_num g) |} (fig_num g) = Some g.
Proof.
  intros Hne. unfold find_fig. simpl. rewrite list_find_snoc_new; [done | | done].
  apply Forall_forall. exact Hne.
Qed.

Lemma Qfloor_ge_1 x : 1 <= x → (1 ≤ Qfloor x)%Z.
Proof. intros Hx. change 1%Z with (Qfloor 1). by apply Qfloor_resp_le. Qed.

Lemma fig_pixels_pos f dpi : 1 <= (fig_size f).1 → 1 <= (fig_size f).2 → (1 ≤ dpi)%Z →
  (1 ≤ (fig_pixels f dpi).1)%Z ∧ (1 ≤ (fig_pixels f dpi).2)%Z.
Proof.
  intros Hw Hh Hd. assert (1 <= inject_Z dpi) by (change 1 with (inject_Z 1); by rewrite <- Zle_Qle).
  unfold fig_pixels. split; apply Qfloor_ge_1;
    (apply (Qle_trans _ (1 * 1)); [done | apply Qmult_le_compat_nonneg; split; lra]).
Qed.

(** [savefig] renders a figure of the store, of at least one pixel each
    way, and keeps the store well formed. *)
Lemma savefig_pixels_spec p dpi : plt_inv p → (1 ≤ dpi)%Z →
  ∃ f p', savefig_pixels dpi p = inr (fig_pixels f dpi, p') ∧ plt_inv p' ∧
    (1 ≤ (fig_pixels f dpi).1)%Z ∧ (1 ≤ (fig_pixels f dpi).2)%Z ∧
    (∀ n, cur p = Some n → find_fig p n = Some f) ∧
    (cur p = None → fig_size f = default_figsize).
Proof.
  intros Hinv Hd. pose proof (pi_size p Hinv) as Hsize.
  unfold savefig_pixels, gcf, get_fig, mbind, se_bind, mret, se_ret.
  destruct (cur p) as [n|] eqn:Hc.
  - destruct (pi_cur p Hinv n Hc) as [f Hf]. pose proof (find_fig_elem _ _ _ Hf) as [Hfe _].
    rewrite Hf. exists f, p.
    eapply Forall_forall in Hsize as [Hw Hh]; [| exact Hfe].
    destruct (fig_pixels_pos f dpi Hw Hh Hd). split_and!; try done. by intros m [= <-].
  - set (g := {| fig_num := next_num p; fig_size := default_figsize; fig_axes := [] |}).
    assert (∀ f, f ∈ figures p → fig_num f ≠ fig_num g) as Hfresh.
    { intros f Hf. pose proof (next_num_fresh p f Hf). simpl. lia. }
    unfold new_figure. change (next_num p) with (fig_num g). rewrite find_fig_snoc by done.
    destruct (fig_pixels_pos g dpi) as [Hx Hy]; [vm_compute; discriminate | vm_compute; discriminate | done |].
    eexists g, _. split_and!; [done | | done | done | done | done]. constructor; simpl.
    + intros m [= <-]. by rewrite find_fig_snoc.
    + apply Forall_app. split; [done |]. repeat constructor; vm_compute; discriminate.
Qed.

(** On a well-formed store, [plt.gcf()] gives a figure of the store it
    leaves. *)
Lemma gcf_found p : plt_inv p → ∃ n p' f, gcf p = inr (n, p') ∧ find_fig p' n = Some f.
Proof.
  intros Hinv. unfold gcf. destruct (cur p) as [n|] eqn:Hc.
  - destruct (pi_cur p Hinv n Hc) as [f Hf]. by exists n, p, f.
  - set (g := {| fig_num := next_num p; fig_size := default_figsize; fig_axes := [] |}).
    assert (∀ f, f ∈ figures p → fig_num f ≠ fig_num g) as Hfresh.
    { intros f Hf. pose proof (next_num_fresh p f Hf). simpl. lia. }
    eexists _, _, g. split; [reflexivity |]. by apply find_fig_snoc.
Qed.

(** [plt.cla()] raises nothing on a well-formed store. *)
Lemma plt_cla_total p : plt_inv p → ∃ p', plt_cla p = inr (tt, p').
Proof.
  intros Hinv. destruct (gcf_found p Hinv) as (n & p1 & f & Hg & Hf).
  unfold plt_cla, mbind, se_bind at 1. rewrite Hg.
  unfold get_fig at 1, mbind, se_bind at 1. rewrite Hf.
  destruct (fig_axes f) as [|a axs] eqn:Ha.
  - unfold add_axes, get_fig, mbind, se_bind. rewrite Hf. by eexists.
  - unfold alter_axes, get_fig, mbind, se_bind. cbn [fst snd]. rewrite Hf, Ha.
    rewrite decide_True by (simpl; lia). by eexists.
Qed.
