(* ===== verification/PltShow.v ===== *)
(** * The NodeBox section of the matplotlib example scripts

    simple_axes_divider2.py (lines 11-42), membrane.py (lines 13-44) and
    colormap_normalizations.py (lines 15-46) open with the same block.
    When the script runs inside NodeBox ([__name__ == '__builtin__']) it
    sets the globals [W], [inset], [imgx], [imgy], sizes the canvas, resets
    pyplot, and defines [tempimage] and [pltshow]: [pltshow] saves the
    current figure into a fresh temporary PNG file, draws that file on the
    canvas at [(imgx, imgy)], moves [imgy] below it, deletes the file and
    grows the canvas.  Outside NodeBox, [pltshow] is [plt.show()].

    The state [nbstate] holds the script's globals, the NodeBox canvas
    (its size and the images drawn on it), pyplot's store of figures
    ([Pyplot]) and the file system, a [gmap] from file names to contents.
    The library calls (NodeBox's [size], [imagesize], [image]; pyplot's
    [cla], [clf], [close], [savefig], [show]; [tempfile] and [os.remove])
    are modelled by what they do to that state; [savefig] writes the
    current figure at its size in inches times the resolution. *)

From S2P Require Import Prelude Normalize Pyplot.
From stdpp Require Import gmap.
From Stdlib Require Import QArith.

Open Scope Z_scope.

(** ** State *)

Inductive file := FEmpty | FPng (dx dy : Z).

(** An [image(path, x, y, width=w)] call: the picture of [dx] by [dy]
    pixels read from [path], drawn at [(x, y)] and scaled to width [w]. *)
Record placed := { im_path : nat; im_x : Z; im_y : Z; im_w : Z; im_dx : Z; im_dy : Z }.

Record nbstate := {
  py_W : Z; py_inset : Z; py_imgx : Z; py_imgy : Z;
  WIDTH : Z; HEIGHT : Z; images : list placed;
  plt : pyplot; shown : nat;
  files : gmap nat file
}.

Abbreviation NB := (StateErr nbstate exc).

Definition with_globals (st : nbstate) (W inset imgx imgy : Z) : nbstate :=
  {| py_W := W; py_inset := inset; py_imgx := imgx; py_imgy := imgy;
     WIDTH := WIDTH st; HEIGHT := HEIGHT st; images := images st;
     plt := plt st; shown := shown st; files := files st |}.
Definition with_canvas (st : nbstate) (w h : Z) (ims : list placed) : nbstate :=
  {| py_W := py_W st; py_inset := py_inset st; py_imgx := py_imgx st; py_imgy := py_imgy st;
     WIDTH := w; HEIGHT := h; images := ims;
     plt := plt st; shown := shown st; files := files st |}.
Definition with_plt (st : nbstate) (p : pyplot) (k : nat) : nbstate :=
  {| py_W := py_W st; py_inset := py_inset st; py_imgx := py_imgx st; py_imgy := py_imgy st;
     WIDTH := WIDTH st; HEIGHT := HEIGHT st; images := images st;
     plt := p; shown := k; files := files st |}.
Definition with_files (st : nbstate) (fs : gmap nat file) : nbstate :=
  {| py_W := py_W st; py_inset := py_inset st; py_imgx := py_imgx st; py_imgy := py_imgy st;
     WIDTH := WIDTH st; HEIGHT := HEIGHT st; images := images st;
     plt := plt st; shown := shown st; files := fs |}.

Definition gets {A} (f : nbstate → A) : NB A := λ st, inr (f st, st).

(** Assignments to the globals. *)
Definition set_W (v : Z) : NB unit :=
  se_modify (λ st, with_globals st v (py_inset st) (py_imgx st) (py_imgy st)).
Definition set_inset (v : Z) : NB unit :=
  se_modify (λ st, with_globals st (py_W st) v (py_imgx st) (py_imgy st)).
Definition set_imgx (v : Z) : NB unit :=
  se_modify (λ st, with_globals st (py_W st) (py_inset st) v (py_imgy st)).
Definition set_imgy (v : Z) : NB unit :=
  se_modify (λ st, with_globals st (py_W st) (py_inset st) (py_imgx st) v).

(** ** The library calls *)

(** NodeBox [size(w, h)]. *)
Definition size (w h : Z) : NB unit := se_modify (λ st, with_canvas st w h (images st)).

(** A pyplot call on the store of figures. *)
Definition lift {A} (m : PLT A) : NB A := λ st,
  match m (plt st) with
  | inl e => inl e
  | inr (a, p) => inr (a, with_plt st p (shown st))
  end.

(** [plt.show()], outside NodeBox. *)
Definition plt_show : NB unit := se_modify (λ st, with_plt st (plt st) (S (shown st))).

(** [tempfile.NamedTemporaryFile(..., delete=False)]: a new empty file
    under a name no file has. *)
Definition named_temporary_file : NB nat := λ st,
  let n := fresh (dom (files st)) in inr (n, with_files st (<[n := FEmpty]> (files st))).

(** [plt.savefig(path, dpi=dpi)]: the current figure as a PNG file. *)
Definition savefig (path : nat) (dpi : Z) : NB unit :=
  px ← lift (savefig_pixels dpi);
  se_modify (λ st, with_files st (<[path := FPng px.1 px.2]> (files st))).

(** NodeBox [imagesize(path)]; an error where the file is no picture. *)
Definition imagesize (path : nat) : NB (Z * Z) := λ st,
  match files st !! path with
  | Some (FPng dx dy) => inr ((dx, dy), st)
  | _ => inl IOError
  end.

(** NodeBox [image(path, x, y, width=w)]: reads the picture now. *)
Definition image (path : nat) (x y w : Z) : NB unit := λ st,
  match files st !! path with
  | Some (FPng dx dy) =>
      inr (tt, with_canvas st (WIDTH st) (HEIGHT st)
                 (images st ++ [{| im_path := path; im_x := x; im_y := y; im_w := w;
                                   im_dx := dx; im_dy := dy |}]))
  | _ => inl IOError
  end.

(** [os.remove(path)]: [OSError] where there is no such file. *)
Definition os_remove (path : nat) : NB unit := λ st,
  match files st !! path with
  | Some _ => inr (tt, with_files st (delete path (files st)))
  | None => inl OSError
  end.

(** ** The section *)

Section NodeBoxSection.

(** [tempimage()], lines 26-30 of colormap_normalizations.py. *)
Definition tempimage : NB nat :=
  fob ← named_temporary_file;
  let fname := fob in
  mret fname.

(** [pltshow(plt, dpi)], lines 33-42 of colormap_normalizations.py. *)
Definition pltshow (dpi : Z) : NB unit :=
  temppath ← tempimage;
  savefig temppath dpi;;
  '(dx, dy) ← imagesize temppath;
  W ← gets py_W;
  let w := Z.min W dx in
  imgx ← gets py_imgx;
  imgy ← gets py_imgy;
  image temppath imgx imgy w;;
  set_imgy (imgy + dy + 20);;
  os_remove temppath;;
  HEIGHT ← gets HEIGHT;
  size W (HEIGHT + dy + 40).

(** The two functions the name [pltshow] can be bound to. *)
Inductive pltshow_fn := NodeBoxShow | MplShow.

(** The call [pltshow(plt)] at the end of each script: the NodeBox
    version with its default resolution, or [mplpyplot.show()]. *)
Definition call_pltshow (f : pltshow_fn) : NB unit :=
  match f with
  | NodeBoxShow => pltshow 150
  | MplShow => plt_show
  end.

(** The whole block, lines 15-46 of colormap_normalizations.py; the test
    [__name__ == '__builtin__'] is [in_nodebox]. *)
Definition nodebox_section (in_nodebox : bool) : NB pltshow_fn :=
  if in_nodebox then
    set_W 800;;
    set_inset 20;;
    W ← gets py_W;
    size W 600;;
    lift plt_cla;;
    lift plt_clf;;
    lift plt_close_all;;
    set_imgx 20;;
    set_imgy 0;;
    mret NodeBoxShow
  else mret MplShow.

(** The same block in simple_axes_divider2.py and membrane.py. *)
Definition divider_nodebox_section : bool → NB pltshow_fn := nodebox_section.
Definition membrane_nodebox_section : bool → NB pltshow_fn := nodebox_section.

End NodeBoxSection.

(** ** The state after the section and after [pltshow] *)

(** What [nodebox_section] leaves when run inside NodeBox. *)
Definition section_post (st : nbstate) : nbstate :=
  {| py_W := 800; py_inset := 20; py_imgx := 20; py_imgy := 0;
     WIDTH := 800; HEIGHT := 600; images := images st;
     plt := {| figures := []; cur := None |}; shown := shown st; files := files st |}.

(** What [pltshow(plt, dpi)] leaves when [savefig] renders a picture of
    [px] pixels and leaves the store [p]: one more image, [imgy] and the
    canvas height grown, the file system as it was. *)
Definition pltshow_post (px : Z * Z) (p : pyplot) (st : nbstate) : nbstate :=
  {| py_W := py_W st; py_inset := py_inset st; py_imgx := py_imgx st;
     py_imgy := py_imgy st + px.2 + 20;
     WIDTH := py_W st; HEIGHT := HEIGHT st + px.2 + 40;
     images := images st ++
       [{| im_path := fresh (dom (files st)); im_x := py_imgx st; im_y := py_imgy st;
           im_w := Z.min (py_W st) px.1; im_dx := px.1; im_dy := px.2 |}];
     plt := p; shown := shown st; files := files st |}.

(** ** A script's run inside NodeBox *)

(** The states a script reaches from [st0], a fresh NodeBox run with a
    blank canvas: the section, then any number of [pltshow] calls at any
    resolution, and in between plotting calls, which change only pyplot's
    figures. *)
Inductive reachable (st0 : nbstate) : nbstate → Prop :=
  | reach_section st :
      images st0 = [] → nodebox_section true st0 = inr (NodeBoxShow, st) → reachable st0 st
  | reach_plot st p : reachable st0 st → plt_inv p → reachable st0 (with_plt st p (shown st))
  | reach_pltshow st st' dpi :
      reachable st0 st → 0 < dpi → pltshow dpi st = inr (tt, st') → reachable st0 st'.

(** The lowest row of the slot an image was given. *)
Definition bottom (a : placed) : Z := im_y a + im_dy a.

(** The height an image is drawn with: scaled to width [w], NodeBox keeps
    the aspect ratio. *)
Definition drawn_height (a : placed) : Q := inject_Z (im_dy a * im_w a) / inject_Z (im_dx a).

(** An image as [pltshow] places it, above the next free row [imgy]. *)
Definition placed_ok (imgy : Z) (a : placed) : Prop :=
  0 ≤ im_y a ∧ bottom a + 20 ≤ imgy ∧ 0 < im_dx a ∧ 0 < im_dy a ∧
  im_x a = 20 ∧ im_w a = Z.min 800 (im_dx a).

(** The layout invariant: the globals as the section set them, [imgy]
    at least 600 rows above the bottom of the canvas, and the images
    stacked top to bottom, 20 rows apart, all above [imgy]. *)
Record layout_inv (st : nbstate) : Prop := {
  li_globals : py_W st = 800 ∧ py_imgx st = 20 ∧ WIDTH st = 800;
  li_imgy : 0 ≤ py_imgy st ∧ py_imgy st + 600 ≤ HEIGHT st;
  li_stacked : StronglySorted (λ a b, bottom a + 20 ≤ im_y b) (images st);
  li_images : Forall (placed_ok (py_imgy st)) (images st)
}.

(** A NodeBox run before the script: a blank 1000 by 1000 canvas, no
    globals set, no figure and no file. *)
Definition nodebox_start : nbstate :=
  {| py_W := 0; py_inset := 0; py_imgx := 0; py_imgy := 0;
     WIDTH := 1000; HEIGHT := 1000; images := [];
     plt := {| figures := []; cur := None |}; shown := 0; files := ∅ |}.


(** pyplot's default figure, the first one created. *)
Definition default_figure : figure := {| fig_num := 1; fig_size := default_figsize; fig_axes := [] |}.

(** The section and [pltshow(plt)] with no figure made: [savefig] saves
    a new figure of the default size, 960 by 720 pixels at 150 dpi. *)
Definition default_run_state : nbstate :=
  pltshow_post (960, 720) {| figures := [default_figure]; cur := Some 1%nat |}
    (section_post nodebox_start).

(** ** Running the section and [pltshow] *)

Lemma lookup_fresh_None {A} (m : gmap nat A) : m !! fresh (dom m) = None.
Proof. apply not_elem_of_dom, is_fresh. Qed.

Lemma lift_inr {A} (m : PLT A) st a st' :
  lift m st = inr (a, st') → ∃ p, m (plt st) = inr (a, p) ∧ st' = with_plt st p (shown st).
Proof. unfold lift. destruct (m (plt st)) as [e|[b p]]; [done |]. intros [= -> <-]. by exists p. Qed.

(** Whatever pyplot held, a run of the section that does not raise ends
    with the globals set, a 800 by 600 canvas and no figure. *)
Lemma nodebox_section_post st v st' :
  nodebox_section true st = inr (v, st') → v = NodeBoxShow ∧ st' = section_post st.
Proof.
  unfold nodebox_section, mbind, se_bind, set_W, set_inset, set_imgx, set_imgy, gets, size,
    se_modify, mret, se_ret. cbn -[lift].
  destruct (lift plt_cla _) as [|[[] st2]] eqn:E1; [done |]. apply lift_inr in E1 as (p1 & _ & ->).
  destruct (lift plt_clf _) as [|[[] st3]] eqn:E2; [done |]. apply lift_inr in E2 as (p2 & _ & ->).
  cbn. intros [= <- <-]. done.
Qed.

(** From any NodeBox state whose pyplot store is well formed, the section
    raises nothing. *)
Lemma nodebox_section_total st :
  plt_inv (plt st) → nodebox_section true st = inr (NodeBoxShow, section_post st).
Proof.
  intros Hinv. destruct (plt_cla_total (plt st) Hinv) as [p1 Hcla].
  destruct (nodebox_section true st) as [e|[v st']] eqn:Hs.
  - exfalso. revert Hs. unfold nodebox_section, mbind, se_bind, set_W, set_inset, gets, size,
      se_modify. cbn -[lift plt_cla]. unfold lift at 1.
    cbn [plt with_globals with_canvas]. rewrite Hcla. cbn -[plt_clf].
    unfold lift, plt_clf, gcf, mbind, se_bind, se_modify, new_figure.
    cbn. destruct (cur p1); cbn; intros ?; discriminate.
  - by apply nodebox_section_post in Hs as [-> ->].
Qed.

Lemma nodebox_section_start :
  nodebox_section true nodebox_start = inr (NodeBoxShow, section_post nodebox_start).
Proof. vm_compute. reflexivity. Qed.

Lemma pltshow_run dpi st px p :
  savefig_pixels dpi (plt st) = inr (px, p) → pltshow dpi st = inr (tt, pltshow_post px p st).
Proof.
  intros Hs. pose proof (lookup_fresh_None (files st)) as Hf.
  unfold pltshow, tempimage, named_temporary_file, savefig, lift, imagesize, gets, image,
    set_imgy, se_modify, os_remove, size, mbind, se_bind, mret, se_ret.
  cbn -[fresh dom insert delete lookup savefig_pixels]. rewrite Hs.
  cbn -[fresh dom insert delete lookup].
  repeat (rewrite lookup_insert_eq; cbn -[fresh dom insert delete lookup]).
  rewrite !delete_insert_eq, delete_id by done. reflexivity.
Qed.

Lemma pltshow_default : pltshow 150 (section_post nodebox_start) = inr (tt, default_run_state).
Proof. vm_compute. reflexivity. Qed.

(** A well-formed store: [savefig] renders a picture of at least one
    pixel each way, the current figure or a new default one. *)
Lemma pltshow_step dpi st st' :
  plt_inv (plt st) → 0 < dpi → pltshow dpi st = inr (tt, st') →
  ∃ f p, st' = pltshow_post (fig_pixels f dpi) p st ∧ plt_inv p ∧
    1 ≤ (fig_pixels f dpi).1 ∧ 1 ≤ (fig_pixels f dpi).2 ∧
    (∀ n, cur (plt st) = Some n → find_fig (plt st) n = Some f) ∧
    (cur (plt st) = None → fig_size f = default_figsize).
Proof.
  intros Hp Hd Hrun.
  destruct (savefig_pixels_spec (plt st) dpi Hp) as (f & p & Hs & Hp' & H1 & H2 & Hc & Hn); [lia |].
  rewrite (pltshow_run _ _ _ _ Hs) in Hrun. injection Hrun as <-. by exists f, p.
Qed.

Lemma pltshow_total dpi st :
  plt_inv (plt st) → 0 < dpi → ∃ st', pltshow dpi st = inr (tt, st').
Proof.
  intros Hp Hd. destruct (savefig_pixels_spec (plt st) dpi Hp) as (f & p & Hs & _); [lia |].
  eexists. exact (pltshow_run _ _ _ _ Hs).
Qed.

(** ** The invariant of a run *)

Lemma layout_inv_section st0 : images st0 = [] → layout_inv (section_post st0).
Proof. intros Him. constructor; simpl; rewrite ?Him; repeat constructor; lia. Qed.

Lemma layout_inv_plot st p k : layout_inv st → layout_inv (with_plt st p k).
Proof. by intros []; constructor. Qed.

Lemma placed_ok_mono y y' a : y ≤ y' → placed_ok y a → placed_ok y' a.
Proof. unfold placed_ok. lia. Qed.

Lemma layout_inv_pltshow px p st :
  1 ≤ px.1 → 1 ≤ px.2 → layout_inv st → layout_inv (pltshow_post px p st).
Proof.
  intros Hdx Hdy [(HW & Hx & HWI) [Hy0 Hy] Hst Hok]. constructor; simpl.
  - lia.
  - lia.
  - apply StronglySorted_snoc. split; [done |]. intros a Ha.
    eapply Forall_forall in Hok; [| exact Ha]. unfold placed_ok in Hok. simpl. lia.
  - apply Forall_app. split.
    + eapply Forall_impl; [exact Hok |]. intros a. apply placed_ok_mono. lia.
    + repeat constructor; unfold bottom; simpl; lia.
Qed.

Lemma plt_inv_empty : plt_inv {| figures := []; cur := None |}.
Proof. constructor; [done | constructor]. Qed.

Record run_inv (st0 st : nbstate) : Prop := {
  ri_layout : layout_inv st;
  ri_plt : plt_inv (plt st);
  ri_files : files st = files st0
}.

Lemma reachable_inv st0 st : reachable st0 st → run_inv st0 st.
Proof.
  induction 1 as [st Him Hsec | st p _ [Hl Hp Hf] Hp' | st st' dpi _ [Hl Hp Hf] Hdpi Hrun].
  - apply nodebox_section_post in Hsec as [_ ->].
    constructor; [by apply layout_inv_section | apply plt_inv_empty | done].
  - constructor; [by apply layout_inv_plot | done | done].
  - destruct (pltshow_step dpi st st' Hp Hdpi Hrun) as (f & p & -> & Hp' & H1 & H2 & _).
    constructor; [by apply layout_inv_pltshow | done | done].
Qed.

Lemma drawn_height_le a : 0 < im_dx a → 0 ≤ im_dy a → 0 ≤ im_w a ≤ im_dx a →
  (drawn_height a <= inject_Z (im_dy a))%Q.
Proof.
  intros Hdx Hdy Hw. unfold drawn_height. apply Qle_shift_div_r.
  - change 0%Q with (inject_Z 0). by rewrite <- Zlt_Qlt.
  - rewrite <- inject_Z_mult, <- Zle_Qle. nia.
Qed.

(** An image placed above [imgy] is drawn within the rows [im_y] to
    [imgy - 20]. *)
Lemma drawn_bottom_le y a : placed_ok y a →
  (inject_Z (im_y a) + drawn_height a <= inject_Z (y - 20))%Q.
Proof.
  intros (Hy & Hb & Hdx & Hdy & _ & Hw). unfold bottom in Hb.
  apply (Qle_trans _ (inject_Z (im_y a) + inject_Z (im_dy a))).
  - apply Qplus_le_r, drawn_height_le; lia.
  - rewrite <- inject_Z_plus, <- Zle_Qle. lia.
Qed.

Lemma reachable_section_start : reachable nodebox_start (section_post nodebox_start).
Proof. apply reach_section; [done | exact nodebox_section_start]. Qed.

(** One [pltshow] from a reachable state returns, stays reachable and
    draws one picture. *)
Lemma pltshow_progress st0 st dpi :
  reachable st0 st → 0 < dpi →
  ∃ st', pltshow dpi st = inr (tt, st') ∧ reachable st0 st' ∧
    length (images st') = S (length (images st)).
Proof.
  intros Hr Hd. destruct (reachable_inv st0 st Hr) as [_ Hp _].
  destruct (pltshow_total dpi st Hp Hd) as [st' Hrun].
  destruct (pltshow_step dpi st st' Hp Hd Hrun) as (f & p & -> & _).
  eexists. split_and!; [exact Hrun | by eapply reach_pltshow |].
  simpl. rewrite length_app. simpl. lia.
Qed.

Lemma reachable_default : reachable nodebox_start default_run_state.
Proof.
  apply (reach_pltshow _ (section_post nodebox_start) _ 150);
    [exact reachable_section_start | lia | exact pltshow_default].
Qed.

(** ** Properties of the section *)

(** C16. From a well-formed pyplot store, [pltshow(plt, dpi)] raises
    nothing.  It draws the figure [savefig] renders, the current one or,
    when there is none, a new figure of the default size, once, at
    [(imgx, imgy)] and scaled to the width [min(W, dx)]; it moves [imgy]
    down by the picture's height and 20, grows the canvas by the
    picture's height and 40, sets its width to [W], and removes the
    temporary file it wrote: the file system is as it was. *)
Theorem pltshow_effect dpi st :
  plt_inv (plt st) → 0 < dpi →
  ∃ f st', pltshow dpi st = inr (tt, st') ∧
    (∀ n, cur (plt st) = Some n → find_fig (plt st) n = Some f) ∧
    (cur (plt st) = None → fig_size f = default_figsize) ∧
    files st' = files st ∧
    images st' = images st ++
      [{| im_path := fresh (dom (files st)); im_x := py_imgx st; im_y := py_imgy st;
          im_w := Z.min (py_W st) (fig_pixels f dpi).1;
          im_dx := (fig_pixels f dpi).1; im_dy := (fig_pixels f dpi).2 |}] ∧
    py_imgy st' = py_imgy st + (fig_pixels f dpi).2 + 20 ∧
    WIDTH st' = py_W st ∧ HEIGHT st' = HEIGHT st + (fig_pixels f dpi).2 + 40.
Proof.
  intros Hp Hd. destruct (pltshow_total dpi st Hp Hd) as [st' Hrun].
  destruct (pltshow_step dpi st st' Hp Hd Hrun) as (f & p & -> & _ & _ & _ & Hc & Hn).
  exists f, (pltshow_post (fig_pixels f dpi) p st). split; [exact Hrun | done].
Qed.

(** C17. However many figures a script shows inside NodeBox, it leaves
    no temporary file behind: the file system after the section and any
    sequence of plotting and [pltshow] calls is the one it started with. *)
Theorem script_files_unchanged st0 st : reachable st0 st → files st = files st0.
Proof. intros H. apply (reachable_inv st0 st H). Qed.

(** C18. The pictures [pltshow] draws lie within the canvas height, each
    one starting below the previous one: a later picture starts more
    than 20 rows below the bottom of an earlier one as drawn. *)
Theorem script_images_stacked st0 st :
  reachable st0 st →
  (∀ a, a ∈ images st → 0 ≤ im_y a ∧
     (inject_Z (im_y a) + drawn_height a <= inject_Z (HEIGHT st))%Q) ∧
  (∀ l1 a l2 b, images st = l1 ++ a :: l2 → b ∈ l2 →
     (inject_Z (im_y a) + drawn_height a + 20 <= inject_Z (im_y b))%Q).
Proof.
  intros Hreach. destruct (reachable_inv st0 st Hreach) as [[_ [Hy0 Hy] Hst Hok] _ _]. split.
  - intros a Ha. pose proof (proj1 (Forall_forall _ _) Hok a Ha) as Hp.
    split; [apply Hp |]. eapply Qle_trans; [by apply drawn_bottom_le |].
    rewrite <- Zle_Qle. lia.
  - intros l1 a l2 b Heq Hb. rewrite Heq in Hst, Hok.
    apply StronglySorted_app in Hst as (_ & _ & Hst). apply StronglySorted_inv in Hst as [_ Hst].
    apply Forall_app in Hok as [_ Hok]. apply Forall_cons in Hok as [Ha _].
    pose proof (proj1 (Forall_forall _ _) Hst b Hb) as Hab. simpl in Hab.
    destruct Ha as (Hay & Hab' & Hdx & Hdy & _ & Hw).
    apply (Qle_trans _ (inject_Z (im_y a) + inject_Z (im_dy a) + 20)).
    + apply Qplus_le_l, Qplus_le_r, drawn_height_le; lia.
    + rewrite <- inject_Z_plus. change 20%Q with (inject_Z 20).
      rewrite <- inject_Z_plus, <- Zle_Qle. unfold bottom in Hab. lia.
Qed.

(** C19. The pictures start 20 columns in and are scaled to at most
    [W] = 800 columns, so a picture's right edge is at most 20 columns
    beyond the canvas, and it is beyond the canvas exactly when the
    figure is wider than 780 pixels. *)
Theorem script_images_right_edge st0 st :
  reachable st0 st →
  ∀ a, a ∈ images st →
    im_x a + im_w a ≤ WIDTH st + 20 ∧ (WIDTH st < im_x a + im_w a ↔ 780 < im_dx a).
Proof.
  intros Hreach a Ha. destruct (reachable_inv st0 st Hreach) as [[(_ & _ & HW) _ _ Hok] _ _].
  destruct (proj1 (Forall_forall _ _) Hok a Ha) as (_ & _ & _ & _ & Hx & Hw). lia.
Qed.

(** C32. A script run inside NodeBox never gets stuck showing its
    figures: from every state it reaches, a sequence of [pltshow(plt)]
    calls at any positive resolutions runs to its end without raising,
    every state on the way is reachable, and each call has drawn its
    picture: one image more per call. *)
Theorem script_shows_all st0 st dpis :
  reachable st0 st → Forall (λ dpi, 0 < dpi) dpis →
  ∃ st', se_for dpis pltshow st = inr (tt, st') ∧ reachable st0 st' ∧
    length (images st') = (length (images st) + length dpis)%nat.
Proof.
  intros Hr Hd. revert st Hr. induction Hd as [|dpi dpis Hdpi _ IH]; intros st Hr.
  - exists st. split_and!; [done | done | simpl; lia].
  - destruct (pltshow_progress st0 st dpi Hr Hdpi) as (st1 & Hrun & Hr1 & Hl1).
    destruct (IH st1 Hr1) as (st' & Hfor & Hr' & Hl').
    exists st'. split_and!; [| done | simpl; lia].
    simpl. unfold mbind, se_bind. by rewrite Hrun.
Qed.

(** ** Witnesses *)

Lemma pltshow_effect_witness :
  plt_inv (plt (section_post nodebox_start)) ∧ 0 < 150 ∧
  ∃ f st', pltshow 150 (section_post nodebox_start) = inr (tt, st') ∧
    (∀ n, cur (plt (section_post nodebox_start)) = Some n →
       find_fig (plt (section_post nodebox_start)) n = Some f) ∧
    (cur (plt (section_post nodebox_start)) = None → fig_size f = default_figsize) ∧
    files st' = files (section_post nodebox_start) ∧
    images st' = images (section_post nodebox_start) ++
      [{| im_path := fresh (dom (files (section_post nodebox_start)));
          im_x := py_imgx (section_post nodebox_start); im_y := py_imgy (section_post nodebox_start);
          im_w := Z.min (py_W (section_post nodebox_start)) (fig_pixels f 150).1;
          im_dx := (fig_pixels f 150).1; im_dy := (fig_pixels f 150).2 |}] ∧
    py_imgy st' = py_imgy (section_post nodebox_start) + (fig_pixels f 150).2 + 20 ∧
    WIDTH st' = py_W (section_post nodebox_start) ∧
    HEIGHT st' = HEIGHT (section_post nodebox_start) + (fig_pixels f 150).2 + 40.
Proof.
  split_and!; [exact plt_inv_empty | lia |].
  apply (pltshow_effect 150 (section_post nodebox_start)); [exact plt_inv_empty | lia].
Defined.

Lemma script_files_unchanged_witness :
  reachable nodebox_start default_run_state ∧ files default_run_state = files nodebox_start.
Proof.
  split; [exact reachable_default |].
  exact (script_files_unchanged nodebox_start default_run_state reachable_default).
Defined.

Lemma script_images_stacked_witness :
  reachable nodebox_start default_run_state ∧
  (∀ a, a ∈ images default_run_state → 0 ≤ im_y a ∧
     (inject_Z (im_y a) + drawn_height a <= inject_Z (HEIGHT default_run_state))%Q) ∧
  (∀ l1 a l2 b, images default_run_state = l1 ++ a :: l2 → b ∈ l2 →
     (inject_Z (im_y a) + drawn_height a + 20 <= inject_Z (im_y b))%Q).
Proof.
  split_and!; [exact reachable_default | |];
  apply (script_images_stacked nodebox_start default_run_state reachable_default).
Defined.

Lemma script_images_right_edge_witness :
  reachable nodebox_start default_run_state ∧
  ∀ a, a ∈ images default_run_state →
    im_x a + im_w a ≤ WIDTH default_run_state + 20 ∧
    (WIDTH default_run_state < im_x a + im_w a ↔ 780 < im_dx a).
Proof.
  split; [exact reachable_default |].
  apply (script_images_right_edge nodebox_start default_run_state reachable_default).
Defined.

Lemma script_shows_all_witness :
  reachable nodebox_start (section_post nodebox_start) ∧ Forall (λ dpi, 0 < dpi) [150; 72] ∧
  ∃ st', se_for [150; 72] pltshow (section_post nodebox_start) = inr (tt, st') ∧
    reachable nodebox_start st' ∧
    length (images st') = (length (images (section_post nodebox_start)) + length [150; 72])%nat.
Proof.
  split; [exact reachable_section_start |]. split; [repeat constructor; lia |].
  apply (script_shows_all nodebox_start (section_post nodebox_start) [150; 72]);
    [exact reachable_section_start | repeat constructor; lia].
Defined.
