(* ===== verification/Scripts.v ===== *)
(** * The bodies of the three matplotlib example scripts

    After the nodebox section ([PltShow]) each script builds its figures
    with pyplot and ends with [pltshow(plt)]:
    - colormap_normalizations.py (lines 52-173): five figures, one per
      kind of norm ([LogNorm], [PowerNorm], [SymLogNorm],
      [MidpointNormalize], [BoundaryNorm]);
    - simple_axes_divider2.py (lines 44-66): one figure of four axes
      placed by a [Divider];
    - membrane.py (lines 46-57): one figure with a line plot.
    The data arrays are computed by numpy, which is the interface
    [Numpy]: the scripts are written against its operations, and only
    [linspace], whose result the script passes to [BoundaryNorm], has a
    law; the instance [np_shapes] forgets the data and computes
    [linspace].  The theorems hold for every instance.  A whole script is the section, the body on the pyplot
    store, and the call [pltshow(plt)]. *)

From S2P Require Import Prelude Normalize Pyplot PltShow.
From stdpp Require Import strings pretty gmap.
From Stdlib Require Import QArith.

(** ** The numpy interface *)

Class Numpy (A : Type) := {
  (** [np.mgrid[a:b:complex(0, n), c:d:complex(0, m)]] *)
  np_mgrid : Q → Q → nat → Q → Q → nat → A * A;
  (** [mlab.bivariate_normal(X, Y, sigmax, sigmay, mux, muy)] *)
  bivariate_normal : A → A → Q → Q → Q → Q → A;
  np_add : A → A → A;
  np_sub : A → A → A;
  np_mul : A → A → A;
  (** [c * Z], [c + Z], [Z / c], [Z ** c], [np.sin(Z)] *)
  np_scale : Q → A → A;
  np_addc : Q → A → A;
  np_divc : A → Q → A;
  np_powc : A → Q → A;
  np_sin : A → A;
  (** [Z.min()] and [np.max(Z)] *)
  np_amin : A → Q;
  np_amax : A → Q;
  (** [np.fromfile(name, np.float32)] *)
  np_fromfile : string → A;
  (** [np.linspace(a, b, n)] *)
  np_linspace : Q → Q → nat → list Q;
  np_linspace_length a b n : length (np_linspace a b n) = n
}.

(** [np.linspace(a, b, n)]: [n] evenly spaced numbers from [a] to [b],
    both included, and [[a]] for [n = 1]. *)
Definition linspace (a b : Q) (n : nat) : list Q :=
  match n with
  | 1%nat => [a]
  | _ => (λ i, a + inject_Z (Z.of_nat i) * (b - a) / inject_Z (Z.of_nat (n - 1))) <$> seq 0 n
  end.

Lemma length_linspace a b n : length (linspace a b n) = n.
Proof. destruct n as [|[|n]]; simpl; rewrite ?length_fmap, ?length_seq; done. Qed.

(** An instance that forgets the arrays' data, which none of the
    theorems below depends on, and computes [linspace]: it shows the
    interface can be implemented. *)
#[export] Instance np_shapes : Numpy unit := {
  np_mgrid _ _ _ _ _ _ := (tt, tt);
  bivariate_normal _ _ _ _ _ _ := tt;
  np_add _ _ := tt; np_sub _ _ := tt; np_mul _ _ := tt;
  np_scale _ _ := tt; np_addc _ _ := tt; np_divc _ _ := tt; np_powc _ _ := tt; np_sin _ := tt;
  np_amin _ := 0; np_amax _ := 0;
  np_fromfile _ := tt;
  np_linspace := linspace;
  np_linspace_length := length_linspace
}.

(** ** colormap_normalizations.py *)

Section Colormap.
Context `{Numpy A}.

(** Lines 52-171. *)
Definition colormap_body : PLT unit :=
  let N := 100%nat in
  let XY := np_mgrid (-3) 3 N (-2) 2 N in
  let X := XY.1 in let Y := XY.2 in
  let Z1 := np_add (bivariate_normal X Y (1 # 10) (2 # 10) 1 1)
                   (np_scale (1 # 10) (bivariate_normal X Y 1 1 0 0)) in
  '(fig, ax) ← plt_subplots 2 1 None;
  a0 ← ax_index ax 0;
  pcm ← ax_mesh Pcolor a0 (LogNorm (np_amin Z1) (np_amax Z1)) "PuBu_r";
  fig_colorbar fig pcm a0 "max" "vertical";;
  a1 ← ax_index ax 1;
  pcm ← ax_mesh Pcolor a1 (DefaultNorm None) "PuBu_r";
  fig_colorbar fig pcm a1 "max" "vertical";;
  (* PowerNorm *)
  let XY := np_mgrid 0 3 N 0 2 N in
  let X := XY.1 in let Y := XY.2 in
  let Z1 := np_mul (np_addc 1 (np_sin (np_scale 10 Y))) (np_powc X 2) in
  '(fig, ax) ← plt_subplots 2 1 None;
  a0 ← ax_index ax 0;
  pcm ← ax_mesh Pcolormesh a0 (PowerNorm (1 # 2)) "PuBu_r";
  fig_colorbar fig pcm a0 "max" "vertical";;
  a1 ← ax_index ax 1;
  pcm ← ax_mesh Pcolormesh a1 (DefaultNorm None) "PuBu_r";
  fig_colorbar fig pcm a1 "max" "vertical";;
  (* SymLogNorm *)
  let XY := np_mgrid (-3) 3 N (-2) 2 N in
  let X := XY.1 in let Y := XY.2 in
  let Z1 := np_sub (np_powc (bivariate_normal X Y 1 1 1 1) 2)
                   (np_scale (2 # 5) (np_powc (bivariate_normal X Y 1 1 (-1) 0) 2)) in
  let Z1 := np_divc Z1 (3 # 100) in
  '(fig, ax) ← plt_subplots 2 1 None;
  a0 ← ax_index ax 0;
  pcm ← ax_mesh Pcolormesh a0 (SymLogNorm (3 # 100) (3 # 100) (-1) 1) "RdBu_r";
  fig_colorbar fig pcm a0 "both" "vertical";;
  a1 ← ax_index ax 1;
  pcm ← ax_mesh Pcolormesh a1 (DefaultNorm (Some (- np_amax Z1))) "RdBu_r";
  fig_colorbar fig pcm a1 "both" "vertical";;
  (* Custom Norm *)
  let XY := np_mgrid (-3) 3 N (-2) 2 N in
  let X := XY.1 in let Y := XY.2 in
  let Z1 := np_sub (np_powc (bivariate_normal X Y 1 1 1 1) 2)
                   (np_scale (2 # 5) (np_powc (bivariate_normal X Y 1 1 (-1) 0) 2)) in
  let Z1 := np_divc Z1 (3 # 100) in
  '(fig, ax) ← plt_subplots 2 1 None;
  a0 ← ax_index ax 0;
  pcm ← ax_mesh Pcolormesh a0 (MidpointNorm (MidpointNormalize_init None None (Some 0) false))
          "RdBu_r";
  fig_colorbar fig pcm a0 "both" "vertical";;
  a1 ← ax_index ax 1;
  pcm ← ax_mesh Pcolormesh a1 (DefaultNorm (Some (- np_amax Z1))) "RdBu_r";
  fig_colorbar fig pcm a1 "both" "vertical";;
  (* BoundaryNorm *)
  '(fig, ax) ← plt_subplots 3 1 (Some (8, 8));
  let ax := ax_flatten ax in
  let bounds := np_linspace (-1) 1 10 in
  let norm := BoundaryNorm bounds 256 in
  a0 ← ax_index ax 0;
  pcm ← ax_mesh Pcolormesh a0 norm "RdBu_r";
  fig_colorbar fig pcm a0 "both" "vertical";;
  let bounds := [-1 # 4; -1 # 8; 0; 1 # 2; 1] in
  let norm := BoundaryNorm bounds 256 in
  a1 ← ax_index ax 1;
  pcm ← ax_mesh Pcolormesh a1 norm "RdBu_r";
  fig_colorbar fig pcm a1 "both" "vertical";;
  a2 ← ax_index ax 2;
  pcm ← ax_mesh Pcolormesh a2 (DefaultNorm (Some (- np_amax Z1))) "RdBu_r";
  fig_colorbar fig pcm a2 "both" "vertical";;
  mret tt.

(** The whole script: the section, the body, [pltshow(plt)]. *)
Definition colormap_script (in_nodebox : bool) : NB unit :=
  pltshow ← nodebox_section in_nodebox;
  lift colormap_body;;
  call_pltshow pltshow.

End Colormap.

(** ** simple_axes_divider2.py *)

(** [rect = (0.1, 0.1, 0.8, 0.8)] *)
Definition divider_rect : rect :=
  {| r_left := 1 # 10; r_bottom := 1 # 10; r_width := 8 # 10; r_height := 8 # 10 |}.

(** Lines 44-64. *)
Definition divider_body : PLT unit :=
  fig1 ← plt_figure 1 (11 # 2, 4);
  let rect := divider_rect in
  ax ← mapM (λ i, fig_add_axes fig1 rect (pretty i)) (seq 0 4);
  let horiz := [Scaled (3 # 2); Fixed (1 # 2); Scaled 1; Scaled (1 # 2)] in
  let vert := [Scaled 1; Fixed (1 # 2); Scaled (3 # 2)] in
  let divider := {| dv_fig := fig1; dv_rect := rect; dv_horiz := horiz; dv_vert := vert;
                    dv_aspect := false |} in
  a0 ← list_index ax 0; ax_set a0 (Locator (new_locator divider 0 0 None));;
  a1 ← list_index ax 1; ax_set a1 (Locator (new_locator divider 0 2 None));;
  a2 ← list_index ax 2; ax_set a2 (Locator (new_locator divider 2 2 None));;
  a3 ← list_index ax 3; ax_set a3 (Locator (new_locator divider 2 0 (Some 4%nat)));;
  se_for ax (λ ax1, ax_set ax1 (TickParams false false)).

Definition divider_script (in_nodebox : bool) : NB unit :=
  pltshow ← divider_nodebox_section in_nodebox;
  lift divider_body;;
  call_pltshow pltshow.

(** ** membrane.py *)

Section Membrane.
Context `{Numpy A}.

(** Lines 46-56. *)
Definition membrane_body : PLT unit :=
  let x := np_fromfile "membrane.dat" in
  '(fig, ax) ← plt_subplots 1 1 None;
  h ← ax_one ax;
  ax_plot h 4;;
  ax_set h (XLim 5000 6000);;
  ax_set h (YLim (-6 # 10) (1 # 10));;
  ax_set h (XTicks []);;
  ax_set h (YTicks []).

Definition membrane_script (in_nodebox : bool) : NB unit :=
  pltshow ← membrane_nodebox_section in_nodebox;
  lift membrane_body;;
  call_pltshow pltshow.

End Membrane.

(** ** What the theorems inspect *)

(** The columns where the pictures drawn end. *)
Definition right_edges (st : nbstate) : list Z := (λ a, im_x a + im_w a)%Z <$> images st.

(** The locator set last on an axes. *)
Definition axes_locator (a : axes) : option locator :=
  foldl (λ acc x, match x with Locator l => Some l | _ => acc end) None (ax_props a).

(** Where the locators place the axes of a figure, in figure fractions. *)
Definition located_rects (f : figure) : list rect :=
  omap (λ a, (λ l, locate l (fig_size f).1 (fig_size f).2) <$> axes_locator a) (fig_axes f).

Definition rect_inside (r outer : rect) : bool :=
  Qle_bool (r_left outer) (r_left r) && Qle_bool (r_bottom outer) (r_bottom r) &&
  Qle_bool (r_left r + r_width r) (r_left outer + r_width outer) &&
  Qle_bool (r_bottom r + r_height r) (r_bottom outer + r_height outer).

(** Two rectangles whose interiors do not meet: one is left of, right
    of, below or above the other. *)
Definition rects_disjoint (r1 r2 : rect) : bool :=
  Qle_bool (r_left r1 + r_width r1) (r_left r2) || Qle_bool (r_left r2 + r_width r2) (r_left r1) ||
  Qle_bool (r_bottom r1 + r_height r1) (r_bottom r2) ||
  Qle_bool (r_bottom r2 + r_height r2) (r_bottom r1).

Fixpoint pairwise_disjoint (rs : list rect) : bool :=
  match rs with
  | [] => true
  | r :: rs => forallb (rects_disjoint r) rs && pairwise_disjoint rs
  end.

(** The figure rendered on a run's last [savefig], as pixels. *)
Definition picture_sizes (st : nbstate) : list (Z * Z) := (λ a, (im_dx a, im_dy a)) <$> images st.

(** ** The scripts run in NodeBox *)

(** A script run inside NodeBox, from any state whose pyplot store is
    well formed: the section empties the store, the body runs on the
    empty store, and [pltshow(plt)] draws what [savefig] renders of the
    store the body leaves. *)
Lemma nodebox_script_run (body : PLT unit) st p px p' :
  plt_inv (plt st) → body {| figures := []; cur := None |} = inr (tt, p) →
  savefig_pixels 150 p = inr (px, p') →
  (f ← nodebox_section true; lift body;; call_pltshow f) st =
    inr (tt, pltshow_post px p' (with_plt (section_post st) p (shown st))).
Proof.
  intros Hinv Hb Hs.
  rewrite (se_bind_run _ _ _ _ _ (nodebox_section_total st Hinv)). cbn beta.
  rewrite (se_bind_run (lift body) _ _ tt (with_plt (section_post st) p (shown st)))
    by (unfold lift; cbn [plt section_post]; by rewrite Hb).
  by apply pltshow_run.
Qed.

(** Evaluate the body of a script on the empty store and what [savefig]
    renders of the result, and run the script from the state [st]. *)
Ltac nodebox_script_eval body st :=
  let r := eval vm_compute in (body {| figures := []; cur := None |}) in
  lazymatch r with
  | inr (_, ?p) =>
      let r' := eval vm_compute in (savefig_pixels 150 p) in
      lazymatch r' with
      | inr (?px, ?p') =>
          exists (pltshow_post px p' (with_plt (section_post st) p (shown st)));
          split; [apply (nodebox_script_run body st p px p');
                  [assumption | vm_compute; reflexivity | vm_compute; reflexivity] |]
      end
  end.

Lemma fmap_images_pltshow_post {B} (g : placed → B) px p st :
  g <$> images (pltshow_post px p st) = (g <$> images st) ++
    [g {| im_path := fresh (dom (files st)); im_x := py_imgx st; im_y := py_imgy st;
          im_w := Z.min (py_W st) px.1; im_dx := px.1; im_dy := px.2 |}].
Proof. unfold pltshow_post. cbn [images]. by rewrite fmap_app. Qed.

Section Runs.
Context `{Numpy A}.

(** C27. colormap_normalizations.py run inside NodeBox, from any state
    whose pyplot store is well formed: the section closes every figure,
    the script builds five figures, numbered 1 to 5, and the fifth
    (8 x 8 inches, three plots) is the current one when [pltshow] runs.
    Only that figure is drawn: one picture more on the canvas, of
    1200 x 1200 pixels (8 inches at 150 dpi), at [(20, 0)] with width
    800; the four figures before it, of the default 6.4 x 4.8 inches,
    are never drawn, and the file system is as it was. *)
Theorem colormap_shows_last_figure st :
  plt_inv (plt st) →
  ∃ st', colormap_script true st = inr (tt, st') ∧
    fig_num <$> figures (plt st') = [1; 2; 3; 4; 5]%nat ∧
    cur (plt st') = Some 5%nat ∧
    fig_size <$> figures (plt st') =
      [default_figsize; default_figsize; default_figsize; default_figsize; (8, 8)] ∧
    length <$> (fig_axes <$> figures (plt st')) = [4; 4; 4; 4; 6]%nat ∧
    images st' = images st ++
      [{| im_path := fresh (dom (files st)); im_x := 20; im_y := 0; im_w := 800;
          im_dx := 1200; im_dy := 1200 |}] ∧
    files st' = files st.
Proof.
  intros Hinv. nodebox_script_eval colormap_body st. split_and!; reflexivity.
Qed.

(** C28. Each of the three scripts, run inside NodeBox from any state
    whose pyplot store is well formed, draws exactly one picture more,
    the current figure at 150 dpi: 1200 x 1200 pixels for
    colormap_normalizations.py, 825 x 600 for simple_axes_divider2.py
    (its 5.5 x 4 inch figure) and 960 x 720 for membrane.py (the default
    figure).  Each is placed at column 20 with width 800, so its right
    edge is at column 820, past the canvas width [WIDTH] = 800. *)
Theorem scripts_draw_past_right_edge st :
  plt_inv (plt st) →
  (∃ st', colormap_script true st = inr (tt, st') ∧ WIDTH st' = 800%Z ∧
     picture_sizes st' = picture_sizes st ++ [(1200, 1200)%Z] ∧
     right_edges st' = right_edges st ++ [820%Z]) ∧
  (∃ st', divider_script true st = inr (tt, st') ∧ WIDTH st' = 800%Z ∧
     picture_sizes st' = picture_sizes st ++ [(825, 600)%Z] ∧
     right_edges st' = right_edges st ++ [820%Z]) ∧
  (∃ st', membrane_script true st = inr (tt, st') ∧ WIDTH st' = 800%Z ∧
     picture_sizes st' = picture_sizes st ++ [(960, 720)%Z] ∧
     right_edges st' = right_edges st ++ [820%Z]).
Proof.
  intros Hinv. unfold picture_sizes, right_edges.
  split_and!; [nodebox_script_eval colormap_body st | nodebox_script_eval divider_body st
    | nodebox_script_eval membrane_body st];
    (split; [reflexivity |]); rewrite !fmap_images_pltshow_post; split; reflexivity.
Qed.

End Runs.

(** C29. simple_axes_divider2.py run inside NodeBox, from any state whose
    pyplot store is well formed, leaves one figure, number 1, of
    5.5 x 4 inches, with the four axes the script adds; the divider
    places each of them, and the four rectangles it gives lie inside
    [rect = (0.1, 0.1, 0.8, 0.8)] and do not overlap. *)
Theorem divider_axes_layout st :
  plt_inv (plt st) →
  ∃ st', divider_script true st = inr (tt, st') ∧
    ∃ f, figures (plt st') = [f] ∧ fig_num f = 1%nat ∧ fig_size f = (11 # 2, 4) ∧
      length (fig_axes f) = 4%nat ∧ length (located_rects f) = 4%nat ∧
      forallb (λ r, rect_inside r divider_rect) (located_rects f) = true ∧
      pairwise_disjoint (located_rects f) = true.
Proof.
  intros Hinv. nodebox_script_eval divider_body st.
  eexists. split_and!; [reflexivity | ..]; vm_compute; reflexivity.
Qed.

(** ** Witnesses *)

Lemma colormap_shows_last_figure_witness :
  plt_inv (plt nodebox_start) ∧
  ∃ st', @colormap_script unit np_shapes true nodebox_start = inr (tt, st') ∧
    fig_num <$> figures (plt st') = [1; 2; 3; 4; 5]%nat ∧
    cur (plt st') = Some 5%nat ∧
    fig_size <$> figures (plt st') =
      [default_figsize; default_figsize; default_figsize; default_figsize; (8, 8)] ∧
    length <$> (fig_axes <$> figures (plt st')) = [4; 4; 4; 4; 6]%nat ∧
    images st' = images nodebox_start ++
      [{| im_path := fresh (dom (files nodebox_start)); im_x := 20; im_y := 0; im_w := 800;
          im_dx := 1200; im_dy := 1200 |}] ∧
    files st' = files nodebox_start.
Proof.
  split; [exact plt_inv_empty |].
  apply (@colormap_shows_last_figure unit np_shapes nodebox_start). exact plt_inv_empty.
Defined.

Lemma scripts_draw_past_right_edge_witness :
  plt_inv (plt nodebox_start) ∧
  (∃ st', @colormap_script unit np_shapes true nodebox_start = inr (tt, st') ∧ WIDTH st' = 800%Z ∧
     picture_sizes st' = picture_sizes nodebox_start ++ [(1200, 1200)%Z] ∧
     right_edges st' = right_edges nodebox_start ++ [820%Z]) ∧
  (∃ st', divider_script true nodebox_start = inr (tt, st') ∧ WIDTH st' = 800%Z ∧
     picture_sizes st' = picture_sizes nodebox_start ++ [(825, 600)%Z] ∧
     right_edges st' = right_edges nodebox_start ++ [820%Z]) ∧
  (∃ st', @membrane_script unit np_shapes true nodebox_start = inr (tt, st') ∧ WIDTH st' = 800%Z ∧
     picture_sizes st' = picture_sizes nodebox_start ++ [(960, 720)%Z] ∧
     right_edges st' = right_edges nodebox_start ++ [820%Z]).
Proof.
  split; [exact plt_inv_empty |].
  apply (@scripts_draw_past_right_edge unit np_shapes nodebox_start). exact plt_inv_empty.
Defined.

Lemma divider_axes_layout_witness :
  plt_inv (plt nodebox_start) ∧
  ∃ st', divider_script true nodebox_start = inr (tt, st') ∧
    ∃ f, figures (plt st') = [f] ∧ fig_num f = 1%nat ∧ fig_size f = (11 # 2, 4) ∧
      length (fig_axes f) = 4%nat ∧ length (located_rects f) = 4%nat ∧
      forallb (λ r, rect_inside r divider_rect) (located_rects f) = true ∧
      pairwise_disjoint (located_rects f) = true.
Proof.
  split; [exact plt_inv_empty |].
  apply (divider_axes_layout nodebox_start). exact plt_inv_empty.
Defined.
