(* ===== verification/Fonts.v ===== *)
(** * The fixed-pitch font filter of [Example fontfamilies 2.py]

    The script asks NodeBox for the installed fonts twice, grouped by
    family ([fontfamilies(flat=False)]) and as one list
    ([fontfamilies(flat=True)]), keeps in [fixed] the fonts whose
    [traitnames] contain [u'fixedpitch'], pretty-prints [fixed], and
    prints three counts.  [fontfamilies] is NodeBox's: it is modelled as
    reading one font database, a list of families, and the flat list as
    the fonts of the families in order.  The output of the script is the
    list of what it prints. *)

From S2P Require Import Prelude.
From stdpp Require Import strings.

(** ** Data *)

(** A font record; the script reads only [traitnames]. *)
Record fontRec := { font_name : string; traitnames : list string }.

Record family := { family_name : string; family_fonts : list fontRec }.

(** What the script prints: [pprint.pprint(fixed)] and the three
    [print "label", n] lines. *)
Inductive output :=
  | Pprint (fonts : list fontRec)
  | PrintCount (label : string) (n : nat).

(** [fontfamilies(flat=False)] and [fontfamilies(flat=True)] on the font
    database [db]. *)
Definition fontfamilies (db : list family) : list family := db.
Definition fontfamilies_flat (db : list family) : list fontRec := mjoin (family_fonts <$> db).

(** ** The script *)

(** [u'fixedpitch' in fontRec.traitnames] *)
Definition fixedpitch (fontRec : fontRec) : Prop := "fixedpitch"%string ∈ traitnames fontRec.

#[export] Instance fixedpitch_dec r : Decision (fixedpitch r) := _.

Definition is_fixed (fontRec : fontRec) : bool := bool_decide (fixedpitch fontRec).

(** Lines 9-13: [fixed = []] and the [for] loop appending to it. *)
Definition fixed_fonts (flatFonts : list fontRec) : list fontRec :=
  foldl (λ fixed fontRec, if is_fixed fontRec then fixed ++ [fontRec] else fixed) [] flatFonts.

(** Lines 4-18. *)
Definition fontfamilies_script (db : list family) : list output :=
  let fontFamilies := fontfamilies db in
  let flatFonts := fontfamilies_flat db in
  let fixed := fixed_fonts flatFonts in
  [Pprint fixed;
   PrintCount "font families:"%string (length fontFamilies);
   PrintCount "fonts:"%string (length flatFonts);
   PrintCount "fixed width fonts:"%string (length fixed)].

(** ** The loop *)

Lemma fixed_fonts_acc acc flatFonts :
  foldl (λ fixed fontRec, if is_fixed fontRec then fixed ++ [fontRec] else fixed) acc flatFonts =
  acc ++ filter fixedpitch flatFonts.
Proof.
  revert acc. induction flatFonts as [|r l IH]; intros acc; simpl.
  - by rewrite app_nil_r.
  - rewrite IH, filter_cons. unfold is_fixed. destruct (decide (fixedpitch r)).
    + rewrite bool_decide_true by done. by rewrite <- app_assoc.
    + by rewrite bool_decide_false.
Qed.

(** ** Properties *)

Lemma filter_fontfamilies_flat db :
  filter fixedpitch (fontfamilies_flat db) =
  mjoin ((λ f, filter fixedpitch (family_fonts f)) <$> db).
Proof.
  induction db as [|f db IH]; [done |]. unfold fontfamilies_flat in *.
  rewrite !fmap_cons, !mjoin_cons, filter_app, IH. done.
Qed.

(** C24. The loop keeps exactly the fixed-pitch fonts, in the order of
    the flat list: it is the filter of the flat list by the trait, a font
    is in [fixed] exactly when it is in the list and has the trait, and
    [fixed] is a sublist of the list. *)
Theorem fixed_fonts_spec flatFonts :
  fixed_fonts flatFonts = filter fixedpitch flatFonts ∧
  (∀ r, r ∈ fixed_fonts flatFonts ↔ r ∈ flatFonts ∧ "fixedpitch"%string ∈ traitnames r) ∧
  fixed_fonts flatFonts `sublist_of` flatFonts.
Proof.
  unfold fixed_fonts. rewrite fixed_fonts_acc. simpl. split_and!; [done | | apply sublist_filter].
  intros r. rewrite list_elem_of_filter. unfold fixedpitch. tauto.
Qed.

(** C25. The counts the script prints: the number of families, the
    number of fonts, which is the sum of the families' sizes, and the
    number of fixed-pitch fonts, which is at most the number of fonts and
    is the sum over the families of their fixed-pitch fonts. *)
Theorem fontfamilies_script_counts db :
  ∃ fixed, fontfamilies_script db =
    [Pprint fixed;
     PrintCount "font families:"%string (length db);
     PrintCount "fonts:"%string (sum_list ((λ f, length (family_fonts f)) <$> db));
     PrintCount "fixed width fonts:"%string (length fixed)] ∧
    length fixed ≤ sum_list ((λ f, length (family_fonts f)) <$> db) ∧
    length fixed = sum_list ((λ f, length (filter fixedpitch (family_fonts f))) <$> db).
Proof.
  exists (fixed_fonts (fontfamilies_flat db)).
  assert (length (fontfamilies_flat db) = sum_list ((λ f, length (family_fonts f)) <$> db)) as Hn.
  { unfold fontfamilies_flat. by rewrite length_join, <- list_fmap_compose. }
  unfold fixed_fonts. rewrite fixed_fonts_acc. simpl. split_and!.
  - unfold fontfamilies_script, fixed_fonts. by rewrite fixed_fonts_acc, Hn.
  - rewrite <- Hn. apply length_filter.
  - by rewrite filter_fontfamilies_flat, length_join, <- list_fmap_compose.
Qed.
